(** * Profile widgets generator: aggregation and rendering arithmetic

    A shallow embedding of [scripts/generate_widgets.py]: the GitHub
    aggregator [fetch_user_data] and the numeric cores of the four widget
    renderers, with the properties of the specification stated and proved
    over them.

    Conventions.
    - Python [int] is [Z].
    - A [dict] used as a counter ([defaultdict(int)]) or as a JSON object
      mapping names to numbers is a [gmap]; none of the properties below
      depends on insertion order.
    - A Python [str] is a [string] whose characters are read as code points
      below 256.
    - A call that may raise is a computation in the [result] monad. *)

From Stdlib Require Import ZArith QArith Qround Qpower Qreduction Lqa Lia String Ascii List.
From Stdlib Require Floats Uint63.
From stdpp Require Import gmap strings list fin_maps sorting.

Local Open Scope string_scope.
Local Open Scope list_scope.
Local Open Scope Z_scope.

(** ** Exceptions and the [result] monad *)

Inductive exn : Type :=
| RequestException   (* requests.get: connection error or timeout *)
| ZeroDivisionError
| OverflowError.

Inductive result (A : Type) : Type :=
| Return (a : A)
| Raise (e : exn).
Arguments Return {A} a.
Arguments Raise {A} e.

Global Instance result_ret : MRet result := λ A a, Return a.
Global Instance result_bind : MBind result := λ A B k c,
  match c with
  | Return a => k a
  | Raise e => Raise e
  end.

(** ** Counters: [defaultdict(int)] *)

Section counters.
Context {K : Type} `{Countable K}.

(** [d[k]] on a [defaultdict(int)]: 0 when the key is absent. *)
Definition get0 (d : gmap K Z) (k : K) : Z := default 0 (d !! k).

(** [d[k] += v]. *)
Definition incr (k : K) (v : Z) (d : gmap K Z) : gmap K Z :=
  <[k := get0 d k + v]> d.

(** [sum(d.values())]. *)
Definition total (d : gmap K Z) : Z := map_fold (λ _ v acc, v + acc) 0 d.

End counters.
(** ** Upstream payloads

    The JSON objects of the GitHub API, with the fields the script reads.
    An absent key is [None]: the script reads every field with [dict.get]. *)

Record Repo : Type := {
  repo_fork : option bool;
  repo_name : option string;
  repo_language : option string;
  repo_stargazers_count : option Z;
  repo_size : option Z;
  repo_description : option string;
  repo_updated_at : option string;
  repo_created_at : option string;
}.

Record Event : Type := {
  event_created_at : option string;
  event_type : option string;
}.

(** What [requests.get] does for one endpoint: it raises (connection error,
    or no answer within [timeout=30]), or it returns a response with a
    status code and a decoded JSON body. *)
Inductive Response (A : Type) : Type :=
| TransportError
| HttpResponse (status_code : Z) (json : A).
Arguments TransportError {A}.
Arguments HttpResponse {A} status_code json.

(** The four upstream queries of one run. The language breakdown is asked
    once per repository, at [/repos/{USERNAME}/{name}/languages]. *)
Record Upstream : Type := {
  up_user : Response (gmap string string);
  up_repos : Response (list Repo);
  up_languages : string → Response (gmap string Z);
  up_events : Response (list Event);
}.

(** [github_api(endpoint, params)]: the body on status 200, [None] on any
    other status; an exception of [requests.get] is not caught. *)
Definition github_api {A : Type} (resp : Response A) : result (option A) :=
  match resp with
  | TransportError => Raise RequestException
  | HttpResponse status_code json =>
      if status_code =? 200 then Return (Some json) else Return None
  end.

(** [x or d], for [x] the result of [github_api] and [d] the empty list or
    dict: [None] gives [d], and so does an empty (falsy) body, which equals
    [d]. *)
Definition or_else {A : Type} (x : option A) (d : A) : A := default d x.

(** ** The aggregator's output *)

Record RepoSummary : Type := {
  rs_name : string;
  rs_language : string;
  rs_stars : Z;
  rs_size : Z;
  rs_languages : gmap string Z;
  rs_description : string;
  rs_updated_at : string;
  rs_created_at : string;
}.

Record ProfileStats : Type := {
  user : gmap string string;
  repos : list RepoSummary;
  languages : gmap string Z;
  daily_activity : gmap string Z;
  hourly_activity : gmap Z Z;
  event_types : gmap string Z;
  total_repos : Z;
  total_stars : Z;
}.

(** ** Timestamps *)

Record datetime : Type := {
  dt_year : Z;
  dt_month : Z;
  dt_day : Z;
  dt_hour : Z;
  dt_minute : Z;
  dt_second : Z;
}.

(** [created.replace("Z", "+00:00")]: every occurrence is replaced. *)
Fixpoint replace_Z (s : string) : string :=
  match s with
  | EmptyString => EmptyString
  | String c rest =>
      if Ascii.eqb c "Z"%char then ("+00:00" ++ replace_Z rest)%string
      else String c (replace_Z rest)
  end.

Definition digit (d : Z) : ascii := ascii_of_N (48 + Z.to_N (d mod 10)).

(** [dt.strftime("%Y-%m-%d")], for the years 1 to 9999 of [datetime]. *)
Definition strftime_Ymd (dt : datetime) : string :=
  let y := dt_year dt in
  let m := dt_month dt in
  let d := dt_day dt in
  String (digit (y / 1000)) (String (digit (y / 100)) (String (digit (y / 10))
    (String (digit y) (String "-"%char (String (digit (m / 10)) (String (digit m)
    (String "-"%char (String (digit (d / 10)) (String (digit d) EmptyString))))))))).

(** ** The aggregator: [fetch_user_data] *)

(** Python's [sum] over a list of integers. *)
Definition sum_Z (l : list Z) : Z := foldr Z.add 0 l.

(** Truthiness of [repo.get("fork")]: absent, [None] and [False] are falsy. *)
Definition truthy (b : option bool) : bool := default false b.

(** [repo.get("language") or "Other"]: absent and empty both give "Other". *)
Definition language_or_other (lang : option string) : string :=
  match lang with
  | Some (String c rest) => String c rest
  | _ => "Other"
  end.

Definition name_of (repo : Repo) : string := default "" (repo_name repo).
Definition stars_of (repo : Repo) : Z := default 0 (repo_stargazers_count repo).

(** The dict appended to [repo_data] for one repository. *)
Definition summarize (repo : Repo) (langs : gmap string Z) : RepoSummary :=
  {| rs_name := name_of repo;
     rs_language := language_or_other (repo_language repo);
     rs_stars := stars_of repo;
     rs_size := default 0 (repo_size repo);
     rs_languages := langs;
     rs_description := default "" (repo_description repo);
     rs_updated_at := default "" (repo_updated_at repo);
     rs_created_at := default "" (repo_created_at repo) |}.

(** [for l, bytes_count in langs.items(): lang_totals[l] += bytes_count] *)
Definition merge_languages (langs lang_totals : gmap string Z) : gmap string Z :=
  map_fold (λ l bytes_count acc, incr l bytes_count acc) lang_totals langs.

(** [for repo in repos: ...], threading [lang_totals] and [repo_data]. *)
Fixpoint repo_loop (up : Upstream) (rest : list Repo)
    (lang_totals : gmap string Z) (repo_data : list RepoSummary)
    : result (gmap string Z * list RepoSummary) :=
  match rest with
  | [] => Return (lang_totals, repo_data)
  | repo :: rest' =>
      if truthy (repo_fork repo) then repo_loop up rest' lang_totals repo_data
      else
        langs_opt ← github_api (up_languages up (name_of repo));
        let langs := or_else langs_opt ∅ in
        repo_loop up rest' (merge_languages langs lang_totals)
                  (repo_data ++ [summarize repo langs])
  end.

(** The three counters of the event loop. *)
Record Activity : Type := {
  act_daily : gmap string Z;
  act_hourly : gmap Z Z;
  act_types : gmap string Z;
}.

Section aggregator.

(** [datetime.fromisoformat] of the Python library: [None] stands for the
    [ValueError] it raises on a string it cannot parse. *)
Variable fromisoformat : string → option datetime.

(** One iteration of [for event in events]. The [try] block holds the
    parse and the two increments; [except: pass] swallows the failure. *)
Definition event_step (acc : Activity) (event : Event) : Activity :=
  let created := default "" (event_created_at event) in
  let acc' :=
    match created with
    | EmptyString => acc
    | _ =>
        match fromisoformat (replace_Z created) with
        | Some dt =>
            {| act_daily := incr (strftime_Ymd dt) 1 (act_daily acc);
               act_hourly := incr (dt_hour dt) 1 (act_hourly acc);
               act_types := act_types acc |}
        | None => acc
        end
    end in
  {| act_daily := act_daily acc';
     act_hourly := act_hourly acc';
     act_types := incr (default "Unknown" (event_type event)) 1 (act_types acc') |}.

Definition event_loop (events : list Event) : Activity :=
  fold_left event_step events
    {| act_daily := ∅; act_hourly := ∅; act_types := ∅ |}.

Definition fetch_user_data (up : Upstream) : result ProfileStats :=
  user_opt ← github_api (up_user up);
  repos_opt ← github_api (up_repos up);
  '(lang_totals, repo_data) ← repo_loop up (or_else repos_opt []) ∅ [];
  events_opt ← github_api (up_events up);
  let act := event_loop (or_else events_opt []) in
  Return {| user := or_else user_opt ∅;
            repos := repo_data;
            languages := lang_totals;
            daily_activity := act_daily act;
            hourly_activity := act_hourly act;
            event_types := act_types act;
            total_repos := Z.of_nat (length repo_data);
            total_stars := sum_Z (rs_stars <$> repo_data) |}.

End aggregator.

(** * Binary64 arithmetic

    Python's [float] is IEEE 754 binary64. A finite float is modelled by
    the rational number it denotes, and every operation returns the exact
    result rounded to the nearest float, ties to even, as IEEE 754 defines
    it; a result at or beyond [2^1024] in magnitude overflows. Signed
    zeros are not distinguished. *)

Module Binary64.
Local Open Scope Q_scope.

(** ** Rounding to nearest, ties to even *)

Definition pow2 (e : Z) : Q := 2 ^ e.

(** The integer nearest to [x]; the even one of the two when [x] lies
    halfway. *)
Definition rne (x : Q) : Z :=
  let f := Qfloor x in
  match Qcompare (x - inject_Z f) (1 # 2) with
  | Lt => f
  | Eq => if Z.even f then f else (f + 1)%Z
  | Gt => (f + 1)%Z
  end.

(** [floor (log2 x)], for [0 < x]. *)
Definition ilog2 (x : Q) : Z :=
  let t := (Z.log2 (Qnum x) - Z.log2 (Zpos (Qden x)))%Z in
  if Qle_bool (pow2 t) x then t else (t - 1)%Z.

(** The exponent of the unit in the last place of [x]: 53 bits of
    precision, and no exponent below that of the subnormal numbers. *)
Definition exponent (x : Q) : Z := Z.max (ilog2 x - 52) (-1074).

Definition round_pos (x : Q) : Q :=
  inject_Z (rne (x / pow2 (exponent x))) * pow2 (exponent x).

(** The float nearest to [x], as a reduced fraction; the exponent is not
    bounded above here, [overflow] does that. *)
Definition fl (x : Q) : Q :=
  Qred match Qcompare x 0 with
       | Gt => round_pos x
       | Lt => - round_pos (- x)
       | Eq => 0
       end.

(** ** Floats and their operations *)

Inductive float : Type :=
| Finite (q : Q)
| Inf (negative : bool)
| NaN.

(** A rounded result whose magnitude reaches [2^1024] is an infinity. *)
Definition overflow (r : Q) : float :=
  if Qle_bool (pow2 1024) r then Inf false
  else if Qle_bool r (- pow2 1024) then Inf true
  else Finite r.

Definition round (x : Q) : float := overflow (fl x).

Definition Qneg (x : Q) : bool := negb (Qle_bool 0 x).
Definition Qzero (x : Q) : bool := Qeq_bool x 0.

(** [a * b] *)
Definition fmul (a b : float) : float :=
  match a, b with
  | NaN, _ | _, NaN => NaN
  | Finite x, Finite y => round (x * y)
  | Inf s, Finite y | Finite y, Inf s => if Qzero y then NaN else Inf (xorb s (Qneg y))
  | Inf s, Inf t => Inf (xorb s t)
  end.

(** [a + b] *)
Definition fadd (a b : float) : float :=
  match a, b with
  | NaN, _ | _, NaN => NaN
  | Finite x, Finite y => round (x + y)
  | Inf s, Finite _ | Finite _, Inf s => Inf s
  | Inf s, Inf t => if Bool.eqb s t then Inf s else NaN
  end.

(** [a / b], for a divisor that is not zero (Python raises on zero). *)
Definition fdiv (a b : float) : float :=
  match a, b with
  | NaN, _ | _, NaN => NaN
  | Finite x, Finite y => round (x / y)
  | Finite x, Inf _ => Finite 0
  | Inf s, Finite y => Inf (xorb s (Qneg y))
  | Inf _, Inf _ => NaN
  end.

(** [a < b]; [a > b] is [flt b a]. Every comparison with NaN is false. *)
Definition flt (a b : float) : bool :=
  match a, b with
  | NaN, _ | _, NaN => false
  | Finite x, Finite y => negb (Qle_bool y x)
  | Finite _, Inf s => negb s
  | Inf s, Finite _ => s
  | Inf s, Inf t => s && negb t
  end.

(** [a <= b] *)
Definition fle (a b : float) : bool :=
  match a, b with
  | NaN, _ | _, NaN => false
  | Finite x, Finite y => Qle_bool x y
  | Finite _, Inf s => negb s
  | Inf s, Finite _ => s
  | Inf s, Inf t => s || negb t
  end.

(** A decimal literal of the source denotes the float nearest to it. *)
Definition lit (q : Q) : float := round q.

End Binary64.



(** ** Python's arithmetic on [int] and [float] *)

(** [a / b] on integers: the quotient correctly rounded, [ZeroDivisionError]
    for a zero divisor, [OverflowError] when the result is too large. *)
Definition truediv (a b : Z) : result Binary64.float :=
  if b =? 0 then Raise ZeroDivisionError
  else match Binary64.round (inject_Z a / inject_Z b) with
       | Binary64.Finite q => Return (Binary64.Finite q)
       | _ => Raise OverflowError
       end.

(** [math.pi]: the float nearest to the number pi. *)
Definition pi_value : Q := 884279719003555 # 281474976710656.
Definition math_pi : Binary64.float := Binary64.Finite pi_value.


(** * Strings, hashes and JSON text *)

(** ** Text of integers *)

Fixpoint digits_of (fuel : nat) (n : Z) (acc : string) : string :=
  match fuel with
  | O => acc
  | S fuel' =>
      let acc' := String (digit n) acc in
      if n <? 10 then acc' else digits_of fuel' (n / 10) acc'
  end.

(** [str(n)], also what an f-string and [json.dumps] write for an [int]. *)
Definition str_of_int (n : Z) : string :=
  if n <? 0 then String "-"%char (digits_of (Z.to_nat (Z.log2 (- n)) + 1) (- n) "")
  else digits_of (Z.to_nat (Z.log2 n) + 1) n "".

(** The UTF-8 bytes of a text whose code points are all below 128, and
    the Latin-1 storage of a [str] whose code points are below 256. *)
Definition bytes_of (s : string) : list Z :=
  (λ c, Z.of_N (N_of_ascii c)) <$> list_ascii_of_string s.

(** ** 64-bit words *)

Definition wrap64 (x : Z) : Z := x mod 2 ^ 64.
Definition rotl64 (x b : Z) : Z :=
  wrap64 (Z.lor (Z.shiftl x b) (Z.shiftr x (64 - b))).

(** The integer a little-endian byte string denotes. *)
Fixpoint le_bytes (bs : list Z) : Z :=
  match bs with
  | [] => 0
  | b :: rest => b + 256 * le_bytes rest
  end.

(** ** [hash] of a [str]: SipHash-1-3 keyed by the process's hash secret

    CPython 3.11 hashes the storage of a [str] with SipHash-1-3 under a
    128-bit key [(k0, k1)] drawn at interpreter start-up, from the
    operating system's random source unless [PYTHONHASHSEED] fixes it. *)

Record sipstate : Type := { v0 : Z; v1 : Z; v2 : Z; v3 : Z }.

Definition sip_round (s : sipstate) : sipstate :=
  let a := wrap64 (v0 s + v1 s) in
  let c := wrap64 (v2 s + v3 s) in
  let b := Z.lxor (rotl64 (v1 s) 13) a in
  let d := Z.lxor (rotl64 (v3 s) 16) c in
  let a := rotl64 a 32 in
  let c := wrap64 (c + b) in
  let a := wrap64 (a + d) in
  let b := Z.lxor (rotl64 b 17) c in
  let d := Z.lxor (rotl64 d 21) a in
  let c := rotl64 c 32 in
  {| v0 := a; v1 := b; v2 := c; v3 := d |}.

Definition sip_word (s : sipstate) (m : Z) : sipstate :=
  let s1 := sip_round {| v0 := v0 s; v1 := v1 s; v2 := v2 s; v3 := Z.lxor (v3 s) m |} in
  {| v0 := Z.lxor (v0 s1) m; v1 := v1 s1; v2 := v2 s1; v3 := v3 s1 |}.

(** The message in 8-byte words; the last word holds the remaining bytes
    and, in its top byte, the length of the message. *)
Fixpoint sip_absorb (fuel : nat) (len : Z) (bs : list Z) (s : sipstate) : sipstate :=
  match fuel with
  | O => s
  | S fuel' =>
      if 8 <=? Z.of_nat (length bs)
      then sip_absorb fuel' len (drop 8 bs) (sip_word s (le_bytes (take 8 bs)))
      else sip_word s (Z.lor (Z.shiftl (len mod 256) 56) (le_bytes bs))
  end.

Definition siphash13 (k0 k1 : Z) (bs : list Z) : Z :=
  let s := {| v0 := Z.lxor k0 0x736f6d6570736575;
              v1 := Z.lxor k1 0x646f72616e646f6d;
              v2 := Z.lxor k0 0x6c7967656e657261;
              v3 := Z.lxor k1 0x7465646279746573 |} in
  let s := sip_absorb (S (length bs)) (Z.of_nat (length bs)) bs s in
  let s := {| v0 := v0 s; v1 := v1 s; v2 := Z.lxor (v2 s) 0xff; v3 := v3 s |} in
  let s := sip_round (sip_round (sip_round s)) in
  Z.lxor (Z.lxor (v0 s) (v1 s)) (Z.lxor (v2 s) (v3 s)).

(** The key [PYTHONHASHSEED=seed] fixes, for a seed other than 0: sixteen
    bytes of a linear congruential generator on 32-bit words. Seed 0 turns
    the randomisation off: the key is [(0, 0)]. *)
Fixpoint lcg_bytes (n : nat) (x : Z) : list Z :=
  match n with
  | O => []
  | S n' =>
      let x' := (x * 214013 + 2531011) mod 2 ^ 32 in
      Z.land (Z.shiftr x' 16) 255 :: lcg_bytes n' x'
  end.

Definition hash_secret_of_seed (seed : Z) : Z * Z :=
  if seed =? 0 then (0, 0)
  else let bs := lcg_bytes 16 seed in (le_bytes (take 8 bs), le_bytes (drop 8 bs)).

(** [hash(s)] for a [str] under the secret [(k0, k1)]: the 64-bit hash
    read as a signed integer, with -1 replaced by -2; the empty string
    hashes to 0. *)
Definition py_hash (secret : Z * Z) (s : string) : Z :=
  match s with
  | EmptyString => 0
  | _ =>
      let h := siphash13 (fst secret) (snd secret) (bytes_of s) in
      let h := if 2 ^ 63 <=? h then h - 2 ^ 64 else h in
      if h =? -1 then -2 else h
  end.

(** ** [hashlib.md5] *)

Definition wrap32 (x : Z) : Z := x mod 2 ^ 32.
Definition rotl32 (x b : Z) : Z :=
  wrap32 (Z.lor (Z.shiftl x b) (Z.shiftr x (32 - b))).

Definition md5_shifts : list Z :=
  [7; 12; 17; 22; 7; 12; 17; 22; 7; 12; 17; 22; 7; 12; 17; 22;
   5; 9; 14; 20; 5; 9; 14; 20; 5; 9; 14; 20; 5; 9; 14; 20;
   4; 11; 16; 23; 4; 11; 16; 23; 4; 11; 16; 23; 4; 11; 16; 23;
   6; 10; 15; 21; 6; 10; 15; 21; 6; 10; 15; 21; 6; 10; 15; 21].

(** [floor (2^32 * abs (sin (i + 1)))], for [i] from 0 to 63. *)
Definition md5_sines : list Z :=
  [0xd76aa478; 0xe8c7b756; 0x242070db; 0xc1bdceee; 0xf57c0faf; 0x4787c62a; 0xa8304613; 0xfd469501;
   0x698098d8; 0x8b44f7af; 0xffff5bb1; 0x895cd7be; 0x6b901122; 0xfd987193; 0xa679438e; 0x49b40821;
   0xf61e2562; 0xc040b340; 0x265e5a51; 0xe9b6c7aa; 0xd62f105d; 0x02441453; 0xd8a1e681; 0xe7d3fbc8;
   0x21e1cde6; 0xc33707d6; 0xf4d50d87; 0x455a14ed; 0xa9e3e905; 0xfcefa3f8; 0x676f02d9; 0x8d2a4c8a;
   0xfffa3942; 0x8771f681; 0x6d9d6122; 0xfde5380c; 0xa4beea44; 0x4bdecfa9; 0xf6bb4b60; 0xbebfbc70;
   0x289b7ec6; 0xeaa127fa; 0xd4ef3085; 0x04881d05; 0xd9d4d039; 0xe6db99e5; 0x1fa27cf8; 0xc4ac5665;
   0xf4292244; 0x432aff97; 0xab9423a7; 0xfc93a039; 0x655b59c3; 0x8f0ccc92; 0xffeff47d; 0x85845dd1;
   0x6fa87e4f; 0xfe2ce6e0; 0xa3014314; 0x4e0811a1; 0xf7537e82; 0xbd3af235; 0x2ad7d2bb; 0xeb86d391].

Definition lnot32 (x : Z) : Z := 2 ^ 32 - 1 - x.

(** One of the 64 operations on the state [(a, b, c, d)]. *)
Definition md5_step (words : list Z) (st : Z * Z * Z * Z) (i : nat) : Z * Z * Z * Z :=
  let '(a, b, c, d) := st in
  let iz := Z.of_nat i in
  let '(f, g) :=
    if iz <? 16 then (Z.lor (Z.land b c) (Z.land (lnot32 b) d), iz)
    else if iz <? 32 then (Z.lor (Z.land d b) (Z.land (lnot32 d) c), (5 * iz + 1) mod 16)
    else if iz <? 48 then (Z.lxor (Z.lxor b c) d, (3 * iz + 5) mod 16)
    else (Z.lxor c (Z.lor b (lnot32 d)), (7 * iz) mod 16) in
  let f := wrap32 (f + a + nth i md5_sines 0 + nth (Z.to_nat g) words 0) in
  (d, wrap32 (b + rotl32 f (nth i md5_shifts 0)), b, c).

(** The sixteen little-endian 32-bit words of a 64-byte block. *)
Fixpoint words_of (n : nat) (bs : list Z) : list Z :=
  match n with
  | O => []
  | S n' => le_bytes (take 4 bs) :: words_of n' (drop 4 bs)
  end.

Definition md5_block (st : Z * Z * Z * Z) (block : list Z) : Z * Z * Z * Z :=
  let '(a0, b0, c0, d0) := st in
  let '(a, b, c, d) := foldl (md5_step (words_of 16 block)) st (seq 0 64) in
  (wrap32 (a0 + a), wrap32 (b0 + b), wrap32 (c0 + c), wrap32 (d0 + d)).

Fixpoint md5_blocks (n : nat) (st : Z * Z * Z * Z) (bs : list Z) : Z * Z * Z * Z :=
  match n with
  | O => st
  | S n' => md5_blocks n' (md5_block st (take 64 bs)) (drop 64 bs)
  end.

(** The bytes of [n] in little-endian order, [k] of them. *)
Fixpoint to_le_bytes (k : nat) (n : Z) : list Z :=
  match k with
  | O => []
  | S k' => n mod 256 :: to_le_bytes k' (n / 256)
  end.

(** The message, one bit 1, zeros up to 56 modulo 64, and the length in bits. *)
Definition md5_pad (bs : list Z) : list Z :=
  let len := Z.of_nat (length bs) in
  let zeros := Z.to_nat ((55 - len) mod 64) in
  bs ++ [128] ++ replicate zeros 0 ++ to_le_bytes 8 ((8 * len) mod 2 ^ 64).

Definition md5 (bs : list Z) : list Z :=
  let padded := md5_pad bs in
  let '(a, b, c, d) :=
    md5_blocks (length padded / 64)
               (0x67452301, 0xefcdab89, 0x98badcfe, 0x10325476) padded in
  to_le_bytes 4 a ++ to_le_bytes 4 b ++ to_le_bytes 4 c ++ to_le_bytes 4 d.

Definition hex_digit (n : Z) : ascii :=
  if n <? 10 then ascii_of_N (48 + Z.to_N n) else ascii_of_N (87 + Z.to_N n).

(** [.hexdigest()]: two lower-case hexadecimal digits per byte. *)
Fixpoint hexdigest (bs : list Z) : string :=
  match bs with
  | [] => ""
  | b :: rest => String (hex_digit (b / 16)) (String (hex_digit (b mod 16)) (hexdigest rest))
  end.

Definition hex_value (c : ascii) : Z :=
  let n := Z.of_N (N_of_ascii c) in
  if (48 <=? n) && (n <=? 57) then n - 48
  else if (97 <=? n) && (n <=? 102) then n - 87
  else if (65 <=? n) && (n <=? 70) then n - 55
  else 0.

(** [int(s, 16)] on a string of hexadecimal digits, as a digest is. *)
Definition int_hex (s : string) : Z :=
  foldl (λ acc c, 16 * acc + hex_value c) 0 (list_ascii_of_string s).

(** ** [json.dumps] of a list of [(name, count)] pairs *)

Definition quote : ascii := ascii_of_N 34.
Definition backslash : ascii := ascii_of_N 92.

(** One character inside a JSON string, with [ensure_ascii]: the quote, the
    backslash and everything outside the printable ASCII range is escaped. *)
Definition json_char (c : ascii) : string :=
  let n := Z.of_N (N_of_ascii c) in
  if n =? 34 then String backslash (String quote "")
  else if n =? 92 then String backslash (String backslash "")
  else if n =? 10 then String backslash "n"
  else if n =? 13 then String backslash "r"
  else if n =? 9 then String backslash "t"
  else if n =? 12 then String backslash "f"
  else if n =? 8 then String backslash "b"
  else if (32 <=? n) && (n <=? 126) then String c ""
  else String backslash
         (String "u" (String "0" (String "0"
            (String (hex_digit (n / 16)) (String (hex_digit (n mod 16)) ""))))).

Fixpoint json_escape (s : string) : string :=
  match s with
  | EmptyString => ""
  | String c rest => (json_char c ++ json_escape rest)%string
  end.

Definition json_string (s : string) : string :=
  String quote (json_escape s ++ String quote "")%string.

(** A tuple [(name, count)] is written as a two-element array. *)
Definition json_pair (item : string * Z) : string :=
  ("[" ++ json_string item.1 ++ ", " ++ str_of_int item.2 ++ "]")%string.

Fixpoint json_join (items : list (string * Z)) : string :=
  match items with
  | [] => ""
  | [item] => json_pair item
  | item :: rest => (json_pair item ++ ", " ++ json_join rest)%string
  end.

Definition json_dumps (items : list (string * Z)) : string :=
  ("[" ++ json_join items ++ "]")%string.

(** [sorted(languages.items())]: the keys of a dict differ, so the pairs
    are ordered by name, code point by code point. *)
Fixpoint insert_by_name (item : string * Z) (sorted : list (string * Z)) : list (string * Z) :=
  match sorted with
  | [] => [item]
  | item' :: rest =>
      if String.leb item.1 item'.1 then item :: sorted
      else item' :: insert_by_name item rest
  end.

Definition sorted_items (languages : gmap string Z) : list (string * Z) :=
  foldr insert_by_name [] (map_to_list languages).

(** * The numeric cores of the renderers

    What each [generate_*] function computes before it writes SVG text:
    the ratios, the classifications and the hash-derived parameters. The
    text itself is not modelled. *)

Import Binary64.

(** [a / b] where [b] is a float: [ZeroDivisionError] on a zero divisor. *)
Definition float_div (a b : float) : result float :=
  match b with
  | Finite y => if Qzero y then Raise ZeroDivisionError else Return (fdiv a b)
  | _ => Return (fdiv a b)
  end.

(** ** Code DNA *)

(** [sum(languages.values()) or 1] *)
Definition total_bytes_of (languages : gmap string Z) : Z :=
  let s := total languages in if s =? 0 then 1 else s.

(** The legend's [pct = bytes_count / total_bytes * 100]. *)
Definition dna_share (languages : gmap string Z) (bytes_count : Z) : result float :=
  ratio ← truediv bytes_count (total_bytes_of languages);
  Return (fmul ratio (lit 100)).

(** [hashlib.md5(json.dumps(sorted(languages.items())).encode()).hexdigest()] *)
Definition data_hash (languages : gmap string Z) : string :=
  hexdigest (md5 (bytes_of (json_dumps (sorted_items languages)))).

(** [s[:4]] and [s[4:8]] *)
Definition slice_0_4 (s : string) : string := substring 0 4 s.
Definition slice_4_8 (s : string) : string := substring 4 4 s.

(** [phase_offset = int(data_hash[:4], 16) / 65535 * math.pi * 2] *)
Definition phase_offset_of (digest : string) : result float :=
  u ← truediv (int_hex (slice_0_4 digest)) 65535;
  Return (fmul (fmul u math_pi) (lit 2)).

(** [freq_mod = 0.8 + (int(data_hash[4:8], 16) / 65535) * 0.6] *)
Definition freq_mod_of (digest : string) : result float :=
  u ← truediv (int_hex (slice_4_8 digest)) 65535;
  Return (fadd (lit (8 # 10)) (fmul u (lit (6 # 10)))).

Definition phase_offset (languages : gmap string Z) : result float :=
  phase_offset_of (data_hash languages).

Definition freq_mod (languages : gmap string Z) : result float :=
  freq_mod_of (data_hash languages).

(** ** Repo Skyline *)

(** [sorted(rs, key=lambda r: r.get("size", 0), reverse=True)]: a stable
    sort, larger sizes first. *)
Fixpoint insert_by_size (r : RepoSummary) (sorted : list RepoSummary) : list RepoSummary :=
  match sorted with
  | [] => [r]
  | r' :: rest =>
      if rs_size r' <=? rs_size r then r :: sorted
      else r' :: insert_by_size r rest
  end.

Definition sorted_by_size (rs : list RepoSummary) : list RepoSummary :=
  foldr insert_by_size [] rs.

Definition no_repos : RepoSummary :=
  {| rs_name := "no-repos"; rs_language := "Other"; rs_stars := 0; rs_size := 100;
     rs_languages := ∅; rs_description := ""; rs_updated_at := ""; rs_created_at := "" |}.

(** The repositories drawn: the 18 largest, or the placeholder. *)
Definition skyline_repos (rs : list RepoSummary) : list RepoSummary :=
  match take 18 (sorted_by_size rs) with
  | [] => [no_repos]
  | top => top
  end.

(** [max(xs)] of a list that is not empty. *)
Definition max_list (xs : list Z) : Z :=
  match xs with
  | [] => 0
  | x :: rest => foldl Z.max x rest
  end.

(** [max(r.get("size", 1) for r in repos) or 1] *)
Definition max_size_of (drawn : list RepoSummary) : Z :=
  let m := max_list (rs_size <$> drawn) in if m =? 0 then 1 else m.

(** [bh = 25 + (size / max_size) * 145] *)
Definition building_height (drawn : list RepoSummary) (size : Z) : result float :=
  ratio ← truediv size (max_size_of drawn);
  Return (fadd (lit 25) (fmul ratio (lit 145))).

(** [min(36, (building_area_width - gap * (n - 1)) / n)], with
    [building_area_width = 720] and [gap = 6]. *)
Definition building_width (drawn : list RepoSummary) : result float :=
  let n := Z.of_nat (length drawn) in
  w ← truediv (720 - 6 * (n - 1)) n;
  Return (if flt w (lit 36) then w else lit 36).

(** [lit = (hash(f"{name}{wx}{wy}") % 3) != 0], under the hash secret of
    the running process. *)
Definition window_lit (secret : Z * Z) (name : string) (wx wy : Z) : bool :=
  negb (py_hash secret (name ++ str_of_int wx ++ str_of_int wy)%string mod 3 =? 0).

(** [generate_repo_skyline]: the heights of the buildings, left to right. *)
Definition generate_repo_skyline (rs : list RepoSummary) : result (list float) :=
  let drawn := skyline_repos rs in
  _ ← building_width drawn;
  mapM (λ r, building_height drawn (rs_size r)) drawn.

(** ** Skill Tree *)

Inductive Level : Type := Master | Expert | Adept | Skilled | Novice.

(** [max(languages.values()) if languages else 1] *)
Definition max_bytes_of (languages : gmap string Z) : Z :=
  default 1 (map_fold (λ _ v acc, Some (match acc with
                                        | Some m => Z.max v m
                                        | None => v
                                        end)) None languages).

(** The [if pct > 0.7: ... elif ...] chain. *)
Definition level_of (pct : float) : Level :=
  if flt (lit (7 # 10)) pct then Master
  else if flt (lit (4 # 10)) pct then Expert
  else if flt (lit (2 # 10)) pct then Adept
  else if flt (lit (8 # 100)) pct then Skilled
  else Novice.

(** [pct = bytes_count / max_bytes] and the level it gives. *)
Definition skill_level (bytes_count max_bytes : Z) : result Level :=
  pct ← truediv bytes_count max_bytes;
  Return (level_of pct).

(** [sorted(l, key=key, reverse=True)]: larger keys first, and items with
    equal keys in the order they had in [l]. *)
Fixpoint insert_desc {A : Type} (key : A → Z) (x : A) (sorted : list A) : list A :=
  match sorted with
  | [] => [x]
  | y :: rest =>
      if key y <=? key x then x :: sorted
      else y :: insert_desc key x rest
  end.

Definition sort_desc {A : Type} (key : A → Z) (l : list A) : list A :=
  foldr (insert_desc key) [] l.

(** The categories and the columns of the tree. *)
Definition categories : list (string * list string) :=
  [ ("Frontend", ["JavaScript"; "TypeScript"; "HTML"; "CSS"; "SCSS"; "Vue"; "Svelte"; "Dart"]);
    ("Backend", ["Python"; "Java"; "Go"; "Rust"; "Ruby"; "PHP"; "C#"; "Kotlin"; "Scala";
                 "Elixir"; "Perl"; "C"; "C++"; "Haskell"]);
    ("Data & ML", ["Jupyter Notebook"; "R"; "Lua"]);
    ("DevOps", ["Shell"; "Dockerfile"]) ].

(** [lang in cat_langs] *)
Definition member (lang : string) (cat_langs : list string) : bool :=
  existsb (String.eqb lang) cat_langs.

(** [all_categorized]: the languages of all the categories. *)
Definition all_categorized : list string := concat (snd <$> categories).

(** [lang in cat_langs] and [lang not in all_categorized], for an item
    [(lang, bytes_count)] of [sorted_langs]. *)
Definition in_category (cat_langs : list string) (item : string * Z) : bool :=
  member item.1 cat_langs.
Definition uncategorized (item : string * Z) : bool :=
  negb (member item.1 all_categorized).

(** [categorized]: a dict in insertion order, so the columns are the
    categories that have a language, in the order of [categories], and
    then [Other] if a language is in no category. *)
Definition categorized (sorted_langs : list (string * Z))
    : list (string * list (string * Z)) :=
  let named :=
    omap (λ '(cat, cat_langs),
            match List.filter (in_category cat_langs) sorted_langs with
            | [] => None
            | items => Some (cat, items)
            end) categories in
  match List.filter uncategorized sorted_langs with
  | [] => named
  | items => named ++ [("Other", items)]
  end.

(** The skills drawn in a column, [items[:6]], each with its level. *)
Definition column_skills (max_bytes : Z) (items : list (string * Z))
    : result (list (string * Level)) :=
  mapM (λ '(lang, bytes_count),
          level ← skill_level bytes_count max_bytes;
          Return (lang, level))
       (take 6 items).

(** [b / max_bytes > 0.7], the test of the footer. *)
Definition is_master (max_bytes bytes_count : Z) : result bool :=
  pct ← truediv bytes_count max_bytes;
  Return (flt (lit (7 # 10)) pct).

(** The tree of the items of [languages]: the languages sorted by bytes,
    the columns with the level of their first six languages each, and
    then the footer's
    [master_count = sum(1 for _, b in sorted_langs if b / max_bytes > 0.7)],
    which divides for every language. *)
Definition skill_tree_of (items : list (string * Z)) (max_bytes : Z)
    : result (list (string * list (string * Level)) * Z) :=
  let sorted_langs := sort_desc snd items in
  columns ← mapM (λ '(cat, column),
                    skills ← column_skills max_bytes column;
                    Return (cat, skills))
                 (categorized sorted_langs);
  masters ← mapM (λ '(_, b), is_master max_bytes b) sorted_langs;
  Return (columns, Z.of_nat (length (List.filter id masters))).

(** [generate_skill_tree]: [map_to_list languages] stands for
    [languages.items()]; what depends on the order of the items is stated
    on [skill_tree_of] for every list of the items. *)
Definition generate_skill_tree (languages : gmap string Z)
    : result (list (string * list (string * Level)) * Z) :=
  skill_tree_of (map_to_list languages) (max_bytes_of languages).

(** ** Code Weather *)

Inductive Weather : Type := Cloudy | PartlyCloudy | Sunny | Hot | Thunderstorm.
Inductive Trend : Type := TrendingUp | CoolingDown | Steady.

(** The band of a day's count, and the temperature shown for today. *)
Definition weather_of (count : Z) : Weather :=
  if count =? 0 then Cloudy
  else if count <=? 2 then PartlyCloudy
  else if count <=? 5 then Sunny
  else if count <=? 10 then Hot
  else Thunderstorm.

Definition temp_of (today_count : Z) : Z :=
  if today_count =? 0 then 0
  else if today_count <=? 2 then today_count * 12
  else if today_count <=? 5 then today_count * 10
  else if today_count <=? 10 then today_count * 8
  else Z.min 99 (today_count * 6).

(** The [if avg_7 > avg_30 * 1.2: ... elif avg_7 < avg_30 * 0.8: ...] chain. *)
Definition trend_of (avg_7 avg_30 : float) : Trend :=
  if flt (fmul avg_30 (lit (12 # 10))) avg_7 then TrendingUp
  else if flt avg_7 (fmul avg_30 (lit (8 # 10))) then CoolingDown
  else Steady.

(** [max(last_30) if last_30 and max(last_30) > 0 else 1] *)
Definition max_val_of (last_30 : list Z) : Z :=
  match last_30 with
  | [] => 1
  | _ => if 0 <? max_list last_30 then max_list last_30 else 1
  end.

(** [bh = max(2, (val / max_val) * chart_h)], with [chart_h = 60]. *)
Definition bar_height (last_30 : list Z) (val : Z) : result float :=
  ratio ← truediv val (max_val_of last_30);
  let h := fmul ratio (lit 60) in
  Return (if flt (lit 2) h then h else lit 2).

Section weather.

(** [(datetime.now() - timedelta(days=i)).strftime("%Y-%m-%d")]: the key of
    the day [i] days before today. *)
Variable day_key : nat → string.

Definition last_30_of (daily : gmap string Z) : list Z :=
  (λ i, get0 daily (day_key i)) <$> seq 0 30.

(** [last_7] receives the first seven counts of [last_30]. *)
Definition last_7_of (daily : gmap string Z) : list Z := take 7 (last_30_of daily).

Record Forecast : Type := {
  today_count : Z;
  weather : Weather;
  temp : Z;
  avg_7 : float;
  avg_30 : float;
  trend : Trend;
  bars : list float;
}.

(** [generate_code_weather]: today's band and temperature, the two
    averages, the trend and the heights of the thirty bars. *)
Definition generate_code_weather (daily : gmap string Z) : result Forecast :=
  let last_30 := last_30_of daily in
  let last_7 := last_7_of daily in
  a7 ← truediv (sum_Z last_7) (Z.max (Z.of_nat (length last_7)) 1);
  a30 ← truediv (sum_Z last_30) (Z.max (Z.of_nat (length last_30)) 1);
  let today := default 0 (head last_30) in
  hs ← mapM (bar_height last_30) last_30;
  Return {| today_count := today;
            weather := weather_of today;
            temp := temp_of today;
            avg_7 := a7;
            avg_30 := a30;
            trend := trend_of a7 a30;
            bars := hs |}.

End weather.

(** * Notions used in the statements *)

(** ** The aggregator's view of the upstream *)

(** What the aggregator reads off one response: the body on status 200,
    the empty collection [d] otherwise. *)
Definition body_or {A : Type} (resp : Response A) (d : A) : A :=
  match resp with
  | HttpResponse status_code json => if status_code =? 200 then json else d
  | TransportError => d
  end.

(** The repositories that are not forks, in the order received. *)
Definition included (rs : list Repo) : list Repo :=
  List.filter (λ r, negb (truthy (repo_fork r))) rs.

(** The language breakdown the aggregator uses for one repository. *)
Definition languages_of (up : Upstream) (r : Repo) : gmap string Z :=
  body_or (up_languages up (name_of r)) ∅.

(** The same upstream with the forks removed from the repository list. *)
Definition without_forks (up : Upstream) : Upstream :=
  {| up_user := up_user up;
     up_repos := match up_repos up with
                 | HttpResponse status_code json => HttpResponse status_code (included json)
                 | TransportError => TransportError
                 end;
     up_languages := up_languages up;
     up_events := up_events up |}.

(** Every query gets an HTTP response, of whatever status. *)
Definition no_transport_error (up : Upstream) : Prop :=
  up_user up ≠ TransportError ∧
  up_repos up ≠ TransportError ∧
  (∀ name, up_languages up name ≠ TransportError) ∧
  up_events up ≠ TransportError.

(** The upstream in which every query answered by a status other than 200
    is answered by status 200 and an empty list or map instead. *)
Definition degraded (up : Upstream) : Upstream :=
  {| up_user := HttpResponse 200 (body_or (up_user up) ∅);
     up_repos := HttpResponse 200 (body_or (up_repos up) []);
     up_languages := λ name, HttpResponse 200 (body_or (up_languages up name) ∅);
     up_events := HttpResponse 200 (body_or (up_events up) []) |}.

(** ** Events *)

(** The label an event is counted under: [event.get("type", "Unknown")]. *)
Definition type_label (event : Event) : string :=
  default "Unknown" (event_type event).

Section events.

Variable fromisoformat : string → option datetime.

(** The events whose timestamp is present and parses. *)
Definition timestamp_ok (event : Event) : bool :=
  match default "" (event_created_at event) with
  | EmptyString => false
  | String c rest =>
      match fromisoformat (replace_Z (String c rest)) with
      | Some _ => true
      | None => false
      end
  end.

End events.

(** ** The float literals of the source, as rationals *)

Definition c_0_08 : Q := Eval vm_compute in Binary64.fl (8 # 100).
Definition c_0_2 : Q := Eval vm_compute in Binary64.fl (2 # 10).
Definition c_0_4 : Q := Eval vm_compute in Binary64.fl (4 # 10).
Definition c_0_6 : Q := Eval vm_compute in Binary64.fl (6 # 10).
Definition c_0_7 : Q := Eval vm_compute in Binary64.fl (7 # 10).
Definition c_0_8 : Q := Eval vm_compute in Binary64.fl (8 # 10).
Definition c_1_4 : Q := Eval vm_compute in Binary64.fl (14 # 10).

(** The value of [math.pi * 2]. *)
Definition c_two_pi : Q := 884279719003555 # 140737488355328.

(** The largest phase offset under [math.pi * 2], that of the digits
    [fffe], with the two intermediate values of its computation. *)
Definition c_fffe : Q := Eval vm_compute in Binary64.fl (65534 # 65535).
Definition c_fffe_pi : Q := Eval vm_compute in Binary64.fl (c_fffe * pi_value).
Definition c_fffe_two_pi : Q := Eval vm_compute in Binary64.fl (c_fffe_pi * 2).

(** ** Levels by exact proportion *)

(** The binary64 values of the four cut points raised by
    [1 / (d * 2 ^ 51)], [d] the denominator of the cut point in lowest
    terms. *)
Definition above_c_0_7 : Q :=
  Eval vm_compute in Binary64.fl ((7 * 2 ^ 51 + 1) # (10 * 2 ^ 51)).
Definition above_c_0_4 : Q :=
  Eval vm_compute in Binary64.fl ((2 * 2 ^ 51 + 1) # (5 * 2 ^ 51)).
Definition above_c_0_2 : Q :=
  Eval vm_compute in Binary64.fl ((1 * 2 ^ 51 + 1) # (5 * 2 ^ 51)).
Definition above_c_0_08 : Q :=
  Eval vm_compute in Binary64.fl ((2 * 2 ^ 51 + 1) # (25 * 2 ^ 51)).

(** The level of [bytes_count] out of [max_bytes] when the proportion is
    compared with 7/10, 2/5, 1/5 and 2/25 as exact fractions. *)
Definition exact_level (bytes_count max_bytes : Z) : Level :=
  if 7 * max_bytes <? 10 * bytes_count then Master
  else if 2 * max_bytes <? 5 * bytes_count then Expert
  else if max_bytes <? 5 * bytes_count then Adept
  else if 2 * max_bytes <? 25 * bytes_count then Skilled
  else Novice.

(** ** The binary64 model beside the floats of the Standard Library *)

Definition float_of_spec (x : SpecFloat.spec_float) : float :=
  match x with
  | SpecFloat.S754_zero _ => Finite 0
  | SpecFloat.S754_infinity s => Inf s
  | SpecFloat.S754_nan => NaN
  | SpecFloat.S754_finite s m e =>
      Finite (Qred ((if s then -1 else 1) * inject_Z (Z.pos m) * Qpower 2 e))
  end.

Definition float_of_prim (x : PrimFloat.float) : float :=
  float_of_spec (FloatOps.Prim2SF x).

Definition prim_of_Z (n : Z) : PrimFloat.float := PrimFloat.of_uint63 (Uint63.of_Z n).

Definition float_eqb (a b : float) : bool :=
  match a, b with
  | Finite x, Finite y => Qeq_bool x y
  | Inf s, Inf t => Bool.eqb s t
  | NaN, NaN => true
  | _, _ => false
  end.

Definition Zrange (lo : Z) (n : nat) : list Z := (λ i, lo + Z.of_nat i) <$> seq 0 n.

(** [a / b] on integers, against the hardware division. *)
Definition div_agrees (a b : Z) : bool :=
  match truediv a b with
  | Return r => float_eqb r (float_of_prim (PrimFloat.div (prim_of_Z a) (prim_of_Z b)))
  | Raise _ => false
  end.

(** [a / b] on integers of any size, against the specification's division
    of the exact integers. *)
Definition div_agrees_spec (a b : positive) : bool :=
  match truediv (Z.pos a) (Z.pos b) with
  | Return r =>
      float_eqb r (float_of_spec
                     (SpecFloat.SFdiv 53 1024 (SpecFloat.S754_finite false a 0)
                                      (SpecFloat.S754_finite false b 0)))
  | Raise _ => false
  end.

(** [(n / 65535) * math.pi * 2] and [0.8 + (n / 65535) * 0.6], against the
    hardware operations. *)
Definition prim_pi : PrimFloat.float :=
  PrimFloat.div (prim_of_Z 884279719003555) (prim_of_Z 281474976710656).

Definition helix_agrees (n : Z) : bool :=
  let u := PrimFloat.div (prim_of_Z n) (prim_of_Z 65535) in
  let c (a b : Z) := PrimFloat.div (prim_of_Z a) (prim_of_Z b) in
  match truediv n 65535 with
  | Return r =>
      float_eqb (fmul (fmul r math_pi) (lit 2))
                (float_of_prim (PrimFloat.mul (PrimFloat.mul u prim_pi) (prim_of_Z 2)))
      && float_eqb (fadd (lit (8 # 10)) (fmul r (lit (6 # 10))))
                   (float_of_prim (PrimFloat.add (c 8 10) (PrimFloat.mul u (c 6 10))))
  | Raise _ => false
  end.

(** The trend when the sums [s7] and [s30] of the last seven and thirty
    days are compared as exact fractions: [s7 / 7 > (s30 / 30) * 6 / 5] and
    [s7 / 7 < (s30 / 30) * 4 / 5]. *)
Definition exact_trend (s7 s30 : Z) : Trend :=
  if 7 * s30 <? 25 * s7 then TrendingUp
  else if 75 * s7 <? 14 * s30 then CoolingDown
  else Steady.

Definition Trend_eqb (a b : Trend) : bool :=
  match a, b with
  | TrendingUp, TrendingUp | CoolingDown, CoolingDown | Steady, Steady => true
  | _, _ => false
  end.

Definition trend_agrees (s7 s30 : Z) : bool :=
  match truediv s7 7, truediv s30 30 with
  | Return a7, Return a30 => Trend_eqb (trend_of a7 a30) (exact_trend s7 s30)
  | _, _ => false
  end.

(** * Sample inputs

    Concrete inputs on which the model is run in the examples below. *)

Definition digit_value (c : ascii) : option Z :=
  let n := Z.of_N (N_of_ascii c) in
  if (48 <=? n) && (n <=? 57) then Some (n - 48) else None.

Fixpoint number_of (cs : list ascii) (acc : Z) : option Z :=
  match cs with
  | [] => Some acc
  | c :: cs' =>
      match digit_value c with
      | Some d => number_of cs' (10 * acc + d)
      | None => None
      end
  end.

Definition days_in_month (y m : Z) : Z :=
  if m =? 2 then
    if ((y mod 4 =? 0) && negb (y mod 100 =? 0)) || (y mod 400 =? 0) then 29 else 28
  else if (m =? 4) || (m =? 6) || (m =? 9) || (m =? 11) then 30
  else 31.

(** An instance of [datetime.fromisoformat] that accepts one layout only,
    the one of GitHub's timestamps once [Z] is replaced:
    [YYYY-MM-DDTHH:MM:SS+HH:MM]. Python accepts every string this one
    accepts, with the same date and hour. *)
Definition fromisoformat_github (s : string) : option datetime :=
  match list_ascii_of_string s with
  | [y1; y2; y3; y4; d1; m1; m2; d2; a1; a2; sep;
     h1; h2; c1; n1; n2; c2; s1; s2; sg; z1; z2; c3; z3; z4] =>
      match number_of [y1; y2; y3; y4] 0, number_of [m1; m2] 0, number_of [a1; a2] 0,
            number_of [h1; h2] 0, number_of [n1; n2] 0, number_of [s1; s2] 0,
            number_of [z1; z2] 0, number_of [z3; z4] 0 with
      | Some y, Some m, Some d, Some hh, Some mm, Some ss, Some zh, Some zm =>
          if Ascii.eqb d1 "-" && Ascii.eqb d2 "-" && Ascii.eqb c1 ":"
             && Ascii.eqb c2 ":" && Ascii.eqb c3 ":"
             && (Ascii.eqb sg "+" || Ascii.eqb sg "-")
             && (1 <=? y) && (1 <=? m) && (m <=? 12)
             && (1 <=? d) && (d <=? days_in_month y m)
             && (hh <? 24) && (mm <? 60) && (ss <? 60) && (zh <? 24) && (zm <? 60)
          then Some {| dt_year := y; dt_month := m; dt_day := d;
                       dt_hour := hh; dt_minute := mm; dt_second := ss |}
          else None
      | _, _, _, _, _, _, _, _ => None
      end
  | _ => None
  end.

Definition mk_repo (fork : bool) (name lang : string) (stars size : Z) : Repo :=
  {| repo_fork := Some fork; repo_name := Some name; repo_language := Some lang;
     repo_stargazers_count := Some stars; repo_size := Some size;
     repo_description := None; repo_updated_at := None; repo_created_at := None |}.

Definition mk_event (created type : string) : Event :=
  {| event_created_at := Some created; event_type := Some type |}.

(** Two repositories of the user's own and one fork with stars and bytes. *)
Definition sample_repos : list Repo :=
  [ mk_repo false "api" "Python" 3 120;
    mk_repo true "linux" "C" 9000 4000000;
    mk_repo false "site" "Python" 4 80 ].

Definition sample_languages (name : string) : Response (gmap string Z) :=
  if String.eqb name "api" then HttpResponse 200 {[ "Python" := 100 ]}
  else if String.eqb name "site" then HttpResponse 200 (<[ "Python" := 50 ]> {[ "Go" := 20 ]})
  else if String.eqb name "linux" then HttpResponse 200 {[ "C" := 900000 ]}
  else HttpResponse 404 ∅.

(** Ten events: nine with GitHub timestamps, one that does not parse. *)
Definition sample_events : list Event :=
  [ mk_event "2024-03-01T10:15:00Z" "PushEvent";
    mk_event "2024-03-01T11:00:00Z" "PushEvent";
    mk_event "2024-03-01T23:59:59Z" "WatchEvent";
    mk_event "not a timestamp" "PushEvent";
    mk_event "2024-03-02T10:00:00Z" "CreateEvent";
    mk_event "2024-03-02T10:30:00Z" "PushEvent";
    mk_event "2024-03-03T08:00:00Z" "IssuesEvent";
    mk_event "2024-03-04T08:00:00Z" "PushEvent";
    mk_event "2024-03-05T17:45:10Z" "PushEvent";
    mk_event "2024-03-06T00:00:00Z" "PushEvent" ].

Definition sample_upstream : Upstream :=
  {| up_user := HttpResponse 200 {[ "login" := "octocat" ]};
     up_repos := HttpResponse 200 sample_repos;
     up_languages := sample_languages;
     up_events := HttpResponse 200 sample_events |}.

(** The same run with the events query answered by status 503. *)
Definition sample_upstream_503 : Upstream :=
  {| up_user := HttpResponse 200 {[ "login" := "octocat" ]};
     up_repos := HttpResponse 200 sample_repos;
     up_languages := sample_languages;
     up_events := HttpResponse 503 [] |}.

(** The same run with the profile query timing out. *)
Definition sample_upstream_timeout : Upstream :=
  {| up_user := TransportError;
     up_repos := HttpResponse 200 sample_repos;
     up_languages := sample_languages;
     up_events := HttpResponse 200 sample_events |}.

(** What the aggregator returns on [sample_upstream]. *)
Definition sample_stats : ProfileStats :=
  {| user := {[ "login" := "octocat" ]};
     repos := [ summarize (mk_repo false "api" "Python" 3 120) {[ "Python" := 100 ]};
                summarize (mk_repo false "site" "Python" 4 80)
                          (<[ "Python" := 50 ]> {[ "Go" := 20 ]}) ];
     languages := <[ "Python" := 150 ]> {[ "Go" := 20 ]};
     daily_activity :=
       list_to_map [ ("2024-03-01", 3); ("2024-03-02", 2); ("2024-03-03", 1);
                     ("2024-03-04", 1); ("2024-03-05", 1); ("2024-03-06", 1) ];
     hourly_activity := list_to_map [ (0, 1); (8, 2); (10, 3); (11, 1); (17, 1); (23, 1) ];
     event_types :=
       list_to_map [ ("PushEvent", 7); ("WatchEvent", 1); ("CreateEvent", 1);
                     ("IssuesEvent", 1) ];
     total_repos := 2;
     total_stars := 7 |}.

(** The day keys of the thirty days ending on 2024-03-06 (2024 is a leap
    year, February has 29 days). *)
Definition sample_day_key (i : nat) : string :=
  let i := Z.of_nat i in
  strftime_Ymd
    (if i <? 6
     then {| dt_year := 2024; dt_month := 3; dt_day := 6 - i;
             dt_hour := 0; dt_minute := 0; dt_second := 0 |}
     else {| dt_year := 2024; dt_month := 2; dt_day := 35 - i;
             dt_hour := 0; dt_minute := 0; dt_second := 0 |}).

(** An all-zero history. *)
Definition quiet_day_key (i : nat) : string := str_of_int (Z.of_nat i).

(** The history in which day [i] before today has the [i]-th count of the
    list, under the keys of [quiet_day_key]. *)
Definition history_of (counts : list Z) : gmap string Z :=
  list_to_map (zip (quiet_day_key <$> seq 0 (length counts)) counts).

(** Averages 10 and 8, 6 and 8, 9 and 10 over seven and thirty days. *)
Definition ten_vs_eight : list Z := replicate 7 10 ++ replicate 22 7 ++ [16].
Definition six_vs_eight : list Z := replicate 7 6 ++ replicate 22 9 ++ [0].
Definition nine_vs_ten : list Z := replicate 7 9 ++ replicate 22 10 ++ [17].


(** Counts near [2 ^ 60]: the 30-day average is [2 ^ 60] and the 7-day
    average exceeds 1.2 times it by less than one part in [2 ^ 54]. *)
Definition huge_counts : list Z :=
  replicate 7 1383505805528216372 ++ replicate 22 1082743673891647594
  ++ [1082743673891647608].

(** The forecast for the sample history, on 2024-03-06. *)
Definition sample_forecast : Forecast :=
  Eval vm_compute in
    match generate_code_weather sample_day_key (daily_activity sample_stats) with
    | Return f => f
    | Raise _ => {| today_count := 0; weather := Cloudy; temp := 0; avg_7 := NaN;
                    avg_30 := NaN; trend := Steady; bars := [] |}
    end.

(** * Further notions for the aggregator *)

(** Every query the run issues gets an HTTP response: the user, the
    repository list, the events, and the language breakdown of each
    repository that is not a fork. *)
Definition queries_answered (up : Upstream) : Prop :=
  up_user up ≠ TransportError ∧
  up_repos up ≠ TransportError ∧
  (∀ r, r ∈ included (body_or (up_repos up) []) →
        up_languages up (name_of r) ≠ TransportError) ∧
  up_events up ≠ TransportError.

(** The same upstream with another answer to the repository query. *)
Definition with_repos (up : Upstream) (rs : list Repo) : Upstream :=
  {| up_user := up_user up;
     up_repos := HttpResponse 200 rs;
     up_languages := up_languages up;
     up_events := up_events up |}.

Section events_by_key.

Variable fromisoformat : string → option datetime.

(** The date and time an event is counted under, if any. *)
Definition parsed (event : Event) : option datetime :=
  match default "" (event_created_at event) with
  | EmptyString => None
  | String c rest => fromisoformat (replace_Z (String c rest))
  end.

Definition on_day (day : string) (event : Event) : bool :=
  match parsed event with
  | Some dt => bool_decide (strftime_Ymd dt = day)
  | None => false
  end.

Definition at_hour (hour : Z) (event : Event) : bool :=
  match parsed event with
  | Some dt => bool_decide (dt_hour dt = hour)
  | None => false
  end.

End events_by_key.

(** The sample run with the language query of the fork timing out. *)
Definition sample_upstream_fork_down : Upstream :=
  {| up_user := up_user sample_upstream;
     up_repos := up_repos sample_upstream;
     up_languages := λ name, if String.eqb name "linux" then TransportError
                             else sample_languages name;
     up_events := up_events sample_upstream |}.

(** * Further parts of the renderers

    Where the order of a dict's items matters (ties under [sorted], the
    columns of the Skill Tree), the renderer is given the list of items,
    [languages.items()], instead of the map. *)

Import Binary64.

(** ** Colours *)

Definition LANG_COLORS : gmap string string :=
  list_to_map
    [ ("JavaScript", "#F7DF1E"); ("TypeScript", "#3178C6"); ("Python", "#3776AB");
      ("HTML", "#E34F26"); ("CSS", "#1572B6"); ("Java", "#ED8B00");
      ("C++", "#00599C"); ("C#", "#239120"); ("Go", "#00ADD8");
      ("Rust", "#DEA584"); ("Ruby", "#CC342D"); ("PHP", "#777BB4");
      ("Swift", "#F05138"); ("Kotlin", "#7F52FF"); ("Dart", "#0175C2");
      ("Shell", "#89E051"); ("Vue", "#4FC08D"); ("Svelte", "#FF3E00");
      ("Dockerfile", "#384D54"); ("SCSS", "#C6538C"); ("Lua", "#000080");
      ("R", "#276DC3"); ("Jupyter Notebook", "#F37626"); ("C", "#555555");
      ("Elixir", "#6E4A7E"); ("Haskell", "#5E5086"); ("Scala", "#DC322F");
      ("Perl", "#39457E") ].

Definition DEFAULT_LANG_COLOR : string := "#86868B".

(** [LANG_COLORS.get(lang, DEFAULT_LANG_COLOR)] *)
Definition get_lang_color (lang : string) : string :=
  default DEFAULT_LANG_COLOR (LANG_COLORS !! lang).

(** A colour of the form [#RRGGBB]. *)
Definition is_hex_digit (c : ascii) : bool :=
  let n := Z.of_N (N_of_ascii c) in
  ((48 <=? n) && (n <=? 57)) || ((65 <=? n) && (n <=? 70)) || ((97 <=? n) && (n <=? 102)).

Definition is_hex_colour (s : string) : bool :=
  match s with
  | String c rest =>
      Ascii.eqb c "#" && (String.length rest =? 6)%nat
      && forallb is_hex_digit (list_ascii_of_string rest)
  | EmptyString => false
  end.

(** A digit of [hexdigest]. *)
Definition is_lower_hex (c : ascii) : bool :=
  let n := Z.of_N (N_of_ascii c) in
  ((48 <=? n) && (n <=? 57)) || ((97 <=? n) && (n <=? 102)).

(** ** Lists as Python has them *)

(** [l[k]]: a negative index counts from the end; [None] stands for
    [IndexError]. *)
Definition list_index {A : Type} (l : list A) (k : Z) : option A :=
  let n := Z.of_nat (length l) in
  if (0 <=? k) && (k <? n) then l !! Z.to_nat k
  else if (- n <=? k) && (k <? 0) then l !! Z.to_nat (n + k)
  else None.

(** Larger keys first. *)
Definition desc {A : Type} (key : A → Z) (a b : A) : Prop := key b ≤ key a.

(** [max(a, b)] returns its first argument unless the second is larger. *)
Definition py_max (a b : float) : float := if flt a b then b else a.

(** [a - b] *)
Definition fsub (a b : float) : float :=
  match a, b with
  | NaN, _ | _, NaN => NaN
  | Finite x, Finite y => round (x - y)
  | Inf s, Finite _ => Inf s
  | Finite _, Inf s => Inf (negb s)
  | Inf s, Inf t => if Bool.eqb s t then NaN else Inf s
  end.

(** An [int] in an arithmetic expression with a [float] is converted
    first; the integers below are far under [2 ^ 53], where the conversion
    is exact. *)
Definition of_int (n : Z) : float := lit (inject_Z n).

(** ** Code DNA: what the rungs, the dots and the legend show *)

(** [languages.items()] is the list of the dict's pairs in insertion
    order, with distinct names.
    [sorted_langs = sorted(languages.items(), key=lambda x: x[1], reverse=True)[:8]] *)
Definition dna_sorted_langs (items : list (string * Z)) : list (string * Z) :=
  take 8 (sort_desc snd items).

(** [sorted_langs[lang_idx][0] if sorted_langs else "Other"], with
    [lang_idx = k % len(sorted_langs) if sorted_langs else 0]; [k] is [i]
    for the rung at point [i] and [i // 3] for its dots. *)
Definition language_of_point (sorted_langs : list (string * Z)) (k : Z) : option string :=
  match sorted_langs with
  | [] => Some "Other"
  | _ => fst <$> list_index sorted_langs (k mod Z.of_nat (length sorted_langs))
  end.

(** [x = helix_start_x + t * helix_width], with [t = i / num_points],
    [helix_start_x = 32], [helix_width = 736] and [num_points = 60]. *)
Definition helix_x (i : Z) : result float :=
  t ← truediv i 60;
  Return (fadd (of_int 32) (fmul t (of_int 736))).

(** [sorted(languages.items())] on the list of pairs, and the fingerprint
    of the list. *)
Definition sorted_pairs (items : list (string * Z)) : list (string * Z) :=
  foldr insert_by_name [] items.

(** The order of the pairs by name. *)
Definition by_name (a b : string * Z) : Prop := String.leb a.1 b.1 = true.

Definition data_hash_of_items (items : list (string * Z)) : string :=
  hexdigest (md5 (bytes_of (json_dumps (sorted_pairs items)))).

(** ** Repo Skyline: layout *)

(** [total_buildings_width = num_buildings * building_width + (num_buildings - 1) * gap] *)
Definition total_buildings_width (drawn : list RepoSummary) : result float :=
  let n := Z.of_nat (length drawn) in
  w ← building_width drawn;
  Return (fadd (fmul (of_int n) w) (of_int ((n - 1) * 6))).

(** [start_x = (width - total_buildings_width) / 2], with [width = 800]. *)
Definition start_x (drawn : list RepoSummary) : result float :=
  total ← total_buildings_width drawn;
  Return (fdiv (fsub (of_int 800) total) (of_int 2)).

(** [x = start_x + i * (building_width + gap)] *)
Definition building_x (drawn : list RepoSummary) (i : Z) : result float :=
  w ← building_width drawn;
  x0 ← start_x drawn;
  Return (fadd x0 (fmul (of_int i) (fadd w (of_int 6)))).

(** The layout of [n] buildings, checked by computation: the width is
    between 34 and 36, the first building starts at 40 or further right,
    each building ends before the next one starts, and the last one ends
    at 768 or further left. *)
Definition layout_ok (n : nat) : bool :=
  let drawn := replicate n no_repos in
  match building_width drawn, start_x drawn with
  | Return (Finite w), Return (Finite x0) =>
      Qle_bool 34 w && Qle_bool w 36 && Qle_bool 40 x0
      && forallb (λ i, match building_x drawn (Z.of_nat i),
                             building_x drawn (Z.of_nat i + 1) with
                       | Return (Finite x), Return (Finite x') =>
                           Qle_bool 40 x && Qle_bool (x + w) 768
                           && negb (Qle_bool x' (x + w))
                       | _, _ => false
                       end) (seq 0 n)
  | _, _ => false
  end.

(** ** Skill Tree: columns and bars *)

(** [col_width = (width - 64) / max(num_cats, 1)] *)
Definition col_width (num_cats : Z) : result float := truediv (800 - 64) (Z.max num_cats 1).

(** [full_bar_width = col_width - 80] and
    [xp_width = max(12, pct * (col_width - 80))] *)
Definition full_bar_width (cw : float) : float := fsub cw (of_int 80).
Definition xp_width (pct cw : float) : float :=
  py_max (of_int 12) (fmul pct (fsub cw (of_int 80))).

(** [display_name = lang[:12] + ".." if len(lang) > 14 else lang] *)
Definition display_name (lang : string) : string :=
  if (14 <? String.length lang)%nat then (substring 0 12 lang ++ "..")%string else lang.

(** ** Code Weather: the forecast strip *)

Definition day_names : list string := ["Sun"; "Mon"; "Tue"; "Wed"; "Thu"; "Fri"; "Sat"].

(** [day_names[day.weekday()] if day.weekday() < 7 else "?"], for the
    number [weekday] that [day.weekday()] returns. *)
Definition day_name (weekday : Z) : option string :=
  if weekday <? 7 then list_index day_names weekday else Some "?".

(** [date.weekday()] of the Python library, as [datetime.py] computes it:
    Monday is 0 and Sunday is 6, the ordinal of 0001-01-01, a Monday,
    being 1. *)
Definition is_leap (y : Z) : bool :=
  (y mod 4 =? 0) && (negb (y mod 100 =? 0) || (y mod 400 =? 0)).

Definition days_before_year (y : Z) : Z :=
  let y' := y - 1 in y' * 365 + y' / 4 - y' / 100 + y' / 400.

Definition days_before_month (y m : Z) : Z :=
  nth (Z.to_nat m) [0; 0; 31; 59; 90; 120; 151; 181; 212; 243; 273; 304; 334] 0
  + (if (2 <? m) && is_leap y then 1 else 0).

Definition toordinal (y m d : Z) : Z := days_before_year y + days_before_month y m + d.

Definition weekday (y m d : Z) : Z := (toordinal y m d + 6) mod 7.

(** The English abbreviations in the numbering of [weekday]. *)
Definition weekday_names : list string := ["Mon"; "Tue"; "Wed"; "Thu"; "Fri"; "Sat"; "Sun"].

(** ** Reading back the text that is hashed *)

(** The first character of a JSON string body and the rest, undoing
    [json_char]. *)
Definition json_unchar (s : string) : option (ascii * string) :=
  match s with
  | EmptyString => None
  | String c rest =>
      if Ascii.eqb c backslash then
        match rest with
        | String x rest' =>
            if Ascii.eqb x quote then Some (quote, rest')
            else if Ascii.eqb x backslash then Some (backslash, rest')
            else if Ascii.eqb x "n" then Some (ascii_of_N 10, rest')
            else if Ascii.eqb x "r" then Some (ascii_of_N 13, rest')
            else if Ascii.eqb x "t" then Some (ascii_of_N 9, rest')
            else if Ascii.eqb x "f" then Some (ascii_of_N 12, rest')
            else if Ascii.eqb x "b" then Some (ascii_of_N 8, rest')
            else
              match rest' with
              | String _ (String _ (String h (String l rest''))) =>
                  Some (ascii_of_N (Z.to_N (16 * hex_value h + hex_value l)), rest'')
              | _ => None
              end
        | EmptyString => None
        end
      else Some (c, rest)
  end.

(** The number a string of decimal digits denotes. *)
Definition is_digit (c : ascii) : bool :=
  let n := Z.of_N (N_of_ascii c) in (48 <=? n) && (n <=? 57).

Definition decimal_value (s : string) : Z :=
  foldl (λ acc c, 10 * acc + (Z.of_N (N_of_ascii c) - 48)) 0 (list_ascii_of_string s).

(** * Lemmas on the monad and the counters *)

Lemma bind_Return {A B} (c : result A) (k : A → result B) (b : B) :
  c ≫= k = Return b ↔ ∃ a, c = Return a ∧ k a = Return b.
Proof.
  destruct c as [a|e]; simpl; split.
  - intros Hk. exists a. auto.
  - intros (a' & [= <-] & Hk). exact Hk.
  - discriminate.
  - intros (a' & Hc & _). discriminate.
Qed.

Lemma bind_Return_l {A B} (a : A) (k : A → result B) : Return a ≫= k = k a.
Proof. reflexivity. Qed.

Lemma Return_inj {A} (a b : A) : Return a = Return b → a = b.
Proof. intros Heq. injection Heq. auto. Qed.

Section counters_props.
Context {K : Type} `{Countable K}.
Implicit Types (d : gmap K Z) (k : K) (v : Z).

Lemma get0_empty k : get0 (∅ : gmap K Z) k = 0.
Proof. unfold get0. by rewrite lookup_empty. Qed.

Lemma get0_incr k v d k' :
  get0 (incr k v d) k' = if decide (k = k') then get0 d k' + v else get0 d k'.
Proof.
  unfold incr, get0 at 1. rewrite lookup_insert.
  case_decide; subst; simpl; reflexivity.
Qed.

Lemma get0_bounded (lo hi : Z) d k :
  lo ≤ 0 ≤ hi → map_Forall (λ _ v, lo ≤ v ≤ hi) d → lo ≤ get0 d k ≤ hi.
Proof.
  intros H0 Hd. unfold get0. destruct (d !! k) as [v|] eqn:Hk; simpl; [|exact H0].
  exact (Hd k v Hk).
Qed.

Lemma total_empty : total (∅ : gmap K Z) = 0.
Proof. unfold total. by rewrite map_fold_empty. Qed.

Lemma total_insert_fresh k v (d : gmap K Z) :
  d !! k = None → total (<[k := v]> d) = v + total d.
Proof.
  intros Hk. unfold total.
  rewrite map_fold_insert_L; [reflexivity | intros; lia | exact Hk].
Qed.

Lemma total_insert k v (d : gmap K Z) :
  total (<[k := v]> d) = v + total d - get0 d k.
Proof.
  unfold get0. destruct (d !! k) as [old|] eqn:Hk; simpl.
  - rewrite <- (insert_delete_eq d k v).
    rewrite <- (insert_delete_id d k old Hk) at 2.
    rewrite !total_insert_fresh by apply lookup_delete_eq. lia.
  - rewrite total_insert_fresh by exact Hk. lia.
Qed.

Lemma total_incr k v d : total (incr k v d) = total d + v.
Proof. unfold incr. rewrite total_insert. lia. Qed.

End counters_props.

(** * Properties of rounding *)

Section binary64_props.
Import Binary64.
Local Open Scope Q_scope.

Lemma pow2_pos e : 0 < pow2 e.
Proof. apply Qpower_0_lt. reflexivity. Qed.

Lemma pow2_succ e : pow2 (e + 1) == 2 * pow2 e.
Proof. unfold pow2. rewrite Qpower_plus by discriminate. simpl. ring. Qed.

Lemma pow2_add a b : pow2 (a + b) == pow2 a * pow2 b.
Proof. unfold pow2. apply Qpower_plus. discriminate. Qed.

Lemma pow2_le a b : (a <= b)%Z -> pow2 a <= pow2 b.
Proof. intros. apply Qpower_le_compat_l; [assumption | discriminate]. Qed.

Lemma pow2_lt a b : (a < b)%Z -> pow2 a < pow2 b.
Proof. intros. apply Qpower_lt_compat_l; [assumption | reflexivity]. Qed.

Lemma pow2_lt_inv a b : pow2 a < pow2 b -> (a < b)%Z.
Proof. intros. eapply Qpower_lt_compat_l_inv; [eassumption | reflexivity]. Qed.

Lemma pow2_inject (n : Z) : (0 <= n)%Z -> pow2 n == inject_Z (2 ^ n).
Proof. intros. unfold pow2. rewrite Zpower_Qpower by assumption. reflexivity. Qed.

Lemma rne_bounds x : (Qfloor x <= rne x <= Qfloor x + 1)%Z.
Proof.
  unfold rne. destruct (Qcompare _ _); [destruct (Z.even _)| |]; lia.
Qed.

Lemma rne_mono x y : x <= y -> (rne x <= rne y)%Z.
Proof.
  intros Hxy. pose proof (Qfloor_resp_le _ _ Hxy) as Hf.
  pose proof (rne_bounds x) as Hx. pose proof (rne_bounds y) as Hy.
  destruct (Z.eq_dec (Qfloor x) (Qfloor y)) as [Heq|Hne]; [|lia].
  unfold rne in *. rewrite <- Heq in *.
  destruct (Qcompare_spec (x - inject_Z (Qfloor x)) (1#2)) as [Hx1|Hx1|Hx1];
  destruct (Qcompare_spec (y - inject_Z (Qfloor x)) (1#2)) as [Hy1|Hy1|Hy1];
    try destruct (Z.even (Qfloor x)); try lia; exfalso; lra.
Qed.

Lemma rne_int (k : Z) : rne (inject_Z k) = k.
Proof.
  unfold rne. rewrite Qfloor_Z.
  destruct (Qcompare_spec (inject_Z k - inject_Z k) (1#2)) as [H|H|H]; try lra. reflexivity.
Qed.

Lemma rne_proper x y : x == y -> rne x = rne y.
Proof.
  intros H. unfold rne. rewrite (Qfloor_comp _ _ H).
  assert (Hc : x - inject_Z (Qfloor y) == y - inject_Z (Qfloor y)) by (rewrite H; reflexivity).
  rewrite (Qcompare_comp _ _ Hc _ _ (Qeq_refl _)). reflexivity.
Qed.

Lemma Qdiv_le_cross a b c d : 0 < b -> 0 < d -> (a / b <= c / d <-> a * d <= c * b).
Proof.
  intros Hb Hd. split; intros H.
  - apply (Qmult_le_r _ _ (/ b * / d)).
    + apply Qmult_lt_0_compat; apply Qinv_lt_0_compat; assumption.
    + assert (E1 : a * d * (/ b * / d) == a / b) by (field; split; lra).
      assert (E2 : c * b * (/ b * / d) == c / d) by (field; split; lra).
      rewrite E1, E2. exact H.
  - apply (Qmult_le_r _ _ (b * d)).
    + apply Qmult_lt_0_compat; assumption.
    + assert (E1 : a / b * (b * d) == a * d) by (field; lra).
      assert (E2 : c / d * (b * d) == c * b) by (field; lra).
      rewrite E1, E2. exact H.
Qed.

Lemma Qdiv_lt_cross a b c d : 0 < b -> 0 < d -> (a / b < c / d <-> a * d < c * b).
Proof.
  intros Hb Hd. split; intros H.
  - apply (Qmult_lt_r _ _ (/ b * / d)).
    + apply Qmult_lt_0_compat; apply Qinv_lt_0_compat; assumption.
    + assert (E1 : a * d * (/ b * / d) == a / b) by (field; split; lra).
      assert (E2 : c * b * (/ b * / d) == c / d) by (field; split; lra).
      rewrite E1, E2. exact H.
  - apply (Qmult_lt_r _ _ (b * d)).
    + apply Qmult_lt_0_compat; assumption.
    + assert (E1 : a / b * (b * d) == a * d) by (field; lra).
      assert (E2 : c / d * (b * d) == c * b) by (field; lra).
      rewrite E1, E2. exact H.
Qed.

Lemma pow2_sub a b : pow2 (a - b) == pow2 a / pow2 b.
Proof.
  unfold pow2, Z.sub. rewrite Qpower_plus by discriminate.
  rewrite Qpower_opp. reflexivity.
Qed.

Lemma pow2_log2 (n : Z) : (0 < n)%Z ->
  pow2 (Z.log2 n) <= inject_Z n /\ inject_Z n < 2 * pow2 (Z.log2 n).
Proof.
  intros Hn. destruct (Z.log2_spec n Hn) as [Hlo Hhi].
  rewrite pow2_inject by apply Z.log2_nonneg.
  split.
  - rewrite <- Zle_Qle. exact Hlo.
  - rewrite Z.pow_succ_r in Hhi by apply Z.log2_nonneg.
    change 2 with (inject_Z 2). rewrite <- inject_Z_mult, <- Zlt_Qlt. exact Hhi.
Qed.

Lemma ilog2_spec x : 0 < x -> pow2 (ilog2 x) <= x /\ x < pow2 (ilog2 x + 1).
Proof.
  intros Hx. destruct x as [n d]. 
  assert (Hn : (0 < n)%Z).
  { unfold Qlt in Hx. simpl in Hx. lia. }
  unfold ilog2. simpl Qnum. simpl Qden.
  set (t := (Z.log2 n - Z.log2 (Z.pos d))%Z).
  destruct (pow2_log2 n Hn) as [Hn1 Hn2].
  destruct (pow2_log2 (Z.pos d) eq_refl) as [Hd1 Hd2].
  pose proof (pow2_pos (Z.log2 n)) as HA. pose proof (pow2_pos (Z.log2 (Z.pos d))) as HB.
  assert (HD : 0 < inject_Z (Z.pos d)) by reflexivity.
  assert (Ex : n # d == inject_Z n / inject_Z (Z.pos d)) by apply Qmake_Qdiv.
  assert (Et : pow2 t == pow2 (Z.log2 n) / pow2 (Z.log2 (Z.pos d))) by apply pow2_sub.
  destruct (Qle_bool (pow2 t) (n # d)) eqn:Hb.
  - split; [apply Qle_bool_iff; exact Hb|].
    rewrite pow2_succ, Et, Ex.
    assert (E2 : 2 * (pow2 (Z.log2 n) / pow2 (Z.log2 (Z.pos d)))
                 == (2 * pow2 (Z.log2 n)) / pow2 (Z.log2 (Z.pos d))) by (field; lra).
    rewrite E2. apply Qdiv_lt_cross; [assumption..|]. nra.
  - assert (Hlt : n # d < pow2 t).
    { apply Qnot_le_lt. intros Hle. apply Qle_bool_iff in Hle. congruence. }
    replace (t - 1 + 1)%Z with t by lia. split; [|exact Hlt].
    assert (E1 : pow2 (t - 1) == pow2 (Z.log2 n) / (2 * pow2 (Z.log2 (Z.pos d)))).
    { rewrite pow2_sub, Et. change (pow2 1) with 2. field. lra. }
    rewrite E1, Ex. apply Qdiv_le_cross; [lra | assumption |]. nra.
Qed.

Lemma ilog2_unique x l : pow2 l <= x -> x < pow2 (l + 1) -> ilog2 x = l.
Proof.
  intros Hlo Hhi.
  assert (Hx : 0 < x) by (pose proof (pow2_pos l); lra).
  destruct (ilog2_spec x Hx) as [Hlo' Hhi'].
  assert (H1 : (l < ilog2 x + 1)%Z) by (apply pow2_lt_inv; lra).
  assert (H2 : (ilog2 x < l + 1)%Z) by (apply pow2_lt_inv; lra).
  lia.
Qed.

Lemma ilog2_mono x y : 0 < x -> x <= y -> (ilog2 x <= ilog2 y)%Z.
Proof.
  intros Hx Hxy.
  destruct (ilog2_spec x Hx) as [Hlo _].
  destruct (ilog2_spec y) as [_ Hhi]; [lra|].
  assert (H1 : (ilog2 x < ilog2 y + 1)%Z) by (apply pow2_lt_inv; lra).
  lia.
Qed.

Lemma ilog2_proper x y : 0 < x -> x == y -> ilog2 x = ilog2 y.
Proof.
  intros Hx Hxy. symmetry. destruct (ilog2_spec x Hx) as [Hlo Hhi].
  apply ilog2_unique; rewrite <- Hxy; assumption.
Qed.

Lemma exponent_mono x y : 0 < x -> x <= y -> (exponent x <= exponent y)%Z.
Proof. intros Hx Hxy. unfold exponent. pose proof (ilog2_mono x y Hx Hxy). lia. Qed.

(** The scaled significand lies below [2^53], and is at least [2^52] for a
    number in the normal range. *)
Lemma scaled_lt x : 0 < x -> x / pow2 (exponent x) < inject_Z (2 ^ 53).
Proof.
  intros Hx. destruct (ilog2_spec x Hx) as [_ Hhi].
  pose proof (pow2_pos (exponent x)) as Hp.
  apply Qlt_shift_div_r; [exact Hp|].
  assert (Hle : pow2 (ilog2 x - 52) <= pow2 (exponent x)) by (apply pow2_le; unfold exponent; lia).
  assert (E : pow2 (ilog2 x + 1) == inject_Z (2 ^ 53) * pow2 (ilog2 x - 52)).
  { replace (ilog2 x + 1)%Z with (53 + (ilog2 x - 52))%Z by lia.
    rewrite pow2_add. reflexivity. }
  rewrite E in Hhi.
  assert (H53 : 0 < inject_Z (2 ^ 53)) by reflexivity.
  nra.
Qed.

Lemma scaled_ge x : 0 < x -> (-1074 <= ilog2 x - 52)%Z ->
  inject_Z (2 ^ 52) <= x / pow2 (exponent x).
Proof.
  intros Hx Hn. destruct (ilog2_spec x Hx) as [Hlo _].
  pose proof (pow2_pos (exponent x)) as Hp.
  apply Qle_shift_div_l; [exact Hp|].
  replace (exponent x) with (ilog2 x - 52)%Z by (unfold exponent; lia).
  assert (E : pow2 (ilog2 x) == inject_Z (2 ^ 52) * pow2 (ilog2 x - 52)).
  { replace (ilog2 x) with (52 + (ilog2 x - 52))%Z at 1 by lia.
    rewrite pow2_add. reflexivity. }
  rewrite <- E. exact Hlo.
Qed.

Lemma rne_le_int x (k : Z) : x <= inject_Z k -> (rne x <= k)%Z.
Proof. intros H. rewrite <- (rne_int k). apply rne_mono. exact H. Qed.

Lemma rne_ge_int x (k : Z) : inject_Z k <= x -> (k <= rne x)%Z.
Proof. intros H. rewrite <- (rne_int k). apply rne_mono. exact H. Qed.

Lemma round_pos_nonneg x : 0 < x -> 0 <= round_pos x.
Proof.
  intros Hx. unfold round_pos. pose proof (pow2_pos (exponent x)) as Hp.
  apply Qmult_le_0_compat; [|lra].
  change 0 with (inject_Z 0). rewrite <- Zle_Qle. apply rne_ge_int.
  apply Qle_shift_div_l; [exact Hp|]. change (inject_Z 0) with 0. lra.
Qed.

Lemma round_pos_mono x y : 0 < x -> x <= y -> round_pos x <= round_pos y.
Proof.
  intros Hx Hxy. assert (Hy : 0 < y) by lra.
  pose proof (exponent_mono x y Hx Hxy) as He.
  pose proof (pow2_pos (exponent x)) as Hpx.
  pose proof (pow2_pos (exponent y)) as Hpy.
  unfold round_pos.
  destruct (Z.eq_dec (exponent x) (exponent y)) as [Heq|Hne].
  - rewrite Heq in *. apply Qmult_le_compat_r; [|lra].
    rewrite <- Zle_Qle. apply rne_mono.
    apply Qmult_le_compat_r; [exact Hxy|].
    apply Qlt_le_weak, Qinv_lt_0_compat. exact Hpy.
  - assert (Hlt : (exponent x + 1 <= exponent y)%Z) by lia.
    assert (Hny : (-1074 <= ilog2 y - 52)%Z) by (unfold exponent in *; lia).
    pose proof (scaled_ge y Hy Hny) as Hy52.
    pose proof (scaled_lt x Hx) as Hx53.
    apply rne_ge_int in Hy52. apply Qlt_le_weak, rne_le_int in Hx53.
    rewrite Zle_Qle in Hy52, Hx53.
    pose proof (pow2_le _ _ Hlt) as Hpp. rewrite pow2_succ in Hpp.
    assert (H52 : inject_Z (2 ^ 53) == 2 * inject_Z (2 ^ 52)) by reflexivity.
    assert (H0 : 0 < inject_Z (2 ^ 52)) by reflexivity.
    set (mx := inject_Z (rne (x / pow2 (exponent x)))) in *.
    set (my := inject_Z (rne (y / pow2 (exponent y)))) in *.
    apply Qle_trans with (inject_Z (2 ^ 53) * pow2 (exponent x)).
    + apply Qmult_le_compat_r; [exact Hx53 | lra].
    + apply Qle_trans with (inject_Z (2 ^ 52) * pow2 (exponent y)).
      * rewrite H52. nra.
      * apply Qmult_le_compat_r; [exact Hy52 | lra].
Qed.

Lemma round_pos_proper x y : 0 < x -> x == y -> round_pos x == round_pos y.
Proof.
  intros Hx Hxy. unfold round_pos, exponent.
  rewrite <- (ilog2_proper x y Hx Hxy).
  assert (E : x / pow2 (Z.max (ilog2 x - 52) (-1074)) == y / pow2 (Z.max (ilog2 x - 52) (-1074)))
    by (apply Qdiv_comp; [exact Hxy | reflexivity]).
  rewrite (rne_proper _ _ E). reflexivity.
Qed.

Lemma fl_eq x : fl x == match Qcompare x 0 with
                        | Gt => round_pos x
                        | Lt => - round_pos (- x)
                        | Eq => 0
                        end.
Proof. unfold fl. apply Qred_correct. Qed.

Lemma fl_pos x : 0 < x -> fl x == round_pos x.
Proof.
  intros Hx. rewrite fl_eq.
  destruct (Qcompare_spec x 0) as [H|H|H]; lra.
Qed.

Lemma fl_neg x : x < 0 -> fl x == - round_pos (- x).
Proof.
  intros Hx. rewrite fl_eq.
  destruct (Qcompare_spec x 0) as [H|H|H]; lra.
Qed.

Lemma fl_zero x : x == 0 -> fl x == 0.
Proof.
  intros Hx. rewrite fl_eq.
  destruct (Qcompare_spec x 0) as [H|H|H]; lra.
Qed.

(** Rounding is monotone. *)
Theorem fl_mono x y : x <= y -> fl x <= fl y.
Proof.
  intros Hxy.
  destruct (Qlt_le_dec 0 x) as [Hx|Hx].
  - rewrite (fl_pos x), (fl_pos y) by lra. apply round_pos_mono; assumption.
  - destruct (Qlt_le_dec 0 y) as [Hy|Hy].
    + rewrite (fl_pos y) by assumption.
      pose proof (round_pos_nonneg y Hy).
      destruct (Qlt_le_dec x 0) as [Hx'|Hx'].
      * rewrite (fl_neg x) by assumption.
        pose proof (round_pos_nonneg (- x)). lra.
      * rewrite (fl_zero x) by lra. assumption.
    + destruct (Qlt_le_dec y 0) as [Hy'|Hy'].
      * rewrite (fl_neg x), (fl_neg y) by lra.
        pose proof (round_pos_mono (- y) (- x)). lra.
      * rewrite (fl_zero y) by lra.
        destruct (Qlt_le_dec x 0) as [Hx'|Hx'].
        -- rewrite (fl_neg x) by assumption.
           pose proof (round_pos_nonneg (- x)). lra.
        -- rewrite (fl_zero x) by lra. lra.
Qed.

(** Rounding depends on the value only, and returns a reduced fraction. *)
Theorem fl_proper x y : x == y -> fl x = fl y.
Proof.
  intros Hxy. unfold fl. apply Qred_complete.
  rewrite (Qcompare_comp _ _ Hxy _ _ (Qeq_refl 0)).
  destruct (Qcompare_spec y 0) as [H|H|H].
  - reflexivity.
  - apply Qopp_comp. apply round_pos_proper; [lra|]. rewrite Hxy. reflexivity.
  - apply round_pos_proper; [lra | exact Hxy].
Qed.

(** ** Order *)

Lemma flt_Finite x y : flt (Finite x) (Finite y) = true <-> x < y.
Proof.
  simpl. rewrite Bool.negb_true_iff. split.
  - intros Hb. apply Qnot_le_lt. intros Hle. apply Qle_bool_iff in Hle. congruence.
  - intros Hlt. destruct (Qle_bool y x) eqn:Hb; [|reflexivity].
    apply Qle_bool_iff in Hb. lra.
Qed.

Lemma fle_Finite x y : fle (Finite x) (Finite y) = true <-> x <= y.
Proof. simpl. apply Qle_bool_iff. Qed.

Lemma Qle_bool_false x y : Qle_bool x y = false <-> y < x.
Proof.
  split.
  - intros Hb. apply Qnot_le_lt. intros Hle. apply Qle_bool_iff in Hle. congruence.
  - intros Hlt. destruct (Qle_bool x y) eqn:Hb; [|reflexivity].
    apply Qle_bool_iff in Hb. lra.
Qed.


Lemma flt_asym a b : flt a b = true -> flt b a = false.
Proof.
  destruct a as [x|[]|], b as [y|[]|]; simpl;
    try discriminate; try reflexivity; try tauto.
  rewrite Bool.negb_true_iff, Bool.negb_false_iff, Qle_bool_false, Qle_bool_iff. lra.
Qed.

Lemma fle_flt_trans a b c : fle a b = true -> flt b c = true -> flt a c = true.
Proof.
  destruct a as [x|[]|], b as [y|[]|], c as [z|[]|]; simpl;
    try discriminate; try reflexivity; try tauto.
  rewrite !Bool.negb_true_iff, !Qle_bool_false, Qle_bool_iff. lra.
Qed.

Lemma fle_not_flt a b : fle a b = true -> flt b a = false.
Proof.
  destruct a as [x|[]|], b as [y|[]|]; simpl;
    try discriminate; try reflexivity; try tauto.
  intros Hle. rewrite Hle. reflexivity.
Qed.

Lemma fle_trans a b c : fle a b = true -> fle b c = true -> fle a c = true.
Proof.
  destruct a as [x|[]|], b as [y|[]|], c as [z|[]|]; simpl;
    try discriminate; try reflexivity; try tauto.
  rewrite !Qle_bool_iff. lra.
Qed.

(** A float between two finite floats is finite. *)
Lemma fle_between lo hi r :
  fle (Finite lo) r = true -> fle r (Finite hi) = true ->
  exists q, r = Finite q /\ lo <= q /\ q <= hi.
Proof.
  destruct r as [q|[]|]; simpl; try discriminate.
  rewrite !Qle_bool_iff. eauto.
Qed.

(** [a <= b] fails exactly when [b < a], NaN apart. *)
Lemma fle_flt_Finite x y : fle (Finite x) (Finite y) = negb (flt (Finite y) (Finite x)).
Proof. simpl. rewrite Bool.negb_involutive. reflexivity. Qed.

Lemma overflow_mono x y : x <= y -> fle (overflow x) (overflow y) = true.
Proof.
  intros Hxy. unfold overflow. pose proof (pow2_pos 1024) as Hp.
  destruct (Qle_bool (pow2 1024) x) eqn:Hx1.
  - apply Qle_bool_iff in Hx1.
    assert (Hy1 : Qle_bool (pow2 1024) y = true) by (apply Qle_bool_iff; lra).
    rewrite Hy1. reflexivity.
  - apply Qle_bool_false in Hx1.
    destruct (Qle_bool x (- pow2 1024)) eqn:Hx2.
    + destruct (Qle_bool (pow2 1024) y); [reflexivity|].
      destruct (Qle_bool y (- pow2 1024)); reflexivity.
    + apply Qle_bool_false in Hx2.
      destruct (Qle_bool (pow2 1024) y); [reflexivity|].
      destruct (Qle_bool y (- pow2 1024)) eqn:Hy2.
      * apply Qle_bool_iff in Hy2. lra.
      * simpl. apply Qle_bool_iff. exact Hxy.
Qed.

(** Every operation is monotone in its exact result. *)
Theorem round_mono x y : x <= y -> fle (round x) (round y) = true.
Proof. intros Hxy. apply overflow_mono, fl_mono, Hxy. Qed.

(** The exact result [x] between two exact results that round to finite
    floats rounds to a finite float between them. *)
Lemma round_between lo hi x clo chi :
  round lo = Finite clo -> round hi = Finite chi -> lo <= x -> x <= hi ->
  exists q, round x = Finite q /\ clo <= q /\ q <= chi.
Proof.
  intros Hlo Hhi Hx1 Hx2. apply fle_between.
  - rewrite <- Hlo. apply round_mono, Hx1.
  - rewrite <- Hhi. apply round_mono, Hx2.
Qed.

Theorem round_proper x y : x == y -> round x = round y.
Proof. intros Hxy. unfold round. rewrite (fl_proper x y Hxy). reflexivity. Qed.

Lemma fmul_Finite x y : fmul (Finite x) (Finite y) = round (x * y).
Proof. reflexivity. Qed.

Lemma fadd_Finite x y : fadd (Finite x) (Finite y) = round (x + y).
Proof. reflexivity. Qed.

Lemma round_0 : round 0 = Finite 0.
Proof. vm_compute. reflexivity. Qed.

Lemma round_1 : round 1 = Finite 1.
Proof. vm_compute. reflexivity. Qed.







End binary64_props.

(** From here on rounding is computed by [vm_compute] only. *)
#[global] Opaque Binary64.fl Binary64.pow2 Binary64.overflow Binary64.round.

(** * Properties of the aggregator *)

Lemma github_api_Return {A} (resp : Response A) (x : option A) (d : A) :
  github_api resp = Return x → or_else x d = body_or resp d.
Proof.
  destruct resp as [|code json]; simpl; [discriminate|].
  destruct (code =? 200); intros [= <-]; reflexivity.
Qed.

Lemma github_api_total {A} (resp : Response A) :
  resp ≠ TransportError → ∃ x, github_api resp = Return x.
Proof.
  destruct resp as [|code json]; [congruence|]. intros _. simpl.
  destruct (code =? 200); eauto.
Qed.

Lemma merge_languages_get0 langs lang_totals l :
  get0 (merge_languages langs lang_totals) l = get0 lang_totals l + get0 langs l.
Proof.
  unfold merge_languages.
  apply (map_fold_weak_ind
           (λ acc (m : gmap string Z), get0 acc l = get0 lang_totals l + get0 m l)).
  - rewrite get0_empty. lia.
  - intros i x m acc Hi IH. rewrite get0_incr, IH.
    assert (Hm : get0 (<[i:=x]> m) l = if decide (i = l) then x else get0 m l).
    { unfold get0. rewrite lookup_insert. by case_decide. }
    rewrite Hm. case_decide as Hil; [|reflexivity].
    subst i. unfold get0 at 2. rewrite Hi. simpl. lia.
Qed.

Lemma merge_languages_total langs lang_totals :
  total (merge_languages langs lang_totals) = total lang_totals + total langs.
Proof.
  unfold merge_languages.
  apply (map_fold_weak_ind
           (λ acc (m : gmap string Z), total acc = total lang_totals + total m)).
  - rewrite total_empty. lia.
  - intros i x m acc Hi IH.
    rewrite total_incr, IH, total_insert_fresh by exact Hi. lia.
Qed.

(** The loop visits the non-fork repositories only, in order; each one adds
    its breakdown to [lang_totals] and one summary to [repo_data]. *)
Lemma repo_loop_Return up rest : ∀ lang_totals repo_data lt' rd',
  repo_loop up rest lang_totals repo_data = Return (lt', rd') →
  rd' = repo_data ++ map (λ r, summarize r (languages_of up r)) (included rest) ∧
  lt' = foldl (λ acc r, merge_languages (languages_of up r) acc)
              lang_totals (included rest).
Proof.
  induction rest as [|repo rest IH]; intros lt rd lt' rd'; simpl.
  - intros [= <- <-]. by rewrite app_nil_r.
  - destruct (truthy (repo_fork repo)); simpl; [apply IH|].
    intros Hloop. apply bind_Return in Hloop as (x & Hx & Hloop).
    apply IH in Hloop as [-> ->].
    rewrite (github_api_Return _ _ _ Hx). fold (languages_of up repo).
    by rewrite <- app_assoc.
Qed.

Lemma repo_loop_forks up rest : ∀ lang_totals repo_data,
  repo_loop up (included rest) lang_totals repo_data
  = repo_loop up rest lang_totals repo_data.
Proof.
  induction rest as [|repo rest IH]; intros lt rd; simpl; [reflexivity|].
  destruct (truthy (repo_fork repo)) eqn:Hfork; simpl; [apply IH|].
  rewrite Hfork.
  destruct (github_api (up_languages up (name_of repo))); simpl; [apply IH | reflexivity].
Qed.

Lemma repo_loop_ext up up' rest : ∀ lang_totals repo_data,
  up_languages up = up_languages up' →
  repo_loop up rest lang_totals repo_data = repo_loop up' rest lang_totals repo_data.
Proof.
  intros lt rd Heq. revert lt rd.
  induction rest as [|repo rest IH]; intros lt rd; simpl; [reflexivity|].
  destruct (truthy (repo_fork repo)); [apply IH|].
  rewrite Heq. destruct (github_api _); simpl; [apply IH | reflexivity].
Qed.

Lemma foldl_merge_get0 up rs l : ∀ acc,
  get0 (foldl (λ acc r, merge_languages (languages_of up r) acc) acc rs) l
  = get0 acc l + sum_Z (map (λ r, get0 (languages_of up r) l) rs).
Proof.
  induction rs as [|r rs IH]; intros acc; simpl; [lia|].
  rewrite IH, merge_languages_get0. lia.
Qed.

Lemma foldl_merge_total up rs : ∀ acc,
  total (foldl (λ acc r, merge_languages (languages_of up r) acc) acc rs)
  = total acc + sum_Z (map (λ r, total (languages_of up r)) rs).
Proof.
  induction rs as [|r rs IH]; intros acc; simpl; [lia|].
  rewrite IH, merge_languages_total. lia.
Qed.

Section aggregator_props.

Variable fromisoformat : string → option datetime.

(** What [fetch_user_data] returns, when it returns: each field in terms
    of the upstream responses. *)
Lemma fetch_user_data_Return up d :
  fetch_user_data fromisoformat up = Return d →
  let rs := included (body_or (up_repos up) []) in
  let act := event_loop fromisoformat (body_or (up_events up) []) in
  user d = body_or (up_user up) ∅ ∧
  repos d = map (λ r, summarize r (languages_of up r)) rs ∧
  languages d = foldl (λ acc r, merge_languages (languages_of up r) acc) ∅ rs ∧
  daily_activity d = act_daily act ∧
  hourly_activity d = act_hourly act ∧
  event_types d = act_types act ∧
  total_repos d = Z.of_nat (length (repos d)) ∧
  total_stars d = sum_Z (rs_stars <$> repos d).
Proof.
  unfold fetch_user_data. intros Hret.
  apply bind_Return in Hret as (user_opt & Huser & Hret).
  apply bind_Return in Hret as (repos_opt & Hrepos & Hret).
  apply bind_Return in Hret as ([lt rd] & Hloop & Hret).
  apply bind_Return in Hret as (events_opt & Hevents & Hret).
  injection Hret as <-. simpl.
  rewrite (github_api_Return _ _ _ Hrepos) in Hloop.
  apply repo_loop_Return in Hloop as [-> ->].
  rewrite (github_api_Return _ _ _ Huser), (github_api_Return _ _ _ Hevents).
  repeat split; reflexivity.
Qed.

(** Without a transport error every query of the repository loop returns. *)
Lemma repo_loop_total up rest : ∀ lang_totals repo_data,
  (∀ name, up_languages up name ≠ TransportError) →
  repo_loop up rest lang_totals repo_data
  = Return (foldl (λ acc r, merge_languages (languages_of up r) acc)
                  lang_totals (included rest),
            repo_data ++ map (λ r, summarize r (languages_of up r)) (included rest)).
Proof.
  intros lt rd Hup. revert lt rd.
  induction rest as [|repo rest IH]; intros lt rd; simpl.
  - by rewrite app_nil_r.
  - destruct (truthy (repo_fork repo)); simpl; [apply IH|].
    destruct (github_api_total _ (Hup (name_of repo))) as [x Hx].
    rewrite Hx. simpl. rewrite IH, (github_api_Return _ _ _ Hx).
    fold (languages_of up repo). by rewrite <- app_assoc.
Qed.

Lemma languages_of_degraded up r : languages_of (degraded up) r = languages_of up r.
Proof. reflexivity. Qed.

(** Without a transport error [fetch_user_data] returns. *)
Lemma fetch_user_data_total up :
  no_transport_error up →
  let rs := included (body_or (up_repos up) []) in
  let act := event_loop fromisoformat (body_or (up_events up) []) in
  let repo_data := map (λ r, summarize r (languages_of up r)) rs in
  fetch_user_data fromisoformat up
  = Return {| user := body_or (up_user up) ∅;
              repos := repo_data;
              languages := foldl (λ acc r, merge_languages (languages_of up r) acc) ∅ rs;
              daily_activity := act_daily act;
              hourly_activity := act_hourly act;
              event_types := act_types act;
              total_repos := Z.of_nat (length repo_data);
              total_stars := sum_Z (rs_stars <$> repo_data) |}.
Proof.
  intros (Huser & Hrepos & Hlangs & Hevents). simpl. unfold fetch_user_data.
  destruct (github_api_total _ Huser) as [u Hu].
  destruct (github_api_total _ Hrepos) as [r Hr].
  destruct (github_api_total _ Hevents) as [e He].
  rewrite Hu. simpl. rewrite Hr. simpl.
  rewrite (repo_loop_total _ _ _ _ Hlangs). simpl. rewrite He. simpl.
  by rewrite (github_api_Return _ _ _ Hu), (github_api_Return _ _ _ Hr),
             (github_api_Return _ _ _ He).
Qed.

Lemma included_idemp rs : included (included rs) = included rs.
Proof.
  unfold included. induction rs as [|r rs IH]; simpl; [reflexivity|].
  destruct (truthy (repo_fork r)) eqn:Hr; simpl; [exact IH|].
  rewrite Hr. simpl. by rewrite IH.
Qed.

Lemma rs_stars_summaries up rs :
  rs_stars <$> map (λ r, summarize r (languages_of up r)) rs = map stars_of rs.
Proof. induction rs as [|r rs IH]; simpl; [reflexivity|]. by rewrite <- IH. Qed.

(** C2. A fork contributes nothing: removing the forks from the repository
    list changes nothing in what [fetch_user_data] does or returns,
    whatever their stars, size or languages; [total_repos] is the number of
    non-fork repositories and [total_stars] the sum of their star counts. *)
Theorem forks_contribute_nothing (up : Upstream) :
  fetch_user_data fromisoformat (without_forks up) = fetch_user_data fromisoformat up ∧
  ∀ d, fetch_user_data fromisoformat up = Return d →
       let rs := included (body_or (up_repos up) []) in
       total_repos d = Z.of_nat (length rs) ∧
       total_stars d = sum_Z (map stars_of rs) ∧
       map rs_name (repos d) = map name_of rs.
Proof.
  split.
  - unfold fetch_user_data, without_forks. simpl.
    destruct (github_api (up_user up)) as [user_opt|e]; simpl; [|reflexivity].
    destruct (up_repos up) as [|code json]; simpl; [reflexivity|].
    destruct (code =? 200); simpl.
    + unfold or_else. simpl.
      rewrite (repo_loop_ext _ up) by reflexivity. by rewrite repo_loop_forks.
    + reflexivity.
  - intros d Hd. apply fetch_user_data_Return in Hd.
    destruct Hd as (_ & Hrepos & _ & _ & _ & _ & Hn & Hstars).
    simpl. rewrite Hn, Hstars, Hrepos, rs_stars_summaries, length_map.
    repeat split. rewrite map_map. reflexivity.
Qed.

(** C1. The global [languages] maps each language to the sum of its byte
    counts over the non-fork repositories, and the bytes in total are the
    sum of the repositories' totals: nothing is counted twice or lost. The
    aggregator returns whenever no query fails in transport. *)
Theorem languages_merged_by_summation (up : Upstream) :
  (no_transport_error up → ∃ d, fetch_user_data fromisoformat up = Return d) ∧
  ∀ d, fetch_user_data fromisoformat up = Return d →
       let rs := included (body_or (up_repos up) []) in
       (∀ l, get0 (languages d) l = sum_Z (map (λ r, get0 (languages_of up r) l) rs)) ∧
       total (languages d) = sum_Z (map (λ r, total (languages_of up r)) rs) ∧
       total (languages d) = sum_Z (map (λ r, total (rs_languages r)) (repos d)).
Proof.
  split; [intros Hup; eexists; by apply fetch_user_data_total|].
  intros d Hd. apply fetch_user_data_Return in Hd.
  destruct Hd as (_ & Hrepos & Hlang & _). simpl.
  rewrite Hlang, Hrepos. split; [|split].
  - intros l. rewrite foldl_merge_get0, get0_empty. lia.
  - rewrite foldl_merge_total, total_empty. lia.
  - rewrite foldl_merge_total, total_empty, map_map. simpl. lia.
Qed.

Lemma event_step_daily acc e :
  total (act_daily (event_step fromisoformat acc e))
  = total (act_daily acc) + (if timestamp_ok fromisoformat e then 1 else 0).
Proof.
  unfold event_step, timestamp_ok.
  destruct (default "" (event_created_at e)) as [|c rest]; simpl; [lia|].
  destruct (fromisoformat _) as [dt|]; simpl; [|lia].
  by rewrite total_incr.
Qed.

Lemma event_step_hourly acc e :
  total (act_hourly (event_step fromisoformat acc e))
  = total (act_hourly acc) + (if timestamp_ok fromisoformat e then 1 else 0).
Proof.
  unfold event_step, timestamp_ok.
  destruct (default "" (event_created_at e)) as [|c rest]; simpl; [lia|].
  destruct (fromisoformat _) as [dt|]; simpl; [|lia].
  by rewrite total_incr.
Qed.

Lemma event_step_types acc e :
  act_types (event_step fromisoformat acc e) = incr (type_label e) 1 (act_types acc).
Proof.
  unfold event_step, type_label.
  destruct (default "" (event_created_at e)) as [|c rest]; simpl; [reflexivity|].
  destruct (fromisoformat _) as [dt|]; reflexivity.
Qed.

Lemma event_step_skip acc e :
  timestamp_ok fromisoformat e = false →
  act_daily (event_step fromisoformat acc e) = act_daily acc ∧
  act_hourly (event_step fromisoformat acc e) = act_hourly acc.
Proof.
  unfold event_step, timestamp_ok.
  destruct (default "" (event_created_at e)) as [|c rest]; simpl; [done|].
  destruct (fromisoformat _) as [dt|]; simpl; [discriminate|done].
Qed.

Lemma fold_event_step_totals events : ∀ acc,
  let act := fold_left (event_step fromisoformat) events acc in
  let n := Z.of_nat (length (List.filter (timestamp_ok fromisoformat) events)) in
  total (act_daily act) = total (act_daily acc) + n ∧
  total (act_hourly act) = total (act_hourly acc) + n ∧
  total (act_types act) = total (act_types acc) + Z.of_nat (length events).
Proof.
  induction events as [|e events IH]; intros acc; simpl; [lia|].
  destruct (IH (event_step fromisoformat acc e)) as (Hd & Hh & Ht).
  rewrite Hd, Hh, Ht, event_step_daily, event_step_hourly, event_step_types, total_incr.
  destruct (timestamp_ok fromisoformat e); simpl length; lia.
Qed.

Lemma fold_event_step_types events t : ∀ acc,
  get0 (act_types (fold_left (event_step fromisoformat) events acc)) t
  = get0 (act_types acc) t
    + Z.of_nat (length (List.filter (λ e, bool_decide (type_label e = t)) events)).
Proof.
  induction events as [|e events IH]; intros acc; simpl; [lia|].
  rewrite IH, event_step_types, get0_incr.
  case_decide as Ht.
  - rewrite bool_decide_eq_true_2 by exact Ht. simpl length. lia.
  - rewrite bool_decide_eq_false_2 by exact Ht. lia.
Qed.

Lemma event_step_daily_nonneg acc e :
  (∀ day, 0 ≤ get0 (act_daily acc) day) →
  ∀ day, 0 ≤ get0 (act_daily (event_step fromisoformat acc e)) day.
Proof.
  intros Hacc day. unfold event_step.
  destruct (default "" (event_created_at e)) as [|c rest]; simpl; [apply Hacc|].
  destruct (fromisoformat _) as [dt|]; simpl; [|apply Hacc].
  rewrite get0_incr. specialize (Hacc day). case_decide; lia.
Qed.

(** The daily counts are never negative. *)
Lemma event_loop_daily_nonneg events day :
  0 ≤ get0 (act_daily (event_loop fromisoformat events)) day.
Proof.
  unfold event_loop.
  assert (Hfold : ∀ acc, (∀ day, 0 ≤ get0 (act_daily acc) day) →
            ∀ day, 0 ≤ get0 (act_daily (fold_left (event_step fromisoformat) events acc)) day).
  { induction events as [|e events IH]; intros acc Hacc; simpl; [exact Hacc|].
    apply IH, event_step_daily_nonneg, Hacc. }
  apply Hfold. intros day'. simpl. rewrite get0_empty. lia.
Qed.

(** C5. An event whose timestamp is absent or does not parse changes
    neither [daily_activity] nor [hourly_activity], and the loop goes on:
    both maps hold one increment per event whose timestamp parses, so ten
    events of which exactly one does not parse give nine increments. *)
Theorem malformed_timestamps_skipped (events : list Event) :
  let act := event_loop fromisoformat events in
  let parsed := Z.of_nat (length (List.filter (timestamp_ok fromisoformat) events)) in
  total (act_daily act) = parsed ∧
  total (act_hourly act) = parsed ∧
  (∀ acc e, timestamp_ok fromisoformat e = false →
     act_daily (event_step fromisoformat acc e) = act_daily acc ∧
     act_hourly (event_step fromisoformat acc e) = act_hourly acc) ∧
  (length events = 10%nat →
   length (List.filter (λ e, negb (timestamp_ok fromisoformat e)) events) = 1%nat →
   total (act_daily act) = 9 ∧ total (act_hourly act) = 9).
Proof.
  cbv zeta. unfold event_loop.
  destruct (fold_event_step_totals events
              {| act_daily := ∅; act_hourly := ∅; act_types := ∅ |}) as (Hd & Hh & _).
  simpl in Hd, Hh. rewrite total_empty in Hd. rewrite total_empty in Hh.
  split; [lia|]. split; [lia|]. split; [apply event_step_skip|].
  intros Hlen Hbad.
  pose proof (List.filter_length (timestamp_ok fromisoformat) events) as Hsplit. lia.
Qed.

(** C10. [event_types] counts every event under its type, [Unknown] when
    the type is absent, whether or not its timestamp parses: an event whose
    timestamp does not parse adds one to its type's counter and leaves the
    daily and hourly maps as they were. *)
Theorem event_types_count_every_event (events : list Event) :
  let act := event_loop fromisoformat events in
  total (act_types act) = Z.of_nat (length events) ∧
  (∀ t, get0 (act_types act) t
        = Z.of_nat (length (List.filter (λ e, bool_decide (type_label e = t)) events))) ∧
  (∀ acc e, timestamp_ok fromisoformat e = false →
     get0 (act_types (event_step fromisoformat acc e)) (type_label e)
     = get0 (act_types acc) (type_label e) + 1 ∧
     act_daily (event_step fromisoformat acc e) = act_daily acc ∧
     act_hourly (event_step fromisoformat acc e) = act_hourly acc).
Proof.
  cbv zeta. unfold event_loop. split; [|split].
  - destruct (fold_event_step_totals events
                {| act_daily := ∅; act_hourly := ∅; act_types := ∅ |}) as (_ & _ & Ht).
    simpl in Ht. rewrite total_empty in Ht. lia.
  - intros t. rewrite fold_event_step_types. simpl. rewrite get0_empty. lia.
  - intros acc e Hbad. split; [|by apply event_step_skip].
    rewrite event_step_types, get0_incr. by case_decide.
Qed.

(** C6, amended. When no query fails in transport, [fetch_user_data]
    returns, and it returns what it returns when every query answered by a
    status other than 200 is answered by an empty list or map. *)
Theorem failed_status_degrades_to_empty (up : Upstream) :
  no_transport_error up →
  ∃ d, fetch_user_data fromisoformat up = Return d ∧
       fetch_user_data fromisoformat (degraded up) = Return d.
Proof.
  intros Hup. eexists. split; [by apply fetch_user_data_total|].
  rewrite fetch_user_data_total.
  - reflexivity.
  - repeat split; simpl; congruence.
Qed.

End aggregator_props.

(** ** The aggregator on the sample upstream *)

(** The example of the specification: [{"Python": 100}] and
    [{"Python": 50, "Go": 20}] merge into [{"Python": 150, "Go": 20}]. *)
Example merge_languages_example :
  merge_languages (<[ "Python" := 50 ]> {[ "Go" := 20 ]})
                  (merge_languages {[ "Python" := 100 ]} ∅)
  = <[ "Python" := 150 ]> {[ "Go" := 20 ]}.
Proof. vm_compute. reflexivity. Qed.

Example sample_run :
  fetch_user_data fromisoformat_github sample_upstream = Return sample_stats.
Proof. vm_compute. reflexivity. Qed.

Lemma languages_merged_by_summation_witness :
  (∀ l, get0 (languages sample_stats) l
        = sum_Z (map (λ r, get0 (languages_of sample_upstream r) l)
                     (included sample_repos))) ∧
  total (languages sample_stats)
  = sum_Z (map (λ r, total (languages_of sample_upstream r)) (included sample_repos)) ∧
  total (languages sample_stats)
  = sum_Z (map (λ r, total (rs_languages r)) (repos sample_stats)).
Proof.
  exact (proj2 (languages_merged_by_summation fromisoformat_github sample_upstream)
           sample_stats sample_run).
Defined.

Lemma forks_contribute_nothing_witness :
  total_repos sample_stats = Z.of_nat (length (included sample_repos)) ∧
  total_stars sample_stats = sum_Z (map stars_of (included sample_repos)) ∧
  map rs_name (repos sample_stats) = map name_of (included sample_repos).
Proof.
  exact (proj2 (forks_contribute_nothing fromisoformat_github sample_upstream)
           sample_stats sample_run).
Defined.

Lemma malformed_timestamps_skipped_witness :
  total (act_daily (event_loop fromisoformat_github sample_events)) = 9 ∧
  total (act_hourly (event_loop fromisoformat_github sample_events)) = 9.
Proof.
  destruct (malformed_timestamps_skipped fromisoformat_github sample_events)
    as (_ & _ & _ & Hnine).
  apply Hnine; vm_compute; reflexivity.
Defined.

Lemma event_types_count_every_event_witness :
  let bad := mk_event "not a timestamp" "PushEvent" in
  ∃ acc, acc = event_loop fromisoformat_github (take 3 sample_events) ∧
         get0 (act_types (event_step fromisoformat_github acc bad)) "PushEvent"
         = get0 (act_types acc) "PushEvent" + 1 ∧
         act_daily (event_step fromisoformat_github acc bad) = act_daily acc ∧
         act_hourly (event_step fromisoformat_github acc bad) = act_hourly acc.
Proof.
  eexists. split; [reflexivity|].
  destruct (event_types_count_every_event fromisoformat_github sample_events)
    as (_ & _ & Hbad).
  apply (Hbad _ (mk_event "not a timestamp" "PushEvent")). vm_compute. reflexivity.
Defined.

Lemma failed_status_degrades_to_empty_witness :
  ∃ d, fetch_user_data fromisoformat_github sample_upstream_503 = Return d ∧
       fetch_user_data fromisoformat_github (degraded sample_upstream_503) = Return d.
Proof.
  apply failed_status_degrades_to_empty.
  repeat split; try discriminate.
  intros name. unfold sample_upstream_503, sample_languages. simpl.
  repeat (destruct (String.eqb _ _); [discriminate|]). discriminate.
Defined.

Example sample_run_503 :
  fetch_user_data fromisoformat_github sample_upstream_503
  = Return {| user := user sample_stats; repos := repos sample_stats;
              languages := languages sample_stats;
              daily_activity := ∅; hourly_activity := ∅; event_types := ∅;
              total_repos := 2; total_stars := 7 |}.
Proof. vm_compute. reflexivity. Qed.

(** C6 as stated fails: a query that fails in transport (connection error
    or timeout) makes [requests.get] raise, nothing catches the exception,
    and [fetch_user_data] raises instead of returning. *)
Lemma transport_error_propagates :
  fetch_user_data fromisoformat_github sample_upstream_timeout = Raise RequestException
  ∧ ¬ ∃ d, fetch_user_data fromisoformat_github sample_upstream_timeout = Return d.
Proof. split; [reflexivity|]. intros [d Hd]. discriminate Hd. Qed.

(** * Properties of the renderers *)

Section renderer_props.
Import Binary64.
Local Open Scope Q_scope.

Lemma lit_0_08 : lit (8 # 100) = Finite c_0_08.
Proof. vm_compute. reflexivity. Qed.
Lemma lit_0_2 : lit (2 # 10) = Finite c_0_2.
Proof. vm_compute. reflexivity. Qed.
Lemma lit_0_4 : lit (4 # 10) = Finite c_0_4.
Proof. vm_compute. reflexivity. Qed.
Lemma lit_0_6 : lit (6 # 10) = Finite c_0_6.
Proof. vm_compute. reflexivity. Qed.
Lemma lit_0_7 : lit (7 # 10) = Finite c_0_7.
Proof. vm_compute. reflexivity. Qed.
Lemma lit_0_8 : lit (8 # 10) = Finite c_0_8.
Proof. vm_compute. reflexivity. Qed.
Lemma lit_1_4 : lit (14 # 10) = Finite c_1_4.
Proof. vm_compute. reflexivity. Qed.

(** ** Quotients of integers *)

Lemma inject_Z_nonzero (m : Z) : m ≠ 0%Z → ¬ inject_Z m == 0.
Proof. intros Hm Heq. apply Hm. unfold Qeq in Heq. simpl in Heq. lia. Qed.

Lemma Zquot_le (a b c d : Z) :
  (0 < b)%Z → (0 < d)%Z → (a * d ≤ c * b)%Z →
  inject_Z a / inject_Z b <= inject_Z c / inject_Z d.
Proof.
  intros Hb Hd Hle. apply Qdiv_le_cross.
  - change 0 with (inject_Z 0). rewrite <- Zlt_Qlt. exact Hb.
  - change 0 with (inject_Z 0). rewrite <- Zlt_Qlt. exact Hd.
  - rewrite <- !inject_Z_mult, <- Zle_Qle. exact Hle.
Qed.

Lemma Zquot_eq (a b c d : Z) :
  b ≠ 0%Z → d ≠ 0%Z → (a * d = c * b)%Z →
  inject_Z a / inject_Z b == inject_Z c / inject_Z d.
Proof.
  intros Hb Hd Heq.
  assert (HQ : inject_Z a * inject_Z d == inject_Z c * inject_Z b)
    by (rewrite <- !inject_Z_mult, Heq; reflexivity).
  pose proof (inject_Z_nonzero b Hb). pose proof (inject_Z_nonzero d Hd).
  apply (Qmult_inj_r _ _ (inject_Z b * inject_Z d)).
  - intros Hz. apply Qmult_integral in Hz. tauto.
  - transitivity (inject_Z a * inject_Z d); [field; assumption|].
    rewrite HQ. field. assumption.
Qed.

(** [truediv] returns the rounded quotient, when it returns. *)
Lemma truediv_Return (a b : Z) (r : float) :
  truediv a b = Return r →
  b ≠ 0%Z ∧ ∃ q, r = Finite q ∧ round (inject_Z a / inject_Z b) = Finite q.
Proof.
  unfold truediv. destruct (Z.eqb_spec b 0) as [Hb|Hb]; [discriminate|].
  destruct (round (inject_Z a / inject_Z b)) as [q| |] eqn:Hq; try discriminate.
  intros [= <-]. eauto.
Qed.

Lemma truediv_Finite (a b : Z) (q : Q) :
  b ≠ 0%Z → round (inject_Z a / inject_Z b) = Finite q → truediv a b = Return (Finite q).
Proof.
  intros Hb Hq. unfold truediv.
  destruct (Z.eqb_spec b 0) as [Hb'|_]; [contradiction|]. rewrite Hq. reflexivity.
Qed.

(** ** Skill Tree levels and Weather bands *)

Lemma level_of_Master (pct : float) :
  level_of pct = Master ↔ flt (lit (7 # 10)) pct = true.
Proof.
  unfold level_of. destruct (flt (lit (7 # 10)) pct); [tauto|].
  split; [|discriminate].
  destruct (flt (lit (4 # 10)) pct); [discriminate|].
  destruct (flt (lit (2 # 10)) pct); [discriminate|].
  destruct (flt (lit (8 # 100)) pct); discriminate.
Qed.

(** A float above a threshold is above every lower threshold. *)
Lemma above_lower (lo hi : Q) (pct : float) :
  lo <= hi → flt (Finite hi) pct = true → flt (Finite lo) pct = true.
Proof.
  intros Hle Hhi. apply (fle_flt_trans _ (Finite hi)); [|exact Hhi].
  apply fle_Finite. exact Hle.
Qed.

Lemma level_of_Novice (pct : float) :
  level_of pct = Novice ↔ flt (lit (8 # 100)) pct = false.
Proof.
  unfold level_of. rewrite lit_0_7, lit_0_4, lit_0_2, lit_0_08.
  destruct (flt (Finite c_0_08) pct) eqn:H08.
  - split; [|discriminate].
    destruct (flt (Finite c_0_7) pct); [discriminate|].
    destruct (flt (Finite c_0_4) pct); [discriminate|].
    destruct (flt (Finite c_0_2) pct); discriminate.
  - split; [reflexivity|]. intros _.
    destruct (flt (Finite c_0_7) pct) eqn:H07.
    { apply (above_lower c_0_08) in H07; [congruence | unfold c_0_08, c_0_7; lra]. }
    destruct (flt (Finite c_0_4) pct) eqn:H04.
    { apply (above_lower c_0_08) in H04; [congruence | unfold c_0_08, c_0_4; lra]. }
    destruct (flt (Finite c_0_2) pct) eqn:H02.
    { apply (above_lower c_0_08) in H02; [congruence | unfold c_0_08, c_0_2; lra]. }
    reflexivity.
Qed.

Lemma flt_irrefl (a : float) : flt a a = false.
Proof. destruct (flt a a) eqn:Ha; [|reflexivity]. by rewrite (flt_asym _ _ Ha) in Ha. Qed.

Lemma skill_level_Return (b m : Z) (l : Level) :
  skill_level b m = Return l →
  m ≠ 0%Z ∧ ∃ q, round (inject_Z b / inject_Z m) = Finite q ∧ l = level_of (Finite q).
Proof.
  unfold skill_level. intros Hret.
  apply bind_Return in Hret as (pct & Hdiv & Hl). apply Return_inj in Hl.
  apply truediv_Return in Hdiv as (Hm & q & -> & Hq). eauto.
Qed.

Lemma weather_of_bands (c : Z) :
  (weather_of c = Cloudy ↔ c = 0%Z) ∧
  (weather_of c = PartlyCloudy ↔ c ≠ 0%Z ∧ (c ≤ 2)%Z) ∧
  (weather_of c = Sunny ↔ (3 ≤ c ≤ 5)%Z) ∧
  (weather_of c = Hot ↔ (6 ≤ c ≤ 10)%Z) ∧
  (weather_of c = Thunderstorm ↔ (10 < c)%Z).
Proof.
  unfold weather_of.
  destruct (Z.eqb_spec c 0); [repeat split; intros; try discriminate; try lia|].
  destruct (Z.leb_spec c 2); [repeat split; intros; try discriminate; try lia|].
  destruct (Z.leb_spec c 5); [repeat split; intros; try discriminate; try lia|].
  destruct (Z.leb_spec c 10); repeat split; intros; try discriminate; try lia.
Qed.

(** A proportion of byte counts below [2 ^ 51] that is above a cut point
    [n / d] as an exact fraction exceeds it by at least [1 / (d * 2 ^ 51)],
    which is enough for its binary64 value to be above the literal. *)
Lemma cut_exact (n : Z) (d : positive) (c c' q : Q) (b m : Z) :
  round (n # d) = Finite c →
  round ((n * 2 ^ 51 + 1) # (d * 2 ^ 51)) = Finite c' → c < c' →
  (0 < m ≤ 2 ^ 51)%Z →
  round (inject_Z b / inject_Z m) = Finite q →
  flt (Finite c) (Finite q) = (n * m <? Z.pos d * b)%Z.
Proof.
  intros Hc Hc' Hlt Hm Hq. destruct (Z.ltb_spec (n * m) (Z.pos d * b)) as [Hab|Hab].
  - assert (Hle : (n * 2 ^ 51 + 1) # (d * 2 ^ 51) <= inject_Z b / inject_Z m).
    { rewrite Qmake_Qdiv. apply Zquot_le; [reflexivity | lia |].
      rewrite Pos2Z.inj_mul, Pos2Z.inj_pow. lia. }
    apply round_mono in Hle. rewrite Hc', Hq in Hle. apply fle_Finite in Hle.
    apply flt_Finite. lra.
  - assert (Hle : inject_Z b / inject_Z m <= n # d).
    { rewrite (Qmake_Qdiv n d). apply Zquot_le; lia. }
    apply round_mono in Hle. rewrite Hc, Hq in Hle.
    apply fle_not_flt. exact Hle.
Qed.

Lemma round_2_5 : round (2 # 5) = Finite c_0_4.
Proof. vm_compute. reflexivity. Qed.
Lemma round_1_5 : round (1 # 5) = Finite c_0_2.
Proof. vm_compute. reflexivity. Qed.
Lemma round_2_25 : round (2 # 25) = Finite c_0_08.
Proof. vm_compute. reflexivity. Qed.

(** Floats above the four literals. *)
Lemma above_0_7 :
  round ((7 * 2 ^ 51 + 1) # (10 * 2 ^ 51)) = Finite above_c_0_7.
Proof. vm_compute. reflexivity. Qed.
Lemma above_0_4 :
  round ((2 * 2 ^ 51 + 1) # (5 * 2 ^ 51)) = Finite above_c_0_4.
Proof. vm_compute. reflexivity. Qed.
Lemma above_0_2 :
  round ((1 * 2 ^ 51 + 1) # (5 * 2 ^ 51)) = Finite above_c_0_2.
Proof. vm_compute. reflexivity. Qed.
Lemma above_0_08 :
  round ((2 * 2 ^ 51 + 1) # (25 * 2 ^ 51)) = Finite above_c_0_08.
Proof. vm_compute. reflexivity. Qed.

(** On byte counts up to [2 ^ 51] the level is the one of the exact
    proportion. *)
Lemma skill_level_exact (b m : Z) :
  (0 ≤ b ≤ m)%Z → (0 < m ≤ 2 ^ 51)%Z → skill_level b m = Return (exact_level b m).
Proof.
  intros Hb Hm. unfold skill_level.
  destruct (round_between 0 1 (inject_Z b / inject_Z m) 0 1) as (q & Hq & _ & _).
  - exact round_0.
  - exact round_1.
  - apply (Zquot_le 0 1 b m); lia.
  - apply (Zquot_le b m 1 1); lia.
  - rewrite (truediv_Finite b m q) by (lia || exact Hq).
    rewrite bind_Return_l. f_equal. unfold level_of, exact_level.
    rewrite lit_0_7, lit_0_4, lit_0_2, lit_0_08.
    rewrite (cut_exact 7 10 c_0_7 _ q b m lit_0_7 above_0_7) by (exact Hq || lia || reflexivity).
    rewrite (cut_exact 2 5 c_0_4 _ q b m round_2_5 above_0_4) by (exact Hq || lia || reflexivity).
    rewrite (cut_exact 1 5 c_0_2 _ q b m round_1_5 above_0_2) by (exact Hq || lia || reflexivity).
    rewrite (cut_exact 2 25 c_0_08 _ q b m round_2_25 above_0_08) by (exact Hq || lia || reflexivity).
    replace (1 * m)%Z with m by lia. reflexivity.
Qed.

(** C3. The thresholds are strict at their boundaries. In the Skill Tree
    the proportion is the binary64 quotient [bytes_count / max_bytes] and
    the cut points are the binary64 literals: the top level is given
    exactly when the proportion is above 0.7, the lowest exactly when it is
    at most 0.08, and each cut point itself falls into the level below it;
    a language with exactly seven tenths of the maximum is an Expert, a
    Master has more than seven tenths, and at most eight hundredths make a
    Novice. For byte counts up to [2 ^ 51] the level is exactly the one
    of the exact proportion: Master above 7/10, Expert above 2/5, Adept
    above 1/5, Skilled above 2/25, Novice otherwise. In the Weather
    renderer the bands of a count are 0, 1 to 2, 3 to 5, 6 to 10 and above
    10. *)
Theorem threshold_boundaries_strict :
  (∀ pct, level_of pct = Master ↔ flt (lit (7 # 10)) pct = true) ∧
  (∀ q, level_of (Finite q) = Novice ↔ fle (Finite q) (lit (8 # 100)) = true) ∧
  level_of (lit (7 # 10)) = Expert ∧
  level_of (lit (4 # 10)) = Adept ∧
  level_of (lit (2 # 10)) = Skilled ∧
  level_of (lit (8 # 100)) = Novice ∧
  (∀ b m : Z, m ≠ 0%Z → (10 * b = 7 * m)%Z → skill_level b m = Return Expert) ∧
  (∀ b m : Z, (0 < m)%Z → skill_level b m = Return Master → (7 * m < 10 * b)%Z) ∧
  (∀ b m : Z, (0 < m)%Z → (0 ≤ b)%Z → (25 * b ≤ 2 * m)%Z →
              skill_level b m = Return Novice) ∧
  (∀ b m : Z, (0 ≤ b ≤ m)%Z → (0 < m ≤ 2 ^ 51)%Z →
              skill_level b m = Return (exact_level b m)) ∧
  (∀ c : Z, (0 ≤ c)%Z →
     (weather_of c = Cloudy ↔ c = 0%Z) ∧
     (weather_of c = PartlyCloudy ↔ (1 ≤ c ≤ 2)%Z) ∧
     (weather_of c = Sunny ↔ (3 ≤ c ≤ 5)%Z) ∧
     (weather_of c = Hot ↔ (6 ≤ c ≤ 10)%Z) ∧
     (weather_of c = Thunderstorm ↔ (10 < c)%Z)) ∧
  weather_of 2 = PartlyCloudy ∧ weather_of 5 = Sunny ∧ weather_of 10 = Hot.
Proof.
  split; [exact level_of_Master|].
  split.
  { intros q. rewrite level_of_Novice, lit_0_08.
    rewrite fle_flt_Finite. destruct (flt (Finite c_0_08) (Finite q)); simpl; split; congruence. }
  do 4 (split; [vm_compute; reflexivity|]).
  split.
  { intros b m Hm Heq. unfold skill_level.
    rewrite (truediv_Finite b m c_0_7 Hm).
    - vm_compute. reflexivity.
    - rewrite <- lit_0_7. apply round_proper.
      apply (Zquot_eq b m 7 10); [exact Hm | discriminate | lia]. }
  split.
  { intros b m Hm Hret.
    apply skill_level_Return in Hret as (_ & q & Hq & Hl).
    symmetry in Hl. apply level_of_Master in Hl.
    destruct (Z.lt_ge_cases (7 * m) (10 * b)) as [Hlt|Hge]; [exact Hlt|exfalso].
    assert (Hle : inject_Z b / inject_Z m <= 7 # 10).
    { apply (Zquot_le b m 7 10); lia. }
    apply round_mono in Hle. rewrite Hq in Hle. fold (lit (7 # 10)) in Hle.
    pose proof (fle_flt_trans _ _ _ Hle Hl) as Habs.
    rewrite flt_irrefl in Habs. discriminate. }
  split.
  { intros b m Hm Hb Hle. unfold skill_level.
    destruct (round_between 0 (8 # 100) (inject_Z b / inject_Z m) 0 c_0_08)
      as (q & Hq & Hq0 & Hq8).
    - vm_compute. reflexivity.
    - exact lit_0_08.
    - apply (Zquot_le 0 1 b m); lia.
    - apply (Zquot_le b m 8 100); lia.
    - rewrite (truediv_Finite b m q) by (lia || exact Hq).
      simpl. f_equal. apply level_of_Novice. rewrite lit_0_08.
      apply fle_not_flt, fle_Finite. exact Hq8. }
  split; [exact skill_level_exact|].
  split.
  { intros c Hc. destruct (weather_of_bands c) as (H0 & H1 & H2 & H3 & H4).
    split; [exact H0|]. split; [rewrite H1; lia|].
    split; [exact H2|]. split; [exact H3 | exact H4]. }
  split; [reflexivity|]. split; reflexivity.
Qed.

(** ** Trend *)



Lemma sum_Z_nonneg (l : list Z) : Forall (λ x, (0 ≤ x)%Z) l → (0 ≤ sum_Z l)%Z.
Proof. induction 1; simpl; lia. Qed.

Lemma length_last_30 (day_key : nat → string) daily :
  length (last_30_of day_key daily) = 30%nat.
Proof. unfold last_30_of. by rewrite length_fmap, length_seq. Qed.

Lemma length_last_7 (day_key : nat → string) daily :
  length (last_7_of day_key daily) = 7%nat.
Proof. unfold last_7_of. rewrite length_take, length_last_30. reflexivity. Qed.

Lemma last_30_nonneg (day_key : nat → string) daily :
  (∀ day, (0 ≤ get0 daily day)%Z) →
  Forall (λ x, (0 ≤ x)%Z) (last_30_of day_key daily).
Proof.
  intros Hd. unfold last_30_of. apply Forall_fmap, Forall_forall.
  intros i _. apply Hd.
Qed.

(** The quotient of a sum that is not negative by a positive length is a
    float that is not negative. *)
Lemma truediv_nonneg (s n : Z) (r : float) :
  (0 ≤ s)%Z → (0 < n)%Z → truediv s n = Return r → ∃ q, r = Finite q ∧ 0 <= q.
Proof.
  intros Hs Hn Hdiv. apply truediv_Return in Hdiv as (_ & q & -> & Hq).
  exists q. split; [reflexivity|].
  assert (Hle : 0 <= inject_Z s / inject_Z n) by (apply (Zquot_le 0 1 s n); lia).
  apply round_mono in Hle. rewrite Hq in Hle.
  rewrite round_0 in Hle. apply fle_Finite in Hle. exact Hle.
Qed.

Lemma sum_Z_le (B : Z) (l : list Z) :
  Forall (λ x, (x ≤ B)%Z) l → (sum_Z l ≤ Z.of_nat (length l) * B)%Z.
Proof. induction 1; simpl sum_Z; simpl length; lia. Qed.

Lemma sum_Z_take (n : nat) (l : list Z) :
  Forall (λ x, (0 ≤ x)%Z) l → (sum_Z (take n l) ≤ sum_Z l)%Z.
Proof.
  intros Hl. revert n. induction Hl as [|x l Hx Hl IH]; intros [|n]; simpl; try lia.
  - pose proof (sum_Z_nonneg l Hl). lia.
  - specialize (IH n). lia.
Qed.

Lemma last_30_bounded (day_key : nat → string) daily (B : Z) :
  (∀ day, (get0 daily day ≤ B)%Z) →
  Forall (λ x, (x ≤ B)%Z) (last_30_of day_key daily).
Proof.
  intros Hd. unfold last_30_of. apply Forall_fmap, Forall_forall.
  intros i _. apply Hd.
Qed.

Lemma round_huge : ∃ c, round (inject_Z (2 ^ 1000)) = Finite c.
Proof. eexists. vm_compute. reflexivity. Qed.

(** The average of [n] counts from 0 to [2 ^ 1000] is a finite float. *)
Lemma truediv_average (s n : Z) :
  (0 < n)%Z → (0 ≤ s ≤ n * 2 ^ 1000)%Z → ∃ q, truediv s n = Return (Finite q) ∧ 0 <= q.
Proof.
  intros Hn Hs. destruct round_huge as (c & Hc).
  destruct (round_between 0 (inject_Z (2 ^ 1000)) (inject_Z s / inject_Z n) 0 c round_0 Hc)
    as (q & Hq & Hq0 & _).
  - apply (Zquot_le 0 1 s n); lia.
  - assert (H1 : inject_Z (2 ^ 1000) / inject_Z 1 == inject_Z (2 ^ 1000))
      by (change (inject_Z 1) with 1; field).
    rewrite <- H1. apply Zquot_le; lia.
  - exists q. split; [|exact Hq0]. apply truediv_Finite; [lia | exact Hq].
Qed.

Lemma foldl_max_ge (l : list Z) : ∀ a,
  (a ≤ foldl Z.max a l)%Z ∧ Forall (λ x, (x ≤ foldl Z.max a l)%Z) l.
Proof.
  induction l as [|x l IH]; intros a; simpl; [split; [lia | constructor]|].
  destruct (IH (Z.max a x)) as (Ha & Hl). split; [lia|].
  constructor; [lia | exact Hl].
Qed.

Lemma max_list_ge (l : list Z) : Forall (λ x, (x ≤ max_list l)%Z) l.
Proof.
  destruct l as [|x l]; [constructor|]. simpl.
  destruct (foldl_max_ge l x) as (Hx & Hl). constructor; assumption.
Qed.

Lemma max_val_of_ge (l : list Z) : Forall (λ x, (x ≤ max_val_of l)%Z) l.
Proof.
  pose proof (max_list_ge l) as Hl. unfold max_val_of.
  destruct l as [|x l]; [constructor|].
  destruct (Z.ltb_spec 0 (max_list (x :: l))); [exact Hl|].
  eapply Forall_impl; [exact Hl|]. cbv beta. intros y Hy. lia.
Qed.

Lemma max_val_of_pos (last_30 : list Z) : (0 < max_val_of last_30)%Z.
Proof.
  unfold max_val_of. destruct last_30 as [|x rest]; [lia|].
  destruct (Z.ltb_spec 0 (max_list (x :: rest))); lia.
Qed.

(** Every bar of a history of counts that are not negative has a height. *)
Lemma bar_height_Return (last_30 : list Z) (val : Z) :
  (0 ≤ val ≤ max_val_of last_30)%Z → ∃ h, bar_height last_30 val = Return h.
Proof.
  intros Hval. unfold bar_height. pose proof (max_val_of_pos last_30) as Hpos.
  destruct (round_between 0 1 (inject_Z val / inject_Z (max_val_of last_30)) 0 1
              round_0 round_1) as (q & Hq & _ & _).
  - apply (Zquot_le 0 1); lia.
  - apply (Zquot_le _ _ 1 1); lia.
  - rewrite (truediv_Finite _ _ q) by (lia || exact Hq).
    rewrite bind_Return_l. eauto.
Qed.

Lemma mapM_Return {A B : Type} (f : A → result B) (l : list A) :
  Forall (λ x, ∃ y, f x = Return y) l → ∃ ys, mapM f l = Return ys.
Proof.
  induction 1 as [|x l (y & Hy) _ (ys & Hys)]; [by exists []|].
  exists (y :: ys). cbn [mapM]. rewrite Hy, bind_Return_l.
  change (mapM f l ≫= (λ k, Return (y :: k)) = Return (y :: ys)).
  rewrite Hys. reflexivity.
Qed.

Lemma Zrange_elem (lo : Z) (n : nat) (x : Z) :
  (lo ≤ x < lo + Z.of_nat n)%Z → x ∈ Zrange lo n.
Proof.
  intros Hx. unfold Zrange. apply list_elem_of_fmap.
  exists (Z.to_nat (x - lo)). split; [lia|]. apply elem_of_seq. lia.
Qed.

(** With at most 100 events in the thirty days, which is the page of
    events the aggregator reads, the binary64 trend is the comparison of
    the exact averages. *)
Lemma trend_is_exact_on_one_page :
  forallb (λ s30, forallb (λ s7, trend_agrees s7 s30) (Zrange 0 (Z.to_nat s30 + 1)))
          (Zrange 0 101) = true.
Proof. vm_compute. reflexivity. Qed.

Lemma trend_exact (s7 s30 : Z) (a7 a30 : float) :
  (0 ≤ s7 ≤ s30)%Z → (s30 ≤ 100)%Z →
  truediv s7 7 = Return a7 → truediv s30 30 = Return a30 →
  trend_of a7 a30 = exact_trend s7 s30.
Proof.
  intros Hs7 Hs30 H7 H30. pose proof trend_is_exact_on_one_page as Hall.
  rewrite forallb_forall in Hall. specialize (Hall s30).
  rewrite forallb_forall in Hall.
  assert (Hagree : trend_agrees s7 s30 = true).
  { apply Hall.
    - apply list_elem_of_In, Zrange_elem. lia.
    - apply list_elem_of_In, Zrange_elem. lia. }
  unfold trend_agrees in Hagree. rewrite H7, H30 in Hagree.
  destruct (trend_of a7 a30), (exact_trend s7 s30); (reflexivity || discriminate).
Qed.

(** *** The trend and the exact averages *)









Lemma two_pi_eq : fmul math_pi (lit 2) = Finite c_two_pi.
Proof. vm_compute. reflexivity. Qed.

Lemma hex_value_range (c : ascii) : (0 ≤ hex_value c ≤ 15)%Z.
Proof.
  unfold hex_value.
  repeat match goal with
         | |- context [if ?b then _ else _] =>
             let Hb := fresh "Hb" in
             destruct b eqn:Hb;
             [apply andb_prop in Hb as [?%Z.leb_le ?%Z.leb_le]; lia|]
         end.
  lia.
Qed.

Lemma int_hex_range (cs : list ascii) : ∀ acc k,
  (0 ≤ acc < 16 ^ k)%Z → (0 ≤ k)%Z →
  (0 ≤ foldl (λ acc c, 16 * acc + hex_value c) acc cs < 16 ^ (k + Z.of_nat (length cs)))%Z.
Proof.
  induction cs as [|c cs IH]; intros acc k Hacc Hk; simpl length.
  - simpl. rewrite Z.add_0_r. exact Hacc.
  - simpl foldl. pose proof (hex_value_range c) as Hc.
    replace (k + Z.of_nat (S (length cs)))%Z with ((k + 1) + Z.of_nat (length cs))%Z by lia.
    apply IH; [|lia]. rewrite Z.pow_add_r by lia. change (16 ^ 1)%Z with 16%Z. lia.
Qed.

Lemma length_substring (n m : nat) (s : string) :
  (String.length (substring n m s) ≤ m)%nat.
Proof.
  revert n m. induction s as [|c s IH]; intros [|n] [|m]; simpl; try lia.
  - specialize (IH 0%nat m). lia.
  - specialize (IH n 0%nat). simpl in IH. exact IH.
  - specialize (IH n (S m)). exact IH.
Qed.

Lemma length_list_ascii (s : string) :
  length (list_ascii_of_string s) = String.length s.
Proof. induction s as [|c s IH]; simpl; [reflexivity|]. by rewrite IH. Qed.

(** Four hexadecimal digits denote a number from 0 to 65535. *)
Lemma int_hex_slice (n : nat) (s : string) :
  (0 ≤ int_hex (substring n 4 s) ≤ 65535)%Z.
Proof.
  unfold int_hex.
  pose proof (int_hex_range (list_ascii_of_string (substring n 4 s)) 0 0) as Hr.
  pose proof (length_substring n 4 s) as Hlen.
  rewrite length_list_ascii in Hr.
  assert (Hpow : (16 ^ (0 + Z.of_nat (String.length (substring n 4 s))) ≤ 16 ^ 4)%Z)
    by (apply Z.pow_le_mono_r; lia).
  change (16 ^ 4)%Z with 65536%Z in Hpow. lia.
Qed.

(** The normalised slice [n / 65535] is a float between 0 and 1. *)
Lemma unit_fraction (n : Z) :
  (0 ≤ n ≤ 65535)%Z →
  ∃ u, truediv n 65535 = Return (Finite u) ∧ 0 <= u ∧ u <= 1.
Proof.
  intros Hn.
  destruct (round_between 0 1 (inject_Z n / inject_Z 65535) 0 1) as (u & Hu & Hu0 & Hu1).
  - exact round_0.
  - exact round_1.
  - apply (Zquot_le 0 1 n 65535); lia.
  - apply (Zquot_le n 65535 1 1); lia.
  - exists u. split; [|split; assumption].
    apply truediv_Finite; [discriminate | exact Hu].
Qed.

Lemma lit_2 : lit 2 = Finite 2.
Proof. vm_compute. reflexivity. Qed.

Lemma round_pi : round pi_value = Finite pi_value.
Proof. vm_compute. reflexivity. Qed.

Lemma round_two_pi : round (pi_value * 2) = Finite c_two_pi.
Proof. vm_compute. reflexivity. Qed.

Lemma round_0_6 : round c_0_6 = Finite c_0_6.
Proof. vm_compute. reflexivity. Qed.

Lemma round_0_8 : round (c_0_8 + 0) = Finite c_0_8.
Proof. vm_compute. reflexivity. Qed.

Lemma round_0_8_0_6 : round (c_0_8 + c_0_6) = Finite c_1_4.
Proof. vm_compute. reflexivity. Qed.

Lemma phase_offset_range (digest : string) :
  ∃ p, phase_offset_of digest = Return (Finite p) ∧ 0 <= p ∧ p <= c_two_pi.
Proof.
  unfold phase_offset_of, slice_0_4.
  destruct (unit_fraction _ (int_hex_slice 0 digest)) as (u & Hu & Hu0 & Hu1).
  rewrite Hu, bind_Return_l. unfold math_pi. rewrite lit_2, fmul_Finite.
  destruct (round_between 0 pi_value (u * pi_value) 0 pi_value round_0 round_pi)
    as (v & Hv & Hv0 & Hv1); [unfold pi_value; lra..|].
  rewrite Hv, fmul_Finite.
  destruct (round_between 0 (pi_value * 2) (v * 2) 0 c_two_pi round_0 round_two_pi)
    as (p & Hp & Hp0 & Hp1); [unfold pi_value in *; lra..|].
  rewrite Hp. eauto.
Qed.

Lemma round_fffe : round (inject_Z 65534 / inject_Z 65535) = Finite c_fffe.
Proof. vm_compute. reflexivity. Qed.

Lemma round_fffe_pi : round (c_fffe * pi_value) = Finite c_fffe_pi.
Proof. vm_compute. reflexivity. Qed.

Lemma round_fffe_two_pi : round (c_fffe_pi * 2) = Finite c_fffe_two_pi.
Proof. vm_compute. reflexivity. Qed.

(** Digits other than [ffff] give a phase offset under [math.pi * 2]. *)
Lemma phase_offset_below (digest : string) :
  int_hex (slice_0_4 digest) ≠ 65535%Z →
  ∃ p, phase_offset_of digest = Return (Finite p) ∧ p < c_two_pi.
Proof.
  intros Hn. unfold phase_offset_of, slice_0_4 in *.
  pose proof (int_hex_slice 0 digest) as Hr.
  set (n := int_hex (substring 0 4 digest)) in *.
  destruct (round_between 0 (inject_Z 65534 / inject_Z 65535)
              (inject_Z n / inject_Z 65535) 0 c_fffe round_0 round_fffe)
    as (u & Hu & Hu0 & Hu1).
  { apply (Zquot_le 0 1 n 65535); lia. }
  { apply (Zquot_le n 65535 65534 65535); lia. }
  rewrite (truediv_Finite n 65535 u) by (discriminate || exact Hu).
  rewrite bind_Return_l. unfold math_pi. rewrite lit_2, fmul_Finite.
  destruct (round_between 0 (c_fffe * pi_value) (u * pi_value) 0 c_fffe_pi
              round_0 round_fffe_pi)
    as (v & Hv & Hv0 & Hv1); [unfold pi_value; lra..|].
  rewrite Hv, fmul_Finite.
  destruct (round_between 0 (c_fffe_pi * 2) (v * 2) 0 c_fffe_two_pi
              round_0 round_fffe_two_pi)
    as (p & Hp & Hp0 & Hp1); [lra..|].
  rewrite Hp. exists p. split; [reflexivity|].
  apply (Qle_lt_trans _ _ _ Hp1). reflexivity.
Qed.

(** The digits [ffff] give [math.pi * 2] itself. *)
Lemma phase_offset_ffff (digest : string) :
  int_hex (slice_0_4 digest) = 65535%Z →
  phase_offset_of digest = Return (Finite c_two_pi).
Proof. intros Hn. unfold phase_offset_of. rewrite Hn. vm_compute. reflexivity. Qed.

Lemma freq_mod_range (digest : string) :
  ∃ f, freq_mod_of digest = Return (Finite f) ∧ c_0_8 <= f ∧ f <= c_1_4.
Proof.
  unfold freq_mod_of, slice_4_8.
  destruct (unit_fraction _ (int_hex_slice 4 digest)) as (u & Hu & Hu0 & Hu1).
  rewrite Hu, bind_Return_l, lit_0_6, lit_0_8, fmul_Finite.
  destruct (round_between 0 c_0_6 (u * c_0_6) 0 c_0_6 round_0 round_0_6)
    as (w & Hw & Hw0 & Hw1); [unfold c_0_6; lra..|].
  rewrite Hw, fadd_Finite.
  destruct (round_between (c_0_8 + 0) (c_0_8 + c_0_6) (c_0_8 + w) c_0_8 c_1_4
              round_0_8 round_0_8_0_6) as (f & Hf & Hf0 & Hf1); [lra..|].
  rewrite Hf. eauto.
Qed.

(** C8, amended. For every [languages] the phase offset lies in the closed
    interval from 0 to [math.pi * 2], both ends included, and the frequency
    multiplier in the closed interval from 0.8 to 1.4. The phase offset is
    [math.pi * 2] exactly when the first four digits of the fingerprint
    are [ffff]. *)
Theorem helix_parameters_in_range (languages : gmap string Z) :
  ∃ p f, phase_offset languages = Return p ∧ freq_mod languages = Return f ∧
         fle (lit 0) p = true ∧ fle p (fmul math_pi (lit 2)) = true ∧
         fle (lit (8 # 10)) f = true ∧ fle f (lit (14 # 10)) = true ∧
         (flt p (fmul math_pi (lit 2)) = false ↔
          int_hex (slice_0_4 (data_hash languages)) = 65535%Z).
Proof.
  unfold phase_offset, freq_mod.
  destruct (phase_offset_range (data_hash languages)) as (p & Hp & Hp0 & Hp1).
  destruct (freq_mod_range (data_hash languages)) as (f & -> & Hf0 & Hf1).
  exists (Finite p), (Finite f). rewrite two_pi_eq, lit_0_8, lit_1_4.
  unfold lit. rewrite round_0.
  split; [exact Hp|]. split; [reflexivity|].
  do 4 (split; [apply fle_Finite; assumption|]).
  split.
  - intros Hnot.
    destruct (Z.eq_dec (int_hex (slice_0_4 (data_hash languages))) 65535%Z) as [Heq|Hne];
      [exact Heq|exfalso].
    destruct (phase_offset_below _ Hne) as (p' & Hp' & Hlt).
    rewrite Hp in Hp'. apply Return_inj in Hp'. injection Hp' as ->.
    apply flt_Finite in Hlt. congruence.
  - intros Heq. rewrite (phase_offset_ffff _ Heq) in Hp.
    apply Return_inj in Hp. injection Hp as <-. apply flt_irrefl.
Qed.

(** ** Denominators *)

Lemma truediv_guarded (a b : Z) : b ≠ 0%Z → truediv a b ≠ Raise ZeroDivisionError.
Proof.
  intros Hb. unfold truediv. destruct (Z.eqb_spec b 0) as [|_]; [contradiction|].
  destruct (round _); congruence.
Qed.

Lemma truediv_zero (a : Z) : truediv a 0 = Raise ZeroDivisionError.
Proof. reflexivity. Qed.

Lemma total_bytes_of_nonzero (languages : gmap string Z) : total_bytes_of languages ≠ 0%Z.
Proof. unfold total_bytes_of. destruct (Z.eqb_spec (total languages) 0); lia. Qed.

Lemma max_size_of_nonzero (drawn : list RepoSummary) : max_size_of drawn ≠ 0%Z.
Proof.
  unfold max_size_of. destruct (Z.eqb_spec (max_list (rs_size <$> drawn)) 0); lia.
Qed.

Lemma skyline_repos_nonempty (rs : list RepoSummary) : skyline_repos rs ≠ [].
Proof. unfold skyline_repos. destruct (take 18 (sorted_by_size rs)); discriminate. Qed.

Lemma bind_not_zero_division {A B} (c : result A) (k : A → result B) :
  c ≠ Raise ZeroDivisionError →
  (∀ a, k a ≠ Raise ZeroDivisionError) →
  c ≫= k ≠ Raise ZeroDivisionError.
Proof.
  intros Hc Hk. destruct c as [a|e]; [apply Hk|].
  intros Heq. apply Hc. injection Heq as ->. reflexivity.
Qed.

(** The ratios of the DNA, Skyline and Weather renderers never divide by
    zero: their denominators are floored to 1. *)
Lemma guarded_ratios :
  (∀ languages b, dna_share languages b ≠ Raise ZeroDivisionError) ∧
  (∀ rs size, building_height (skyline_repos rs) size ≠ Raise ZeroDivisionError) ∧
  (∀ rs, building_width (skyline_repos rs) ≠ Raise ZeroDivisionError) ∧
  (∀ last_30 val, bar_height last_30 val ≠ Raise ZeroDivisionError).
Proof.
  split; [|split; [|split]].
  - intros languages b. apply bind_not_zero_division; [|discriminate].
    apply truediv_guarded, total_bytes_of_nonzero.
  - intros rs size. apply bind_not_zero_division; [|discriminate].
    apply truediv_guarded, max_size_of_nonzero.
  - intros rs. apply bind_not_zero_division.
    + apply truediv_guarded. pose proof (skyline_repos_nonempty rs).
      destruct (skyline_repos rs); [contradiction | simpl; lia].
    + intros w. discriminate.
  - intros last_30 val. apply bind_not_zero_division.
    + apply truediv_guarded. pose proof (max_val_of_pos last_30). lia.
    + intros r. discriminate.
Qed.

End renderer_props.

(** ** The renderers on sample inputs *)

Import Binary64.

Lemma threshold_boundaries_strict_witness :
  skill_level 70000 100000 = Return Expert ∧
  (7 * 100000 < 10 * 70001)%Z ∧
  skill_level 8000 100000 = Return Novice ∧
  skill_level 40001 100000 = Return (exact_level 40001 100000) ∧
  (weather_of 2 = PartlyCloudy ↔ (1 ≤ 2 ≤ 2)%Z).
Proof.
  destruct threshold_boundaries_strict
    as (_ & _ & _ & _ & _ & _ & Hexpert & Hmaster & Hnovice & Hexact & Hbands & _).
  split; [apply Hexpert; lia|].
  split; [apply Hmaster; [lia | vm_compute; reflexivity]|].
  split; [apply Hnovice; lia|].
  split; [apply Hexact; lia|].
  apply (Hbands 2%Z). lia.
Defined.

(** The levels around each cut point, on byte counts out of 100000. *)
Example skill_levels_at_the_cut_points :
  skill_level 70001 100000 = Return Master ∧ skill_level 70000 100000 = Return Expert ∧
  skill_level 40001 100000 = Return Expert ∧ skill_level 40000 100000 = Return Adept ∧
  skill_level 20001 100000 = Return Adept ∧ skill_level 20000 100000 = Return Skilled ∧
  skill_level 8001 100000 = Return Skilled ∧ skill_level 8000 100000 = Return Novice ∧
  skill_level 100000 100000 = Return Master ∧ skill_level 0 100000 = Return Novice.
Proof. repeat (split; [vm_compute; reflexivity|]). vm_compute. reflexivity. Qed.

(** Beyond [2 ^ 51] bytes a proportion a hair above a cut point can round
    to the literal: [400000000000001 / 5000000000000012 > 0.08] is [False]
    in binary64 although the exact proportion is above 2/25. *)
Example a_hair_above_the_cut_point :
  skill_level 400000000000001 5000000000000012 = Return Novice ∧
  exact_level 400000000000001 5000000000000012 = Skilled.
Proof. split; vm_compute; reflexivity. Qed.

Example sample_forecast_run :
  generate_code_weather sample_day_key (daily_activity sample_stats) = Return sample_forecast
  ∧ today_count sample_forecast = 1%Z ∧ weather sample_forecast = PartlyCloudy
  ∧ temp sample_forecast = 12%Z ∧ trend sample_forecast = TrendingUp.
Proof. repeat (split; [vm_compute; reflexivity|]). vm_compute. reflexivity. Qed.

Lemma sample_daily_bounded (day : string) :
  (0 ≤ get0 (daily_activity sample_stats) day ≤ 2 ^ 1000)%Z.
Proof.
  apply get0_bounded; [lia|].
  apply (bool_decide_unpack _). vm_compute. reflexivity.
Qed.


(** Beyond the bound the margin is lost: for counts near [2 ^ 60] the
    7-day average is above 1.2 times the 30-day average and the trend is
    "steady". *)
Example huge_counts_lose_the_margin :
  let daily := history_of huge_counts in
  let s7 := sum_Z (last_7_of quiet_day_key daily) in
  let s30 := sum_Z (last_30_of quiet_day_key daily) in
  s30 = (30 * 2 ^ 60)%Z ∧
  ((12 # 10) * (inject_Z s30 / 30) < inject_Z s7 / 7)%Q ∧
  ∃ f, generate_code_weather quiet_day_key daily = Return f ∧ trend f = Steady.
Proof.
  cbv zeta. split; [vm_compute; reflexivity|]. split; [vm_compute; reflexivity|].
  eexists. split; vm_compute; reflexivity.
Qed.

(** The three examples as histories: averages 10 and 8, 6 and 8, 9 and
    10. *)
Example trend_examples :
  (∃ f, generate_code_weather quiet_day_key (history_of ten_vs_eight) = Return f ∧
        avg_7 f = lit 10 ∧ avg_30 f = lit 8 ∧ trend f = TrendingUp) ∧
  (∃ f, generate_code_weather quiet_day_key (history_of six_vs_eight) = Return f ∧
        avg_7 f = lit 6 ∧ avg_30 f = lit 8 ∧ trend f = CoolingDown) ∧
  (∃ f, generate_code_weather quiet_day_key (history_of nine_vs_ten) = Return f ∧
        avg_7 f = lit 9 ∧ avg_30 f = lit 10 ∧ trend f = Steady).
Proof.
  split; [|split];
    (eexists; split; [vm_compute; reflexivity|]; vm_compute; repeat split).
Qed.



(** C8 as stated fails: the languages [{"Python": 188331}] have a digest
    that starts with [ffff], the normalised slice is 1.0, and the phase
    offset is [math.pi * 2] itself, not below it. *)
Lemma phase_offset_reaches_two_pi :
  data_hash {[ "Python" := 188331%Z ]} = "ffff9aa385d1e4c18960fdd9c4b33115" ∧
  phase_offset {[ "Python" := 188331%Z ]} = Return (fmul math_pi (lit 2)) ∧
  ∃ p, phase_offset {[ "Python" := 188331%Z ]} = Return p ∧
       flt p (fmul math_pi (lit 2)) = false.
Proof.
  split; [vm_compute; reflexivity|]. split; [vm_compute; reflexivity|].
  exists (fmul math_pi (lit 2)). split; vm_compute; reflexivity.
Qed.

(** C7. The Skill Tree takes the maximum byte count as it is, and only an
    empty [languages] gives 1: languages that all have zero bytes give the
    maximum 0, and the renderer raises [ZeroDivisionError]. The
    denominators of the other three renderers are floored to 1 and their
    ratios never divide by zero, whatever the input. *)
Theorem skill_tree_zero_maximum :
  max_bytes_of {[ "Python" := 0%Z ]} = 0%Z ∧
  generate_skill_tree {[ "Python" := 0%Z ]} = Raise ZeroDivisionError ∧
  (∀ languages, total_bytes_of languages ≠ 0%Z) ∧
  (∀ drawn, max_size_of drawn ≠ 0%Z) ∧
  (∀ last_30, (0 < max_val_of last_30)%Z) ∧
  (∀ rs, skyline_repos rs ≠ []) ∧
  (∀ languages b, dna_share languages b ≠ Raise ZeroDivisionError) ∧
  (∀ rs size, building_height (skyline_repos rs) size ≠ Raise ZeroDivisionError) ∧
  (∀ rs, building_width (skyline_repos rs) ≠ Raise ZeroDivisionError) ∧
  (∀ last_30 val, bar_height last_30 val ≠ Raise ZeroDivisionError).
Proof.
  split; [vm_compute; reflexivity|]. split; [vm_compute; reflexivity|].
  split; [exact total_bytes_of_nonzero|]. split; [exact max_size_of_nonzero|].
  split; [exact max_val_of_pos|]. split; [exact skyline_repos_nonempty|].
  exact guarded_ratios.
Qed.

(** With no languages, no repositories or an all-zero history every
    renderer returns. *)
Example empty_inputs_render :
  generate_skill_tree ∅ = Return ([], 0%Z) ∧
  dna_share ∅ 0 = Return (lit 0) ∧
  phase_offset ∅ = Return (Finite (5950088641635151 # 1125899906842624)) ∧
  generate_repo_skyline [] = Return [lit 170] ∧
  (∃ f, generate_code_weather quiet_day_key ∅ = Return f ∧
        weather f = Cloudy ∧ trend f = Steady ∧ bars f = replicate 30 (lit 2)).
Proof.
  repeat (split; [vm_compute; reflexivity|]).
  eexists. split; [vm_compute; reflexivity|]. vm_compute. repeat split.
Qed.

(** C9. The lit pattern depends on the hash secret of the process: the
    same window of the same building is unlit in a run under the secret of
    [PYTHONHASHSEED=1] and lit in a run under that of [PYTHONHASHSEED=2]. *)
Theorem window_lit_depends_on_hash_secret :
  window_lit (hash_secret_of_seed 1) "no-repos" 1 0 = false ∧
  window_lit (hash_secret_of_seed 2) "no-repos" 1 0 = true ∧
  py_hash (hash_secret_of_seed 1) "no-repos10" = 7556979169877521623%Z ∧
  py_hash (hash_secret_of_seed 2) "no-repos10" = (-4212578967707840551)%Z.
Proof. repeat (split; [vm_compute; reflexivity|]). vm_compute. reflexivity. Qed.

(** * The binary64 model against the floats of the Standard Library

    [Binary64] defines rounding from scratch so that its monotonicity can
    be proved. Here its operations are run side by side with the kernel's
    binary64 floats ([PrimFloat]) and with their specification
    ([SpecFloat]) on grids of inputs. *)

Example division_agrees_with_hardware :
  forallb (λ a, forallb (div_agrees a) (Zrange 1 60)) (Zrange 0 61) = true.
Proof. vm_compute. reflexivity. Qed.

Example division_agrees_on_large_integers :
  div_agrees 400000000000001 5000000000000012 = true ∧
  div_agrees_spec 400000000000001 5000000000000012 = true ∧
  div_agrees_spec 70000000000000000000000001 100000000000000000000000000 = true ∧
  div_agrees_spec 1 179769313486231570814527423731704356798070567525844996598917476803157260780028538760589558632766878171540458953514382464234321326889464182768467546703537516986049910576551282076245490090389328944075868508455133942304583236903222948165808559332123348274797826204144723168738177180919299881250404026184124858368 = true.
Proof. repeat (split; [vm_compute; reflexivity|]). vm_compute. reflexivity. Qed.

Example helix_agrees_with_hardware :
  forallb helix_agrees ((λ i, 257 * i) <$> Zrange 0 256) = true
  ∧ forallb helix_agrees (Zrange 65400 136) = true.
Proof. split; vm_compute; reflexivity. Qed.

(** The literals of the source, against correctly rounded hardware
    divisions. *)
Example literals_agree_with_hardware :
  forallb (λ '(a, b), float_eqb (lit (Z.pos a # b))
                        (float_of_prim (PrimFloat.div (prim_of_Z (Z.pos a))
                                                      (prim_of_Z (Z.pos b)))))
          [(7, 10); (4, 10); (2, 10); (8, 100); (12, 10); (8, 10); (6, 10); (14, 10)]%positive
  = true.
Proof. vm_compute. reflexivity. Qed.

(** * Further properties of the aggregator *)

Lemma get0_lookup_eq {K : Type} `{Countable K} (d d' : gmap K Z) :
  (∀ k, d !! k = d' !! k) → d = d'.
Proof. apply map_eq. Qed.

Lemma incr_lookup {K : Type} `{Countable K} (k : K) (v : Z) (d : gmap K Z) (k' : K) :
  incr k v d !! k' = if decide (k = k') then Some (get0 d k + v) else d !! k'.
Proof. unfold incr. rewrite lookup_insert. by case_decide. Qed.

Lemma incr_comm {K : Type} `{Countable K} (k k' : K) (v v' : Z) (d : gmap K Z) :
  incr k v (incr k' v' d) = incr k' v' (incr k v d).
Proof.
  apply map_eq. intros i. rewrite !incr_lookup, !get0_incr.
  repeat case_decide; subst; try congruence; f_equal; lia.
Qed.

Lemma merge_languages_lookup langs lang_totals l :
  merge_languages langs lang_totals !! l
  = match langs !! l with
    | Some v => Some (get0 lang_totals l + v)
    | None => lang_totals !! l
    end.
Proof.
  unfold merge_languages.
  apply (map_fold_weak_ind
           (λ acc (m : gmap string Z),
              acc !! l = match m !! l with
                         | Some v => Some (get0 lang_totals l + v)
                         | None => lang_totals !! l
                         end)).
  - by rewrite lookup_empty.
  - intros i x m acc Hi IH. rewrite incr_lookup, lookup_insert.
    case_decide as Hil; [|exact IH].
    subst i. f_equal. unfold get0. rewrite IH, Hi. reflexivity.
Qed.

Lemma merge_languages_comm a b acc :
  merge_languages a (merge_languages b acc) = merge_languages b (merge_languages a acc).
Proof.
  apply map_eq. intros l. rewrite !merge_languages_lookup, !merge_languages_get0.
  destruct (a !! l) as [x|] eqn:Ha, (b !! l) as [y|] eqn:Hb;
    unfold get0; rewrite ?Ha, ?Hb; simpl; try reflexivity; f_equal; lia.
Qed.

Lemma foldl_merge_Permutation up rs rs' :
  rs ≡ₚ rs' → ∀ acc,
  foldl (λ acc r, merge_languages (languages_of up r) acc) acc rs
  = foldl (λ acc r, merge_languages (languages_of up r) acc) acc rs'.
Proof.
  induction 1 as [|r rs rs' _ IH|r r' rs|rs rs' rs'' _ IH1 _ IH2]; intros acc; simpl.
  - reflexivity.
  - apply IH.
  - by rewrite merge_languages_comm.
  - by rewrite IH1, IH2.
Qed.

Lemma github_api_raises {A} (resp : Response A) (e : exn) :
  github_api resp = Raise e → resp = TransportError ∧ e = RequestException.
Proof.
  destruct resp as [|code json]; simpl; [by intros [= <-]|].
  destruct (code =? 200); discriminate.
Qed.

(** The repository loop returns exactly when the language query of every
    repository that is not a fork is answered. *)
Lemma repo_loop_answered up rest : ∀ lang_totals repo_data,
  (∀ r, r ∈ included rest → up_languages up (name_of r) ≠ TransportError) →
  repo_loop up rest lang_totals repo_data
  = Return (foldl (λ acc r, merge_languages (languages_of up r) acc)
                  lang_totals (included rest),
            repo_data ++ map (λ r, summarize r (languages_of up r)) (included rest)).
Proof.
  induction rest as [|repo rest IH]; intros lt rd Hup; simpl.
  - by rewrite app_nil_r.
  - unfold included in Hup. simpl in Hup.
    destruct (truthy (repo_fork repo)) eqn:Hfork; simpl in *; [apply IH, Hup|].
    destruct (github_api_total (up_languages up (name_of repo))) as [x Hx].
    { apply Hup. left. }
    rewrite Hx. simpl. rewrite IH.
    + rewrite (github_api_Return _ _ _ Hx). fold (languages_of up repo).
      by rewrite <- app_assoc.
    + intros r Hr. apply Hup. right. exact Hr.
Qed.

Lemma repo_loop_raises up rest : ∀ lang_totals repo_data e,
  repo_loop up rest lang_totals repo_data = Raise e →
  e = RequestException ∧
  ∃ r, r ∈ included rest ∧ up_languages up (name_of r) = TransportError.
Proof.
  induction rest as [|repo rest IH]; intros lt rd e; simpl; [discriminate|].
  unfold included. simpl.
  destruct (truthy (repo_fork repo)) eqn:Hfork; simpl.
  - intros Hloop. apply IH in Hloop as (-> & r & Hr & Hdown). eauto.
  - destruct (github_api (up_languages up (name_of repo))) as [x|e'] eqn:Hx; simpl.
    + intros Hloop. apply IH in Hloop as (-> & r & Hr & Hdown).
      split; [reflexivity|]. exists r. split; [right; exact Hr | exact Hdown].
    + intros [= <-]. apply github_api_raises in Hx as [Hdown ->].
      split; [reflexivity|]. exists repo. split; [left | exact Hdown].
Qed.

Lemma github_api_answered {A} (resp : Response A) (x : option A) :
  github_api resp = Return x → resp ≠ TransportError.
Proof. destruct resp; [discriminate | intros _; discriminate]. Qed.

Lemma repo_loop_Return_answered up rest : ∀ lang_totals repo_data x,
  repo_loop up rest lang_totals repo_data = Return x →
  ∀ r, r ∈ included rest → up_languages up (name_of r) ≠ TransportError.
Proof.
  induction rest as [|repo rest IH]; intros lt rd x; simpl.
  - intros _ r Hr. by apply elem_of_nil in Hr.
  - unfold included. simpl.
    destruct (truthy (repo_fork repo)) eqn:Hfork; simpl; [apply IH|].
    intros Hloop. apply bind_Return in Hloop as (y & Hy & Hloop).
    intros r Hr. apply elem_of_cons in Hr as [->|Hr].
    + by apply github_api_answered in Hy.
    + exact (IH _ _ _ Hloop r Hr).
Qed.

Lemma repo_loop_agree up up' rest : ∀ lang_totals repo_data,
  (∀ r, r ∈ included rest → up_languages up (name_of r) = up_languages up' (name_of r)) →
  repo_loop up rest lang_totals repo_data = repo_loop up' rest lang_totals repo_data.
Proof.
  induction rest as [|repo rest IH]; intros lt rd Heq; simpl; [reflexivity|].
  unfold included in Heq. simpl in Heq.
  destruct (truthy (repo_fork repo)) eqn:Hfork; simpl in Heq; [apply IH, Heq|].
  rewrite <- (Heq repo) by left.
  destruct (github_api _); simpl; [|reflexivity].
  apply IH. intros r Hr. apply Heq. right. exact Hr.
Qed.

Section aggregator_more.

Variable fromisoformat : string → option datetime.

Lemma fetch_user_data_answered up :
  queries_answered up →
  let rs := included (body_or (up_repos up) []) in
  let act := event_loop fromisoformat (body_or (up_events up) []) in
  let repo_data := map (λ r, summarize r (languages_of up r)) rs in
  fetch_user_data fromisoformat up
  = Return {| user := body_or (up_user up) ∅;
              repos := repo_data;
              languages := foldl (λ acc r, merge_languages (languages_of up r) acc) ∅ rs;
              daily_activity := act_daily act;
              hourly_activity := act_hourly act;
              event_types := act_types act;
              total_repos := Z.of_nat (length repo_data);
              total_stars := sum_Z (rs_stars <$> repo_data) |}.
Proof.
  intros (Huser & Hrepos & Hlangs & Hevents). simpl. unfold fetch_user_data.
  destruct (github_api_total _ Huser) as [u Hu].
  destruct (github_api_total _ Hrepos) as [r Hr].
  destruct (github_api_total _ Hevents) as [e He].
  rewrite Hu. simpl. rewrite Hr. simpl.
  rewrite (github_api_Return _ _ _ Hr), repo_loop_answered by exact Hlangs.
  simpl. rewrite He. simpl.
  by rewrite (github_api_Return _ _ _ Hu), (github_api_Return _ _ _ He).
Qed.

Lemma returns_answered up :
  (∃ d, fetch_user_data fromisoformat up = Return d) → queries_answered up.
Proof.
  intros [d Hd]. unfold fetch_user_data in Hd.
  apply bind_Return in Hd as (u & Hu & Hd).
  apply bind_Return in Hd as (r & Hr & Hd).
  apply bind_Return in Hd as ([lt rd] & Hloop & Hd).
  apply bind_Return in Hd as (ev & He & _).
  split; [by apply github_api_answered in Hu|].
  split; [by apply github_api_answered in Hr|].
  split; [|by apply github_api_answered in He].
  rewrite (github_api_Return _ _ _ Hr) in Hloop.
  exact (repo_loop_Return_answered _ _ _ _ _ Hloop).
Qed.

(** X1. The aggregator returns exactly when every query it issues is
    answered, of whatever status, and the only exception it raises is the
    one of [requests.get]. *)
Theorem returns_iff_queries_answered (up : Upstream) :
  (queries_answered up ↔ ∃ d, fetch_user_data fromisoformat up = Return d) ∧
  (∀ e, fetch_user_data fromisoformat up = Raise e → e = RequestException).
Proof.
  assert (Hraise : ∀ e, fetch_user_data fromisoformat up = Raise e →
                        e = RequestException ∧ ¬ queries_answered up).
  { intros e. unfold fetch_user_data.
    destruct (github_api (up_user up)) as [u|e1] eqn:Hu; simpl.
    2:{ intros [= <-]. apply github_api_raises in Hu as [Hu ->].
        split; [reflexivity|]. intros (H1 & _). contradiction. }
    destruct (github_api (up_repos up)) as [r|e2] eqn:Hr; simpl.
    2:{ intros [= <-]. apply github_api_raises in Hr as [Hr ->].
        split; [reflexivity|]. intros (_ & H2 & _). contradiction. }
    destruct (repo_loop up (or_else r []) ∅ []) as [[lt rd]|e3] eqn:Hloop; simpl.
    2:{ intros [= <-]. apply repo_loop_raises in Hloop as (-> & repo & Hin & Hdown).
        split; [reflexivity|]. intros (_ & _ & H3 & _).
        rewrite (github_api_Return _ _ _ Hr) in Hin. exact (H3 repo Hin Hdown). }
    destruct (github_api (up_events up)) as [ev|e4] eqn:He; simpl; [discriminate|].
    intros [= <-]. apply github_api_raises in He as [He ->].
    split; [reflexivity|]. intros (_ & _ & _ & H4). contradiction. }
  split; [|intros e He; apply (Hraise e He)].
  split.
  - intros Hup. eexists. by apply fetch_user_data_answered.
  - apply returns_answered.
Qed.

(** X2. The language breakdown is requested for the repositories that are
    not forks and for nothing else: two upstreams that agree on the three
    other queries and on those breakdowns give the same run, whatever the
    other language queries would answer. *)
Theorem languages_queried_for_own_repositories (up up' : Upstream) :
  up_user up = up_user up' → up_repos up = up_repos up' → up_events up = up_events up' →
  (∀ r, r ∈ included (body_or (up_repos up) []) →
        up_languages up (name_of r) = up_languages up' (name_of r)) →
  fetch_user_data fromisoformat up = fetch_user_data fromisoformat up'.
Proof.
  intros Hu Hr He Hl. unfold fetch_user_data. rewrite <- Hu, <- Hr, <- He.
  destruct (github_api (up_user up)) as [u|]; simpl; [|reflexivity].
  destruct (github_api (up_repos up)) as [r|] eqn:Hrepos; simpl; [|reflexivity].
  rewrite (repo_loop_agree up up'); [reflexivity|].
  by rewrite (github_api_Return _ _ _ Hrepos).
Qed.

Lemma foldl_merge_lookup up rs l : ∀ acc,
  is_Some (foldl (λ acc r, merge_languages (languages_of up r) acc) acc rs !! l)
  ↔ is_Some (acc !! l) ∨ ∃ r, r ∈ rs ∧ is_Some (languages_of up r !! l).
Proof.
  induction rs as [|r rs IH]; intros acc; simpl.
  - split; [by left|]. intros [H|(r & Hr & _)]; [exact H|]. by apply elem_of_nil in Hr.
  - rewrite IH, merge_languages_lookup. split.
    + intros [H|(r' & Hr' & Hl)].
      * destruct (languages_of up r !! l) as [v|] eqn:Hv; [|by left].
        right. exists r. split; [left|]. by rewrite Hv.
      * right. exists r'. split; [by right | exact Hl].
    + intros [H|(r' & Hr' & Hl)].
      * left. destruct (languages_of up r !! l); [done | exact H].
      * apply elem_of_cons in Hr' as [->|Hr'].
        -- left. destruct Hl as [v Hv]. by rewrite Hv.
        -- right. eauto.
Qed.

(** X3. The keys of [languages] are the languages that occur in the
    breakdown of some repository that is not a fork, also those listed
    with zero bytes; a key is never dropped. *)
Theorem languages_keys (up : Upstream) (d : ProfileStats) :
  fetch_user_data fromisoformat up = Return d →
  ∀ l, is_Some (languages d !! l)
       ↔ ∃ r, r ∈ included (body_or (up_repos up) []) ∧
              is_Some (languages_of up r !! l).
Proof.
  intros Hd l. apply fetch_user_data_Return in Hd.
  destruct Hd as (_ & _ & -> & _). rewrite foldl_merge_lookup, lookup_empty.
  split; [intros [[v Hv]|H]; [discriminate | exact H] | by right].
Qed.

Lemma included_Permutation rs rs' : rs ≡ₚ rs' → included rs ≡ₚ included rs'.
Proof.
  unfold included.
  induction 1 as [|r rs rs' _ IH|r r' rs|rs rs' rs'' _ IH1 _ IH2]; simpl.
  - reflexivity.
  - destruct (negb _); [by constructor | exact IH].
  - destruct (negb (truthy (repo_fork r))), (negb (truthy (repo_fork r')));
      try reflexivity. apply perm_swap.
  - by etransitivity.
Qed.

Lemma sum_Z_Permutation l l' : l ≡ₚ l' → sum_Z l = sum_Z l'.
Proof. induction 1; simpl; lia. Qed.

(** X4. The order in which the repositories are listed does not matter for
    the totals: a permuted list gives the same byte count for every
    language, the same [total_repos] and [total_stars] and the same
    activity, and the same summaries up to their order. *)
Theorem repository_order_irrelevant (up : Upstream) (rs rs' : list Repo)
    (d : ProfileStats) :
  rs ≡ₚ rs' →
  fetch_user_data fromisoformat (with_repos up rs) = Return d →
  ∃ d', fetch_user_data fromisoformat (with_repos up rs') = Return d' ∧
        languages d' = languages d ∧
        total_repos d' = total_repos d ∧
        total_stars d' = total_stars d ∧
        repos d' ≡ₚ repos d ∧
        user d' = user d ∧
        daily_activity d' = daily_activity d ∧
        hourly_activity d' = hourly_activity d ∧
        event_types d' = event_types d.
Proof.
  intros Hp Hd.
  assert (Hq : queries_answered (with_repos up rs)).
  { apply returns_answered. eauto. }
  assert (Hq' : queries_answered (with_repos up rs')).
  { destruct Hq as (H1 & H2 & H3 & H4). repeat split; try assumption; [discriminate|].
    simpl in *. intros r Hr. apply H3. by rewrite (included_Permutation _ _ Hp). }
  rewrite (fetch_user_data_answered _ Hq) in Hd. apply Return_inj in Hd. subst d.
  eexists. split; [exact (fetch_user_data_answered _ Hq')|]. simpl.
  pose proof (included_Permutation _ _ Hp) as Hi.
  assert (Hrepos : map (λ r, summarize r (languages_of (with_repos up rs') r)) (included rs')
                   ≡ₚ map (λ r, summarize r (languages_of (with_repos up rs) r)) (included rs)).
  { change (languages_of (with_repos up rs')) with (languages_of (with_repos up rs)).
    symmetry. by apply Permutation_map. }
  split.
  { change (languages_of (with_repos up rs')) with (languages_of (with_repos up rs)).
    symmetry. by apply foldl_merge_Permutation. }
  split; [by rewrite Hrepos|].
  split; [apply sum_Z_Permutation; by rewrite Hrepos|].
  split; [exact Hrepos|]. repeat split.
Qed.

Lemma event_step_parsed acc e :
  event_step fromisoformat acc e
  = {| act_daily := match parsed fromisoformat e with
                    | Some dt => incr (strftime_Ymd dt) 1 (act_daily acc)
                    | None => act_daily acc
                    end;
       act_hourly := match parsed fromisoformat e with
                     | Some dt => incr (dt_hour dt) 1 (act_hourly acc)
                     | None => act_hourly acc
                     end;
       act_types := incr (type_label e) 1 (act_types acc) |}.
Proof.
  unfold event_step, parsed, type_label.
  destruct (default "" (event_created_at e)) as [|c rest]; [reflexivity|].
  destruct (fromisoformat _); reflexivity.
Qed.

Lemma event_step_comm acc e e' :
  event_step fromisoformat (event_step fromisoformat acc e) e'
  = event_step fromisoformat (event_step fromisoformat acc e') e.
Proof.
  rewrite !event_step_parsed. simpl.
  destruct (parsed fromisoformat e), (parsed fromisoformat e'); f_equal;
    try reflexivity; apply incr_comm.
Qed.

Lemma fold_event_step_Permutation events events' :
  events ≡ₚ events' → ∀ acc,
  fold_left (event_step fromisoformat) events acc
  = fold_left (event_step fromisoformat) events' acc.
Proof.
  induction 1 as [|e es es' _ IH|e e' es|es es' es'' _ IH1 _ IH2]; intros acc; simpl.
  - reflexivity.
  - apply IH.
  - by rewrite event_step_comm.
  - by rewrite IH1, IH2.
Qed.

(** X5. The three activity counters do not depend on the order of the
    events: a permuted list gives the same count under every key. *)
Theorem event_order_irrelevant (events events' : list Event) :
  events ≡ₚ events' →
  event_loop fromisoformat events = event_loop fromisoformat events'.
Proof. intros Hp. unfold event_loop. by apply fold_event_step_Permutation. Qed.

Lemma fold_event_step_daily events day : ∀ acc,
  get0 (act_daily (fold_left (event_step fromisoformat) events acc)) day
  = get0 (act_daily acc) day
    + Z.of_nat (length (List.filter (on_day fromisoformat day) events)).
Proof.
  induction events as [|e events IH]; intros acc; simpl; [lia|].
  rewrite IH, event_step_parsed. simpl. unfold on_day.
  destruct (parsed fromisoformat e) as [dt|]; [|lia].
  rewrite get0_incr. case_decide as Hday.
  - rewrite bool_decide_eq_true_2 by exact Hday. simpl length. lia.
  - rewrite bool_decide_eq_false_2 by exact Hday. lia.
Qed.

Lemma fold_event_step_hourly events hour : ∀ acc,
  get0 (act_hourly (fold_left (event_step fromisoformat) events acc)) hour
  = get0 (act_hourly acc) hour
    + Z.of_nat (length (List.filter (at_hour fromisoformat hour) events)).
Proof.
  induction events as [|e events IH]; intros acc; simpl; [lia|].
  rewrite IH, event_step_parsed. simpl. unfold at_hour.
  destruct (parsed fromisoformat e) as [dt|]; [|lia].
  rewrite get0_incr. case_decide as Hh.
  - rewrite bool_decide_eq_true_2 by exact Hh. simpl length. lia.
  - rewrite bool_decide_eq_false_2 by exact Hh. lia.
Qed.

(** Every value stored by the event loop is at least 1. *)
Lemma fold_event_step_positive events : ∀ acc,
  map_Forall (λ _ v, 1 ≤ v) (act_daily acc) →
  map_Forall (λ _ v, 1 ≤ v) (act_hourly acc) →
  map_Forall (λ _ v, 1 ≤ v) (act_types acc) →
  let act := fold_left (event_step fromisoformat) events acc in
  map_Forall (λ _ v, 1 ≤ v) (act_daily act) ∧
  map_Forall (λ _ v, 1 ≤ v) (act_hourly act) ∧
  map_Forall (λ _ v, 1 ≤ v) (act_types act).
Proof.
  induction events as [|e events IH]; intros acc Hd Hh Ht; simpl; [done|].
  assert (Hincr : ∀ (K : Type) `(Countable K) (k : K) (m : gmap K Z),
            map_Forall (λ _ v, 1 ≤ v) m → map_Forall (λ _ v, 1 ≤ v) (incr k 1 m)).
  { intros K ? ? k m Hm. unfold incr. apply map_Forall_insert_2; [|exact Hm].
    unfold get0. destruct (m !! k) as [v|] eqn:Hv; simpl; [|lia].
    specialize (Hm k v Hv). simpl in Hm. lia. }
  apply IH; rewrite event_step_parsed; simpl.
  - destruct (parsed fromisoformat e); [by apply Hincr | exact Hd].
  - destruct (parsed fromisoformat e); [by apply Hincr | exact Hh].
  - by apply Hincr.
Qed.

(** X6. [daily_activity] holds, for each day, the number of events whose
    timestamp parses to that day, and [hourly_activity], for each hour,
    the number of events whose timestamp parses to that hour; a day or an
    hour without such an event has no entry, and no entry is zero. *)
Theorem activity_counts_per_key (events : list Event) :
  let act := event_loop fromisoformat events in
  (∀ day, get0 (act_daily act) day
          = Z.of_nat (length (List.filter (on_day fromisoformat day) events))) ∧
  (∀ hour, get0 (act_hourly act) hour
           = Z.of_nat (length (List.filter (at_hour fromisoformat hour) events))) ∧
  (∀ day, is_Some (act_daily act !! day)
          ↔ ∃ e, e ∈ events ∧ on_day fromisoformat day e = true) ∧
  (∀ hour, is_Some (act_hourly act !! hour)
           ↔ ∃ e, e ∈ events ∧ at_hour fromisoformat hour e = true) ∧
  map_Forall (λ _ v, 1 ≤ v) (act_daily act) ∧
  map_Forall (λ _ v, 1 ≤ v) (act_hourly act) ∧
  map_Forall (λ _ v, 1 ≤ v) (act_types act).
Proof.
  cbv zeta. unfold event_loop.
  set (init := {| act_daily := ∅; act_hourly := ∅; act_types := ∅ |}).
  destruct (fold_event_step_positive events init) as (Pd & Ph & Pt);
    [apply map_Forall_empty..|].
  assert (Hd : ∀ day, get0 (act_daily (fold_left (event_step fromisoformat) events init)) day
                      = Z.of_nat (length (List.filter (on_day fromisoformat day) events))).
  { intros day. rewrite fold_event_step_daily. simpl. rewrite get0_empty. lia. }
  assert (Hh : ∀ hour, get0 (act_hourly (fold_left (event_step fromisoformat) events init)) hour
                      = Z.of_nat (length (List.filter (at_hour fromisoformat hour) events))).
  { intros hour. rewrite fold_event_step_hourly. simpl. rewrite get0_empty. lia. }
  assert (Hkey : ∀ (K : Type) `(Countable K) (m : gmap K Z) (k : K) (p : Event → bool),
            map_Forall (λ _ v, 1 ≤ v) m →
            get0 m k = Z.of_nat (length (List.filter p events)) →
            (is_Some (m !! k) ↔ ∃ e, e ∈ events ∧ p e = true)).
  { intros K ? ? m k p Hm Hk. unfold get0 in Hk. split.
    - intros [v Hv]. rewrite Hv in Hk. simpl in Hk. specialize (Hm k v Hv). simpl in Hm.
      destruct (List.filter p events) as [|e rest] eqn:Hf; [simpl in Hk; lia|].
      assert (Hin : In e (List.filter p events)) by (rewrite Hf; left; reflexivity).
      apply filter_In in Hin as [Hin Hp]. exists e. split; [by apply list_elem_of_In | exact Hp].
    - intros (e & He & Hp). destruct (m !! k) as [v|]; [eauto|]. simpl in Hk.
      assert (Hin : In e (List.filter p events)).
      { apply filter_In. split; [by apply list_elem_of_In | exact Hp]. }
      destruct (List.filter p events); [contradiction | simpl in Hk; lia]. }
  split; [exact Hd|]. split; [exact Hh|].
  split; [intros day; by apply Hkey|].
  split; [intros hour; by apply Hkey|].
  done.
Qed.

End aggregator_more.

(** * Further properties of the renderers *)

(** ** Sorting *)

Section sorting.
Context {A : Type} (key : A → Z).

Lemma insert_desc_Permutation (x : A) (l : list A) : insert_desc key x l ≡ₚ x :: l.
Proof.
  induction l as [|y l IH]; simpl; [reflexivity|].
  destruct (key y <=? key x); [reflexivity|].
  rewrite IH. apply perm_swap.
Qed.

Lemma sort_desc_Permutation (l : list A) : sort_desc key l ≡ₚ l.
Proof.
  induction l as [|x l IH]; simpl; [reflexivity|].
  rewrite insert_desc_Permutation. by constructor.
Qed.

Lemma insert_desc_sorted (x : A) (l : list A) :
  StronglySorted (desc key) l → StronglySorted (desc key) (insert_desc key x l).
Proof.
  induction 1 as [|y l Hl IH Hy]; simpl; [repeat constructor|].
  destruct (Z.leb_spec (key y) (key x)) as [Hle|Hlt].
  - constructor; [by constructor|]. constructor; [exact Hle|].
    eapply Forall_impl; [exact Hy|]. unfold desc. simpl. intros z Hz. lia.
  - constructor; [exact IH|].
    rewrite insert_desc_Permutation. constructor; [unfold desc; lia | exact Hy].
Qed.

Lemma sort_desc_sorted (l : list A) : StronglySorted (desc key) (sort_desc key l).
Proof.
  induction l as [|x l IH]; simpl; [constructor|]. by apply insert_desc_sorted.
Qed.

(** Items with the same key keep the order they had. *)
Lemma insert_desc_stable (k : Z) (x : A) (l : list A) :
  StronglySorted (desc key) l →
  List.filter (λ a, key a =? k) (insert_desc key x l)
  = List.filter (λ a, key a =? k) (x :: l).
Proof.
  induction 1 as [|y l Hl IH Hy]; [reflexivity|]. simpl insert_desc.
  destruct (Z.leb_spec (key y) (key x)) as [Hle|Hlt]; [reflexivity|].
  cbn [List.filter]. rewrite IH. cbn [List.filter].
  destruct (Z.eqb_spec (key x) k), (Z.eqb_spec (key y) k); simpl; try reflexivity. lia.
Qed.

Lemma sort_desc_stable (k : Z) (l : list A) :
  List.filter (λ a, key a =? k) (sort_desc key l) = List.filter (λ a, key a =? k) l.
Proof.
  induction l as [|x l IH]; [reflexivity|]. simpl sort_desc.
  rewrite insert_desc_stable by apply sort_desc_sorted.
  simpl. by rewrite IH.
Qed.

Lemma sorted_take_drop (l : list A) (n : nat) :
  StronglySorted (desc key) l →
  ∀ a b, a ∈ take n l → b ∈ drop n l → key b ≤ key a.
Proof.
  intros Hl. revert n. induction Hl as [|y l Hl IH Hy]; intros n a b.
  - rewrite take_nil. intros Ha. by apply elem_of_nil in Ha.
  - destruct n as [|n]; simpl.
    + intros Ha. by apply elem_of_nil in Ha.
    + intros Ha Hb. apply elem_of_cons in Ha as [->|Ha]; [|by apply (IH n)].
      rewrite Forall_forall in Hy. apply Hy.
      eapply elem_of_submseteq; [exact Hb | apply submseteq_drop].
Qed.

End sorting.

Lemma insert_by_size_insert_desc (r : RepoSummary) (l : list RepoSummary) :
  insert_by_size r l = insert_desc rs_size r l.
Proof. induction l as [|r' l IH]; simpl; [reflexivity|]. by rewrite IH. Qed.

Lemma sorted_by_size_sort_desc (rs : list RepoSummary) :
  sorted_by_size rs = sort_desc rs_size rs.
Proof.
  induction rs as [|r rs IH]; simpl; [reflexivity|].
  by rewrite IH, insert_by_size_insert_desc.
Qed.

(** ** Repo Skyline *)

Section skyline_more.
Import Binary64.
Local Open Scope Q_scope.

Lemma skyline_repos_take (rs : list RepoSummary) :
  rs ≠ [] → skyline_repos rs = take 18 (sort_desc rs_size rs).
Proof.
  intros Hrs. unfold skyline_repos. rewrite sorted_by_size_sort_desc.
  pose proof (Permutation_length (sort_desc_Permutation rs_size rs)) as Hlen.
  destruct (sort_desc rs_size rs) as [|s0 sorted]; [|reflexivity].
  destruct rs; [contradiction | discriminate Hlen].
Qed.

Lemma skyline_repos_sorted (rs : list RepoSummary) :
  StronglySorted (desc rs_size) (skyline_repos rs).
Proof.
  destruct (decide (rs = [])) as [->|Hrs]; [repeat constructor|].
  rewrite (skyline_repos_take rs Hrs).
  pose proof (sort_desc_sorted rs_size rs) as Hsorted.
  rewrite <- (take_drop 18 (sort_desc rs_size rs)) in Hsorted.
  by apply StronglySorted_app_1_l in Hsorted.
Qed.

(** X7. The skyline shows the eighteen largest repositories, larger ones
    first; every repository left out is no larger than any one shown.
    Repositories of equal size keep the order received, whatever their
    number: those of each size are, in that order, the ones shown of that
    size followed by the ones left out of that size. Without repositories
    it shows the placeholder. *)
Theorem skyline_shows_the_largest (rs : list RepoSummary) :
  let drawn := skyline_repos rs in
  (1 ≤ length drawn ≤ 18)%nat ∧
  StronglySorted (desc rs_size) drawn ∧
  (rs = [] → drawn = [no_repos]) ∧
  (rs ≠ [] →
   length drawn = Nat.min 18 (length rs) ∧
   ∃ rest, drawn ++ rest ≡ₚ rs ∧
           (∀ a b, a ∈ drawn → b ∈ rest → (rs_size b ≤ rs_size a)%Z) ∧
           ∀ k, List.filter (λ r, rs_size r =? k)%Z rs
                = List.filter (λ r, rs_size r =? k)%Z drawn
                  ++ List.filter (λ r, rs_size r =? k)%Z rest) ∧
  (∀ k, (length rs ≤ 18)%nat → rs ≠ [] →
        List.filter (λ r, rs_size r =? k)%Z drawn = List.filter (λ r, rs_size r =? k)%Z rs).
Proof.
  cbv zeta.
  pose proof (sort_desc_Permutation rs_size rs) as Hperm.
  pose proof (sort_desc_sorted rs_size rs) as Hsorted.
  pose proof (Permutation_length Hperm) as Hlen.
  destruct (decide (rs = [])) as [->|Hrs].
  - simpl. repeat split; try lia; try done. repeat constructor.
  - rewrite (skyline_repos_take rs Hrs).
    split; [rewrite length_take, Hlen; destruct rs; [contradiction | simpl length; lia]|].
    split.
    { rewrite <- (take_drop 18 (sort_desc rs_size rs)) in Hsorted.
      by apply StronglySorted_app_1_l in Hsorted. }
    split; [contradiction|].
    split.
    { intros _. split; [rewrite length_take, Hlen; reflexivity|].
      exists (drop 18 (sort_desc rs_size rs)). split; [by rewrite take_drop|].
      split; [intros a b; by apply sorted_take_drop|].
      intros k. rewrite <- List.filter_app, take_drop. symmetry. apply sort_desc_stable. }
    intros k Hshort _. rewrite take_ge by (rewrite Hlen; exact Hshort).
    apply sort_desc_stable.
Qed.

Lemma mapM_Return_Forall2 {A B : Type} (f : A → result B) (l : list A) (ys : list B) :
  Forall2 (λ x y, f x = Return y) l ys → mapM f l = Return ys.
Proof.
  induction 1 as [|x y l ys Hxy _ IH]; [reflexivity|].
  cbn [mapM]. rewrite Hxy, bind_Return_l.
  change (mapM f l ≫= (λ k, Return (y :: k)) = Return (y :: ys)).
  by rewrite IH.
Qed.

Lemma Forall2_total {A B : Type} (P : A → B → Prop) (l : list A) :
  Forall (λ x, ∃ y, P x y) l → ∃ ys, Forall2 P l ys.
Proof.
  induction 1 as [|x l [y Hy] _ [ys Hys]]; [by exists []|].
  exists (y :: ys). by constructor.
Qed.

Lemma max_size_of_ge (drawn : list RepoSummary) :
  Forall (λ r, (rs_size r ≤ max_size_of drawn)%Z) drawn.
Proof.
  pose proof (max_list_ge (rs_size <$> drawn)) as Hmax.
  rewrite Forall_fmap in Hmax. unfold max_size_of.
  destruct (Z.eqb_spec (max_list (rs_size <$> drawn)) 0) as [H0|_]; [|exact Hmax].
  eapply Forall_impl; [exact Hmax|]. cbv beta. intros r Hr. unfold compose in Hr. lia.
Qed.

Lemma max_list_head (x : Z) (l : list Z) :
  Forall (λ y, y ≤ x)%Z l → max_list (x :: l) = x.
Proof.
  simpl. induction 1 as [|y l Hy _ IH]; simpl; [reflexivity|].
  by rewrite Z.max_l.
Qed.

Lemma max_list_elem (x : Z) (l : list Z) : max_list (x :: l) ∈ x :: l.
Proof.
  simpl. revert x. induction l as [|y l IH]; intros x; simpl; [left|].
  destruct (Z.max_spec x y) as [[_ ->]|[_ ->]].
  - right. apply IH.
  - specialize (IH x). apply elem_of_cons in IH as [->|IH]; [left | right; by right].
Qed.

Lemma round_25 : round 25 = Finite 25.
Proof. vm_compute. reflexivity. Qed.
Lemma round_145 : round 145 = Finite 145.
Proof. vm_compute. reflexivity. Qed.
Lemma round_170 : round 170 = Finite 170.
Proof. vm_compute. reflexivity. Qed.
Lemma round_25_0 : round (25 + 0) = Finite 25.
Proof. vm_compute. reflexivity. Qed.
Lemma round_25_145 : round (25 + 145) = Finite 170.
Proof. vm_compute. reflexivity. Qed.
Lemma round_1_145 : round (1 * 145) = Finite 145.
Proof. vm_compute. reflexivity. Qed.

(** The height of a building whose size is between 0 and the largest. *)
Lemma building_height_range (drawn : list RepoSummary) (size : Z) :
  (0 ≤ size ≤ max_size_of drawn)%Z →
  ∃ h, building_height drawn size = Return (Finite h) ∧ 25 <= h ∧ h <= 170.
Proof.
  intros Hsize. unfold building_height.
  assert (Hpos : (0 < max_size_of drawn)%Z).
  { pose proof (max_size_of_nonzero drawn). lia. }
  destruct (round_between 0 1 (inject_Z size / inject_Z (max_size_of drawn)) 0 1
              round_0 round_1) as (u & Hu & Hu0 & Hu1).
  { apply (Zquot_le 0 1); lia. }
  { apply (Zquot_le _ _ 1 1); lia. }
  rewrite (truediv_Finite _ _ u) by (lia || exact Hu).
  rewrite bind_Return_l. unfold lit. rewrite round_25, round_145, fmul_Finite.
  destruct (round_between 0 145 (u * 145) 0 145 round_0 round_145)
    as (v & Hv & Hv0 & Hv1); [lra..|].
  rewrite Hv, fadd_Finite.
  destruct (round_between (25 + 0) (25 + 145) (25 + v) 25 170 round_25_0 round_25_145)
    as (h & Hh & Hh0 & Hh1); [lra..|].
  rewrite Hh. eauto.
Qed.

Lemma round_le (x y qx qy : Q) :
  x <= y → round x = Finite qx → round y = Finite qy → qx <= qy.
Proof.
  intros Hxy Hx Hy. apply round_mono in Hxy. rewrite Hx, Hy in Hxy.
  by apply fle_Finite in Hxy.
Qed.

(** The height of a building is monotone in its size. *)
Lemma building_height_mono (drawn : list RepoSummary) (a b : Z) (ha hb : Q) :
  (0 < max_size_of drawn)%Z → (a ≤ b)%Z →
  building_height drawn a = Return (Finite ha) →
  building_height drawn b = Return (Finite hb) →
  ha <= hb.
Proof.
  intros Hpos Hab Ha Hb. unfold building_height in *.
  apply bind_Return in Ha as (ua & Hua & Ha). apply Return_inj in Ha.
  apply bind_Return in Hb as (ub & Hub & Hb). apply Return_inj in Hb.
  apply truediv_Return in Hua as (_ & qa & -> & Hqa).
  apply truediv_Return in Hub as (_ & qb & -> & Hqb).
  unfold lit in Ha, Hb. rewrite round_25, round_145, fmul_Finite in Ha, Hb.
  assert (Hq : qa <= qb).
  { refine (round_le _ _ _ _ _ Hqa Hqb). apply Zquot_le; nia. }
  destruct (round (qa * 145)) as [va| |] eqn:Hva; try discriminate Ha.
  destruct (round (qb * 145)) as [vb| |] eqn:Hvb; try discriminate Hb.
  assert (Hv : va <= vb) by (refine (round_le _ _ _ _ _ Hva Hvb); lra).
  rewrite fadd_Finite in Ha, Hb.
  refine (round_le _ _ _ _ _ Ha Hb). lra.
Qed.

(** The largest building has height 170. *)
Lemma building_height_max (drawn : list RepoSummary) :
  (0 < max_size_of drawn)%Z →
  building_height drawn (max_size_of drawn) = Return (Finite 170).
Proof.
  intros Hpos. unfold building_height.
  rewrite (truediv_Finite _ _ 1).
  - rewrite bind_Return_l. unfold lit. rewrite round_25, round_145, fmul_Finite.
    rewrite round_1_145, fadd_Finite. by rewrite round_25_145.
  - lia.
  - rewrite <- round_1. apply round_proper. field.
    apply inject_Z_nonzero. lia.
Qed.

Lemma skyline_repos_elem (rs : list RepoSummary) (r : RepoSummary) :
  r ∈ skyline_repos rs → r ∈ rs ∨ r = no_repos.
Proof.
  destruct (decide (rs = [])) as [->|Hrs].
  - simpl. intros Hr. apply list_elem_of_singleton in Hr. by right.
  - rewrite (skyline_repos_take rs Hrs). intros Hr. left.
    rewrite <- (sort_desc_Permutation rs_size rs).
    eapply elem_of_submseteq; [exact Hr | apply submseteq_take].
Qed.

Lemma StronglySorted_Forall2 {A B : Type} (R : A → A → Prop) (S : B → B → Prop)
    (P : A → B → Prop) (l : list A) (k : list B) :
  (∀ a a' b b', R a a' → P a b → P a' b' → S b b') →
  Forall2 P l k → StronglySorted R l → StronglySorted S k.
Proof.
  intros HS HP. induction HP as [|a b l k Hab HP IH]; intros Hl; [constructor|].
  apply StronglySorted_inv in Hl as [Hl Ha]. constructor; [by apply IH|].
  clear IH Hl. induction HP as [|a' b' l k Hab' HP IH]; [constructor|].
  apply Forall_cons in Ha as [Haa' Ha]. constructor; [by eapply HS | by apply IH].
Qed.

Lemma skyline_repos_length (rs : list RepoSummary) :
  (1 ≤ length (skyline_repos rs) ≤ 18)%nat.
Proof.
  destruct (decide (rs = [])) as [->|Hrs]; [simpl; lia|].
  rewrite (skyline_repos_take rs Hrs), length_take.
  rewrite (Permutation_length (sort_desc_Permutation rs_size rs)).
  destruct rs; [contradiction | simpl length; lia].
Qed.

Lemma building_width_length (drawn drawn' : list RepoSummary) :
  length drawn = length drawn' → building_width drawn = building_width drawn'.
Proof. intros Hlen. unfold building_width. by rewrite Hlen. Qed.

Lemma layout_checked : forallb layout_ok (seq 1 18) = true.
Proof. vm_compute. reflexivity. Qed.

Lemma layout_ok_drawn (drawn : list RepoSummary) :
  (1 ≤ length drawn ≤ 18)%nat → layout_ok (length drawn) = true.
Proof.
  intros Hn. pose proof layout_checked as Hall. rewrite forallb_forall in Hall.
  apply Hall, in_seq. lia.
Qed.

Lemma building_width_Return (drawn : list RepoSummary) :
  (1 ≤ length drawn ≤ 18)%nat →
  ∃ w, building_width drawn = Return (Finite w) ∧ 34 <= w ∧ w <= 36.
Proof.
  intros Hn. pose proof (layout_ok_drawn drawn Hn) as Hok. unfold layout_ok in Hok.
  rewrite (building_width_length drawn (replicate (length drawn) no_repos))
    by (by rewrite length_replicate).
  destruct (building_width _) as [[w| |]|]; try discriminate Hok.
  destruct (start_x _) as [[x0| |]|]; try discriminate Hok.
  apply andb_prop in Hok as [Hok _]. apply andb_prop in Hok as [Hok _].
  apply andb_prop in Hok as [H34 H36].
  apply Qle_bool_iff in H34, H36. eauto.
Qed.

(** X8. For repositories whose sizes are not negative the skyline renders:
    one building per repository shown, every height between 25 and 170
    as the source says, heights falling from left to right, and the first
    building 170 high when its repository has a size above zero. *)
Theorem skyline_heights (rs : list RepoSummary) :
  (∀ r, r ∈ rs → (0 ≤ rs_size r)%Z) →
  ∃ hs, generate_repo_skyline rs = Return hs ∧
        Forall2 (λ r h, building_height (skyline_repos rs) (rs_size r) = Return h)
                (skyline_repos rs) hs ∧
        Forall (λ h, fle (of_int 25) h = true ∧ fle h (of_int 170) = true) hs ∧
        StronglySorted (λ a b, fle b a = true) hs ∧
        (∀ r, head (skyline_repos rs) = Some r → (0 < rs_size r)%Z →
              head hs = Some (of_int 170)).
Proof.
  intros Hsizes. unfold generate_repo_skyline.
  pose proof (skyline_repos_nonempty rs) as Hne.
  pose proof (skyline_repos_sorted rs) as Hsorted.
  pose proof (skyline_repos_length rs) as Hlen.
  assert (Hnonneg : Forall (λ r, (0 ≤ rs_size r)%Z) (skyline_repos rs)).
  { apply Forall_forall. intros r Hr.
    apply skyline_repos_elem in Hr as [Hr| ->]; [by apply Hsizes | simpl; lia]. }
  generalize dependent (skyline_repos rs). intros drawn Hne Hsorted Hlen Hnonneg.
  pose proof (max_size_of_ge drawn) as Hmax.
  assert (Hpos : (0 < max_size_of drawn)%Z).
  { pose proof (max_size_of_nonzero drawn) as Hnz.
    destruct drawn as [|r0 rest]; [contradiction|].
    apply Forall_cons in Hmax as [H0 _]. apply Forall_cons in Hnonneg as [H1 _]. lia. }
  set (P := λ (r : RepoSummary) (h : float),
              ∃ q, h = Finite q ∧ 25 <= q ∧ q <= 170 ∧
                   building_height drawn (rs_size r) = Return (Finite q)).
  assert (Hall : Forall (λ r, ∃ h, P r h) drawn).
  { rewrite Forall_forall in Hnonneg, Hmax. apply Forall_forall. intros r Hr.
    destruct (building_height_range drawn (rs_size r)) as (h & Hh & H25 & H170).
    - split; [by apply Hnonneg | by apply Hmax].
    - exists (Finite h), h. eauto. }
  destruct (Forall2_total _ _ Hall) as (hs & Hhs).
  assert (Hret : Forall2 (λ r h, building_height drawn (rs_size r) = Return h) drawn hs).
  { eapply Forall2_impl; [exact Hhs|]. intros r h (q & -> & _ & _ & Hq). exact Hq. }
  exists hs.
  destruct (building_width_Return drawn Hlen) as (w & Hw & _).
  split; [rewrite Hw, bind_Return_l; by apply mapM_Return_Forall2|].
  split; [exact Hret|].
  split.
  { eapply Forall2_Forall_r; [exact Hhs|]. apply Forall_forall.
    intros r _ h (q & -> & H25 & H170 & _). unfold of_int, lit.
    change (inject_Z 25) with 25. change (inject_Z 170) with 170.
    rewrite round_25, round_170. split; apply fle_Finite; assumption. }
  split.
  { apply (StronglySorted_Forall2 (desc rs_size) _ P drawn hs); [|exact Hhs|exact Hsorted].
    intros a a' h h' Haa' (q & -> & _ & _ & Hq) (q' & -> & _ & _ & Hq').
    apply fle_Finite. by apply (building_height_mono drawn (rs_size a') (rs_size a)). }
  intros r Hhead Hr.
  inversion Hhs as [|r0 h0 rest hs' (q & -> & _ & _ & Hq) _ Hd Hh]; subst drawn;
    [discriminate Hhead|].
  simpl in Hhead. injection Hhead as ->. simpl. f_equal.
  assert (Hr0 : rs_size r = max_size_of (r :: rest)).
  { apply StronglySorted_inv in Hsorted as [_ Hle].
    unfold max_size_of. rewrite fmap_cons, (max_list_head (rs_size r) (rs_size <$> rest)).
    - destruct (Z.eqb_spec (rs_size r) 0); lia.
    - apply Forall_fmap. exact Hle. }
  rewrite Hr0, building_height_max in Hq by exact Hpos.
  apply Return_inj in Hq. rewrite <- Hq. unfold of_int, lit.
  change (inject_Z 170) with 170. by rewrite round_170.
Qed.

Lemma start_x_length (drawn drawn' : list RepoSummary) :
  length drawn = length drawn' → start_x drawn = start_x drawn'.
Proof.
  intros Hlen. unfold start_x, total_buildings_width.
  by rewrite Hlen, (building_width_length drawn drawn' Hlen).
Qed.

Lemma building_x_length (drawn drawn' : list RepoSummary) (i : Z) :
  length drawn = length drawn' → building_x drawn i = building_x drawn' i.
Proof.
  intros Hlen. unfold building_x.
  by rewrite (start_x_length drawn drawn' Hlen), (building_width_length drawn drawn' Hlen).
Qed.

(** X9. The buildings fit the card, whatever the repositories: each is
    between 34 and 36 wide, the first starts at 40 or further right, each
    ends before the next one starts, and the last ends left of 768, the
    end of the ground line. *)
Theorem skyline_layout (rs : list RepoSummary) :
  let drawn := skyline_repos rs in
  ∃ w x0, building_width drawn = Return (Finite w) ∧
          start_x drawn = Return (Finite x0) ∧
          34 <= w ∧ w <= 36 ∧ 40 <= x0 ∧
          ∀ i, (i < length drawn)%nat →
               ∃ x x', building_x drawn (Z.of_nat i) = Return (Finite x) ∧
                       building_x drawn (Z.of_nat i + 1) = Return (Finite x') ∧
                       40 <= x ∧ x + w < x' ∧ x + w <= 768.
Proof.
  cbv zeta. pose proof (skyline_repos_length rs) as Hlen.
  generalize dependent (skyline_repos rs). intros drawn Hlen.
  pose proof (layout_ok_drawn drawn Hlen) as Hok. unfold layout_ok in Hok.
  assert (Hsame : length drawn = length (replicate (length drawn) no_repos))
    by (by rewrite length_replicate).
  rewrite <- (building_width_length drawn _ Hsame), <- (start_x_length drawn _ Hsame) in Hok.
  destruct (building_width drawn) as [[w| |]|]; try discriminate Hok.
  destruct (start_x drawn) as [[x0| |]|]; try discriminate Hok.
  apply andb_prop in Hok as [Hok Hall]. apply andb_prop in Hok as [Hok H40].
  apply andb_prop in Hok as [H34 H36].
  apply Qle_bool_iff in H34, H36, H40.
  exists w, x0. repeat split; try assumption.
  intros i Hi. rewrite forallb_forall in Hall.
  specialize (Hall i ltac:(apply in_seq; lia)).
  rewrite <- !(building_x_length drawn _ _ Hsame) in Hall.
  destruct (building_x drawn (Z.of_nat i)) as [[x| |]|]; try discriminate Hall.
  destruct (building_x drawn (Z.of_nat i + 1)) as [[x'| |]|]; try discriminate Hall.
  apply andb_prop in Hall as [Hall Hnext]. apply andb_prop in Hall as [Hx Hright].
  apply Qle_bool_iff in Hx, Hright. apply Bool.negb_true_iff, Qle_bool_false in Hnext.
  exists x, x'. repeat split; assumption.
Qed.

End skyline_more.

(** ** Code DNA *)

Lemma total_nonneg_get0 (d : gmap string Z) :
  map_Forall (λ _ v, 0 ≤ v) d → ∀ k, 0 ≤ get0 d k ≤ total d.
Proof.
  induction d as [|i x m Hi IH] using map_ind; intros Hd k.
  - rewrite get0_empty. pose proof (total_empty (K:=string)) as Ht. lia.
  - apply map_Forall_insert in Hd as [Hx Hm]; [|exact Hi].
    specialize (IH Hm). rewrite total_insert_fresh by exact Hi.
    unfold get0 at 1 2. rewrite lookup_insert. case_decide; simpl.
    + specialize (IH k). lia.
    + specialize (IH k). unfold get0 in IH. lia.
Qed.

Section dna_more.
Import Binary64.
Local Open Scope Q_scope.

Lemma round_100 : round 100 = Finite 100.
Proof. vm_compute. reflexivity. Qed.
Lemma round_1_100 : round (1 * 100) = Finite 100.
Proof. vm_compute. reflexivity. Qed.

(** X10. With byte counts that are not negative, the percentage of every
    language in the legend is a float between 0 and 100, and it is 100
    for a language that has all the bytes. *)
Theorem legend_percentage_range (languages : gmap string Z) :
  map_Forall (λ _ v, (0 ≤ v)%Z) languages →
  ∀ lang bytes_count, languages !! lang = Some bytes_count →
    ∃ pct, dna_share languages bytes_count = Return (Finite pct) ∧
           0 <= pct ∧ pct <= 100 ∧
           (bytes_count = total languages → (0 < bytes_count)%Z → pct == 100).
Proof.
  intros Hnonneg lang b Hb.
  pose proof (total_nonneg_get0 languages Hnonneg lang) as Hle.
  unfold get0 in Hle. rewrite Hb in Hle. simpl in Hle.
  unfold dna_share.
  assert (Htotal : (0 < total_bytes_of languages)%Z ∧ (b ≤ total_bytes_of languages)%Z).
  { unfold total_bytes_of. destruct (Z.eqb_spec (total languages) 0); lia. }
  destruct Htotal as [Hpos Hbt].
  destruct (round_between 0 1 (inject_Z b / inject_Z (total_bytes_of languages)) 0 1
              round_0 round_1) as (u & Hu & Hu0 & Hu1).
  { apply (Zquot_le 0 1); lia. }
  { apply (Zquot_le _ _ 1 1); lia. }
  rewrite (truediv_Finite _ _ u) by (lia || exact Hu).
  rewrite bind_Return_l. unfold lit. rewrite round_100, fmul_Finite.
  destruct (round_between 0 (1 * 100) (u * 100) 0 100 round_0 round_1_100)
    as (p & Hp & Hp0 & Hp1); [lra..|].
  rewrite Hp. exists p. repeat split; try assumption.
  intros Hall Hbpos.
  assert (Hone : inject_Z b / inject_Z (total_bytes_of languages) == 1).
  { unfold total_bytes_of. rewrite <- Hall.
    destruct (Z.eqb_spec b 0); [lia|]. field. apply inject_Z_nonzero. lia. }
  rewrite (round_proper _ _ Hone), round_1 in Hu. injection Hu as <-.
  rewrite round_1_100 in Hp. injection Hp as <-. reflexivity.
Qed.

End dna_more.

Lemma to_le_bytes_bytes (k : nat) : ∀ n,
  length (to_le_bytes k n) = k ∧ Forall (λ b, 0 ≤ b < 256) (to_le_bytes k n).
Proof.
  induction k as [|k IH]; intros n; simpl; [split; [reflexivity | constructor]|].
  destruct (IH (n / 256)) as [Hlen Hall]. split; [by rewrite Hlen|].
  constructor; [|exact Hall]. apply Z.mod_pos_bound. lia.
Qed.

Lemma md5_bytes (bs : list Z) :
  length (md5 bs) = 16%nat ∧ Forall (λ b, 0 ≤ b < 256) (md5 bs).
Proof.
  unfold md5. destruct (md5_blocks _ _ _) as [[[a b] c] d].
  rewrite !length_app, !Forall_app.
  destruct (to_le_bytes_bytes 4 a) as [-> ?], (to_le_bytes_bytes 4 b) as [-> ?],
           (to_le_bytes_bytes 4 c) as [-> ?], (to_le_bytes_bytes 4 d) as [-> ?].
  done.
Qed.

Lemma hex_digit_checked :
  forallb (λ n, is_lower_hex (hex_digit n) && (hex_value (hex_digit n) =? n)) (Zrange 0 16)
  = true.
Proof. vm_compute. reflexivity. Qed.

Lemma hex_digit_lower (n : Z) :
  0 ≤ n < 16 → is_lower_hex (hex_digit n) = true ∧ hex_value (hex_digit n) = n.
Proof.
  intros Hn. pose proof hex_digit_checked as Hall. rewrite forallb_forall in Hall.
  specialize (Hall n). apply andb_prop in Hall as [H1 H2].
  - split; [exact H1 | by apply Z.eqb_eq].
  - apply list_elem_of_In, Zrange_elem. lia.
Qed.

Lemma hexdigest_shape (bs : list Z) :
  Forall (λ b, 0 ≤ b < 256) bs →
  String.length (hexdigest bs) = (2 * length bs)%nat ∧
  forallb is_lower_hex (list_ascii_of_string (hexdigest bs)) = true.
Proof.
  induction 1 as [|b bs Hb _ [IHlen IHall]]; [done|]. simpl.
  destruct (hex_digit_lower (b / 16)) as [-> _].
  { split; [apply Z.div_pos; lia | apply Z.div_lt_upper_bound; lia]. }
  destruct (hex_digit_lower (b mod 16)) as [-> _]; [apply Z.mod_pos_bound; lia|].
  split; [rewrite IHlen; lia | exact IHall].
Qed.

(** Four digits of a digest read as a number give back the two bytes. *)
Lemma int_hex_two_bytes (b0 b1 : Z) (rest : list Z) :
  0 ≤ b0 < 256 → 0 ≤ b1 < 256 →
  int_hex (substring 0 4 (hexdigest (b0 :: b1 :: rest))) = 256 * b0 + b1.
Proof.
  intros H0 H1. simpl.
  destruct (hexdigest rest); simpl; unfold int_hex; simpl;
    destruct (hex_digit_lower (b0 / 16)) as [_ ->];
    try (split; [apply Z.div_pos; lia | apply Z.div_lt_upper_bound; lia]);
    destruct (hex_digit_lower (b0 mod 16)) as [_ ->]; try (apply Z.mod_pos_bound; lia);
    destruct (hex_digit_lower (b1 / 16)) as [_ ->];
    try (split; [apply Z.div_pos; lia | apply Z.div_lt_upper_bound; lia]);
    destruct (hex_digit_lower (b1 mod 16)) as [_ ->]; try (apply Z.mod_pos_bound; lia);
    pose proof (Z.div_mod b0 16); pose proof (Z.div_mod b1 16); lia.
Qed.

(** X11. The fingerprint is always 32 digits from [0-9a-f], so that
    [int(data_hash[:4], 16)] and [int(data_hash[4:8], 16)] cannot fail:
    they are the first two and the next two bytes of the MD5 digest, read
    as 16-bit numbers. *)
Theorem fingerprint_shape (languages : gmap string Z) :
  String.length (data_hash languages) = 32%nat ∧
  forallb is_lower_hex (list_ascii_of_string (data_hash languages)) = true ∧
  ∃ b0 b1 b2 b3 rest,
    md5 (bytes_of (json_dumps (sorted_items languages))) = b0 :: b1 :: b2 :: b3 :: rest ∧
    int_hex (slice_0_4 (data_hash languages)) = 256 * b0 + b1 ∧
    int_hex (slice_4_8 (data_hash languages)) = 256 * b2 + b3.
Proof.
  unfold data_hash, slice_0_4, slice_4_8.
  destruct (md5_bytes (bytes_of (json_dumps (sorted_items languages)))) as [Hlen Hall].
  destruct (hexdigest_shape _ Hall) as [Hl Hhex]. rewrite Hlen in Hl.
  split; [exact Hl|]. split; [exact Hhex|].
  destruct (md5 _) as [|b0 [|b1 [|b2 [|b3 rest]]]]; try discriminate Hlen.
  apply Forall_cons in Hall as [H0 Hall]. apply Forall_cons in Hall as [H1 Hall].
  apply Forall_cons in Hall as [H2 Hall]. apply Forall_cons in Hall as [H3 Hall].
  exists b0, b1, b2, b3, rest. split; [reflexivity|].
  split; [by apply int_hex_two_bytes|].
  change (substring 4 4 (hexdigest (b0 :: b1 :: b2 :: b3 :: rest)))
    with (substring 0 4 (hexdigest (b2 :: b3 :: rest))).
  by apply int_hex_two_bytes.
Qed.

(** *** The fingerprint *)

Lemma string_compare_Lt_trans (a : string) : ∀ b c,
  String.compare a b = Lt → String.compare b c = Lt → String.compare a c = Lt.
Proof.
  induction a as [|x a IH]; intros [|y b] [|z c]; simpl; try discriminate; try reflexivity.
  unfold Ascii.compare.
  destruct (N.compare_spec (N_of_ascii x) (N_of_ascii y)) as [Hxy|Hxy|Hxy];
    destruct (N.compare_spec (N_of_ascii y) (N_of_ascii z)) as [Hyz|Hyz|Hyz];
    try discriminate; intros Hab Hbc.
  - rewrite Hxy, Hyz, N.compare_refl. exact (IH b c Hab Hbc).
  - rewrite Hxy. apply N.compare_lt_iff in Hyz. by rewrite Hyz.
  - rewrite <- Hyz. apply N.compare_lt_iff in Hxy. by rewrite Hxy.
  - assert (Hxz : (N_of_ascii x < N_of_ascii z)%N) by lia.
    apply N.compare_lt_iff in Hxz. by rewrite Hxz.
Qed.

Lemma string_leb_trans (a b c : string) :
  String.leb a b = true → String.leb b c = true → String.leb a c = true.
Proof.
  unfold String.leb.
  destruct (String.compare a b) eqn:Hab; try discriminate;
    destruct (String.compare b c) eqn:Hbc; try discriminate; intros _ _.
  - apply String.compare_eq_iff in Hab. subst b. by rewrite Hbc.
  - apply String.compare_eq_iff in Hab. subst b. by rewrite Hbc.
  - apply String.compare_eq_iff in Hbc. subst c. by rewrite Hab.
  - by rewrite (string_compare_Lt_trans a b c Hab Hbc).
Qed.

Lemma insert_by_name_Permutation (x : string * Z) (l : list (string * Z)) :
  insert_by_name x l ≡ₚ x :: l.
Proof.
  induction l as [|y l IH]; simpl; [reflexivity|].
  destruct (String.leb x.1 y.1); [reflexivity|].
  rewrite IH. apply perm_swap.
Qed.

Lemma sorted_pairs_Permutation (l : list (string * Z)) : sorted_pairs l ≡ₚ l.
Proof.
  induction l as [|x l IH]; simpl; [reflexivity|].
  rewrite insert_by_name_Permutation. by constructor.
Qed.

Lemma insert_by_name_sorted (x : string * Z) (l : list (string * Z)) :
  StronglySorted by_name l → StronglySorted by_name (insert_by_name x l).
Proof.
  induction 1 as [|y l Hl IH Hy]; simpl; [repeat constructor|].
  destruct (String.leb x.1 y.1) eqn:Hxy.
  - constructor; [by constructor|]. constructor; [exact Hxy|].
    eapply Forall_impl; [exact Hy|]. unfold by_name. simpl. intros z Hz.
    by apply (string_leb_trans _ y.1).
  - constructor; [exact IH|].
    rewrite insert_by_name_Permutation. constructor; [|exact Hy].
    unfold by_name. destruct (String.leb_total x.1 y.1) as [H|H]; [congruence | exact H].
Qed.

Lemma sorted_pairs_sorted (l : list (string * Z)) : StronglySorted by_name (sorted_pairs l).
Proof.
  induction l as [|x l IH]; simpl; [constructor|]. by apply insert_by_name_sorted.
Qed.

Lemma NoDup_fst_functional {A B : Type} (l : list (A * B)) (x : A) (y1 y2 : B) :
  NoDup l.*1 → (x, y1) ∈ l → (x, y2) ∈ l → y1 = y2.
Proof.
  induction l as [|[a b] l IH]; simpl; intros Hnd H1 H2; [by apply elem_of_nil in H1|].
  apply NoDup_cons in Hnd as [Ha Hnd].
  apply elem_of_cons in H1 as [H1|H1]; apply elem_of_cons in H2 as [H2|H2].
  - congruence.
  - exfalso. apply Ha. apply list_elem_of_fmap. exists (x, y2).
    split; [simpl; congruence | exact H2].
  - exfalso. apply Ha. apply list_elem_of_fmap. exists (x, y1).
    split; [simpl; congruence | exact H1].
  - by apply IH.
Qed.

(** Sorting by name gives one list for all the orders of the same pairs,
    when no name occurs twice. *)
Lemma sorted_pairs_unique (l l' : list (string * Z)) :
  NoDup l.*1 → l ≡ₚ l' → sorted_pairs l = sorted_pairs l'.
Proof.
  intros Hnd Hp.
  apply (StronglySorted_unique_strong by_name); try apply sorted_pairs_sorted.
  - intros a b Ha Hb Hab Hba.
    rewrite sorted_pairs_Permutation in Ha.
    rewrite sorted_pairs_Permutation, <- Hp in Hb.
    pose proof (String.leb_antisym _ _ Hab Hba) as Hname.
    destruct a as [an av], b as [bn bv]. simpl in Hname. subst bn.
    f_equal. by apply (NoDup_fst_functional l an).
  - by rewrite !sorted_pairs_Permutation.
Qed.

(** X12. The fingerprint does not depend on the order in which the
    languages were inserted into the dict: the pairs are sorted by name
    before they are written and hashed. *)
Theorem fingerprint_ignores_insertion_order (items items' : list (string * Z)) :
  NoDup items.*1 → items ≡ₚ items' →
  data_hash_of_items items = data_hash_of_items items' ∧
  data_hash_of_items items = data_hash (list_to_map items).
Proof.
  intros Hnd Hp. unfold data_hash_of_items, data_hash, sorted_items.
  fold (sorted_pairs (map_to_list (list_to_map items : gmap string Z))).
  rewrite <- (sorted_pairs_unique items items' Hnd Hp).
  split; [reflexivity|].
  rewrite (sorted_pairs_unique (map_to_list (list_to_map items : gmap string Z)) items);
    [reflexivity | |by apply map_to_list_to_map].
  apply NoDup_fst_map_to_list.
Qed.

(** ** The text that is hashed *)

Lemma string_app_assoc (a b c : string) : ((a ++ b) ++ c = a ++ (b ++ c))%string.
Proof.
  induction a as [|x a IH]; [reflexivity|].
  change (String x ((a ++ b) ++ c) = String x (a ++ (b ++ c)))%string. by rewrite IH.
Qed.

Lemma json_unchar_char (c : ascii) (rest : string) :
  json_unchar (json_char c ++ rest) = Some (c, rest).
Proof. destruct c as [[] [] [] [] [] [] [] []]; reflexivity. Qed.

Lemma json_char_not_quote (c : ascii) (rest rest' : string) :
  (json_char c ++ rest)%string ≠ String quote rest'.
Proof. destruct c as [[] [] [] [] [] [] [] []]; discriminate. Qed.

(** A string body is read back up to the quote that closes it. *)
Lemma json_escape_inj (s : string) : ∀ s' r r',
  (json_escape s ++ String quote r = json_escape s' ++ String quote r')%string →
  s = s' ∧ r = r'.
Proof.
  induction s as [|c s IH]; intros [|c' s'] r r' Heq.
  - by injection Heq as ->.
  - exfalso. simpl json_escape in Heq. rewrite string_app_assoc in Heq.
    symmetry in Heq. exact (json_char_not_quote _ _ _ Heq).
  - exfalso. simpl json_escape in Heq. rewrite string_app_assoc in Heq.
    exact (json_char_not_quote _ _ _ Heq).
  - simpl json_escape in Heq. rewrite !string_app_assoc in Heq.
    assert (Hun := f_equal json_unchar Heq). rewrite !json_unchar_char in Hun.
    injection Hun as -> Hrest. destruct (IH _ _ _ Hrest) as [-> ->]. done.
Qed.

Lemma digit_is_digit (n : Z) :
  0 ≤ n → is_digit (digit n) = true ∧ Z.of_N (N_of_ascii (digit n)) - 48 = n mod 10.
Proof.
  intros Hn. unfold digit.
  pose proof (Z.mod_pos_bound n 10 ltac:(lia)) as Hm.
  assert (Hcases : n mod 10 = 0 ∨ n mod 10 = 1 ∨ n mod 10 = 2 ∨ n mod 10 = 3 ∨ n mod 10 = 4
                   ∨ n mod 10 = 5 ∨ n mod 10 = 6 ∨ n mod 10 = 7 ∨ n mod 10 = 8
                   ∨ n mod 10 = 9) by lia.
  destruct Hcases as [->|[->|[->|[->|[->|[->|[->|[->|[->| ->]]]]]]]]]; split; reflexivity.
Qed.

Lemma decimal_value_snoc (s : string) (c : ascii) :
  decimal_value (s ++ String c "") = 10 * decimal_value s + (Z.of_N (N_of_ascii c) - 48).
Proof.
  unfold decimal_value.
  assert (Happ : list_ascii_of_string (s ++ String c "") = list_ascii_of_string s ++ [c]).
  { induction s as [|x s IH]; [reflexivity|].
    change (x :: list_ascii_of_string (s ++ String c "") = x :: (list_ascii_of_string s ++ [c])).
    by rewrite IH. }
  by rewrite Happ, foldl_app.
Qed.

(** [digits_of] writes the decimal digits of a number in front of [acc]. *)
Lemma digits_of_spec (fuel : nat) : ∀ n acc,
  0 ≤ n < 10 ^ Z.of_nat (S fuel) →
  ∃ s, digits_of (S fuel) n acc = (s ++ acc)%string ∧ s ≠ "" ∧
       forallb is_digit (list_ascii_of_string s) = true ∧ decimal_value s = n.
Proof.
  induction fuel as [|fuel IH]; intros n acc Hn.
  - change (10 ^ Z.of_nat 1) with 10 in Hn. simpl.
    destruct (Z.ltb_spec n 10); [|lia].
    destruct (digit_is_digit n) as [Hd Hv]; [lia|].
    exists (String (digit n) ""). repeat split; [discriminate | by simpl; rewrite Hd|].
    unfold decimal_value. simpl. rewrite Hv, Z.mod_small; lia.
  - destruct (digit_is_digit n) as [Hd Hv]; [lia|].
    change (digits_of (S (S fuel)) n acc)
      with (if n <? 10 then String (digit n) acc
            else digits_of (S fuel) (n / 10) (String (digit n) acc)).
    destruct (Z.ltb_spec n 10).
    + exists (String (digit n) ""). repeat split; [discriminate | by simpl; rewrite Hd|].
      unfold decimal_value. simpl. rewrite Hv, Z.mod_small; lia.
    + destruct (IH (n / 10) (String (digit n) acc)) as (s & Hs & Hne & Hall & Hval).
      { split; [apply Z.div_pos; lia|]. apply Z.div_lt_upper_bound; [lia|].
        rewrite (Nat2Z.inj_succ (S fuel)), Z.pow_succ_r in Hn by lia. lia. }
      exists (s ++ String (digit n) "")%string. rewrite Hs. split; [|split; [|split]].
      * by rewrite string_app_assoc.
      * destruct s; [contradiction | discriminate].
      * assert (Happ : list_ascii_of_string (s ++ String (digit n) "")
                       = list_ascii_of_string s ++ [digit n]).
        { clear. induction s as [|x s IH]; [reflexivity|].
          change (x :: list_ascii_of_string (s ++ String (digit n) "")
                  = x :: (list_ascii_of_string s ++ [digit n])).
          by rewrite IH. }
        rewrite Happ, forallb_app, Hall. simpl. by rewrite Hd.
      * rewrite decimal_value_snoc, Hval, Hv. pose proof (Z.div_mod n 10). lia.
Qed.

Lemma log2_fuel (n : Z) : 0 ≤ n → n < 10 ^ Z.of_nat (S (Z.to_nat (Z.log2 n))).
Proof.
  intros Hn. destruct (Z.eq_dec n 0) as [->|Hnz]; [reflexivity|].
  pose proof (Z.log2_nonneg n) as Hlog.
  destruct (Z.log2_spec n ltac:(lia)) as [_ Hhi].
  rewrite Nat2Z.inj_succ, Z2Nat.id by lia.
  apply (Z.lt_le_trans _ _ _ Hhi). apply Z.pow_le_mono_l. lia.
Qed.

(** [str(n)] is an optional minus sign and decimal digits that denote the
    magnitude. *)
Lemma str_of_int_spec (n : Z) :
  ∃ s, s ≠ "" ∧ forallb is_digit (list_ascii_of_string s) = true ∧
       decimal_value s = Z.abs n ∧
       str_of_int n = if n <? 0 then String "-" s else s.
Proof.
  unfold str_of_int. destruct (Z.ltb_spec n 0) as [Hneg|Hpos].
  - destruct (digits_of_spec (Z.to_nat (Z.log2 (- n))) (- n) "") as (s & Hs & Hne & Hall & Hv).
    { split; [lia | apply log2_fuel; lia]. }
    exists s. rewrite Nat.add_1_r, Hs.
    assert (Hnil : (s ++ "")%string = s).
    { clear. induction s as [|x s IH]; [reflexivity|].
      change (String x (s ++ "") = String x s). by rewrite IH. }
    rewrite Hnil. repeat split; try assumption. lia.
  - destruct (digits_of_spec (Z.to_nat (Z.log2 n)) n "") as (s & Hs & Hne & Hall & Hv).
    { split; [lia | apply log2_fuel; lia]. }
    exists s. rewrite Nat.add_1_r, Hs.
    assert (Hnil : (s ++ "")%string = s).
    { clear. induction s as [|x s IH]; [reflexivity|].
      change (String x (s ++ "") = String x s). by rewrite IH. }
    rewrite Hnil. repeat split; try assumption. lia.
Qed.

(** Digits followed by a closing bracket are read back up to the bracket. *)
Lemma digits_then_bracket (s : string) : ∀ s' r r',
  forallb is_digit (list_ascii_of_string s) = true →
  forallb is_digit (list_ascii_of_string s') = true →
  (s ++ String "]" r = s' ++ String "]" r')%string → s = s' ∧ r = r'.
Proof.
  induction s as [|c s IH]; intros [|c' s'] r r' Hs Hs' Heq.
  - by injection Heq as ->.
  - injection Heq as <- _. discriminate Hs'.
  - injection Heq as -> _. discriminate Hs.
  - injection Heq as -> Heq. simpl in Hs, Hs'.
    apply andb_prop in Hs as [_ Hs]. apply andb_prop in Hs' as [_ Hs'].
    destruct (IH _ _ _ Hs Hs' Heq) as [-> ->]. done.
Qed.

Lemma str_of_int_inj (n n' : Z) (r r' : string) :
  (str_of_int n ++ String "]" r = str_of_int n' ++ String "]" r')%string →
  n = n' ∧ r = r'.
Proof.
  destruct (str_of_int_spec n) as (s & Hne & Hs & Hv & ->).
  destruct (str_of_int_spec n') as (s' & Hne' & Hs' & Hv' & ->).
  destruct (Z.ltb_spec n 0), (Z.ltb_spec n' 0); intros Heq.
  - injection Heq as Heq. destruct (digits_then_bracket _ _ _ _ Hs Hs' Heq) as [-> ->].
    split; [lia | reflexivity].
  - exfalso. destruct s' as [|c' s']; [contradiction|]. injection Heq as <- _.
    discriminate Hs'.
  - exfalso. destruct s as [|c s]; [contradiction|]. injection Heq as -> _.
    discriminate Hs.
  - destruct (digits_then_bracket _ _ _ _ Hs Hs' Heq) as [-> ->].
    split; [lia | reflexivity].
Qed.

Lemma json_pair_unfold (item : string * Z) (r : string) :
  (json_pair item ++ r)%string
  = String "[" (String quote
      (json_escape item.1
       ++ String quote (String "," (String " " (str_of_int item.2 ++ String "]" r))))).
Proof.
  unfold json_pair, json_string.
  change (("[" ++ String quote (json_escape item.1 ++ String quote "")
           ++ ", " ++ str_of_int item.2 ++ "]") ++ r)%string
    with (String "[" (String quote
            (((json_escape item.1 ++ String quote "")
              ++ String "," (String " " (str_of_int item.2 ++ "]"))) ++ r)))%string.
  do 2 f_equal. rewrite !string_app_assoc. f_equal.
  change (String quote (String "," (String " " ((str_of_int item.2 ++ "]") ++ r)))
          = String quote (String "," (String " " (str_of_int item.2 ++ String "]" r))))%string.
  do 3 f_equal. by rewrite string_app_assoc.
Qed.

Lemma json_pair_inj (item item' : string * Z) (r r' : string) :
  (json_pair item ++ r = json_pair item' ++ r')%string → item = item' ∧ r = r'.
Proof.
  rewrite !json_pair_unfold. intros Heq. injection Heq as Heq.
  apply json_escape_inj in Heq as [Hname Heq]. injection Heq as Heq.
  apply str_of_int_inj in Heq as [Hval ->].
  split; [|reflexivity]. destruct item, item'. simpl in *. congruence.
Qed.

Lemma json_join_cons (item : string * Z) (rest : list (string * Z)) :
  json_join (item :: rest)
  = (json_pair item ++ match rest with
                       | [] => ""
                       | _ => String "," (String " " (json_join rest))
                       end)%string.
Proof.
  destruct rest as [|item' rest]; [|reflexivity].
  simpl. generalize (json_pair item). intros s.
  induction s as [|x s IH]; [reflexivity|].
  change (String x s = String x (s ++ ""))%string. by rewrite <- IH.
Qed.

Lemma json_join_inj (items : list (string * Z)) : ∀ items' r r',
  (json_join items ++ String "]" r = json_join items' ++ String "]" r')%string →
  items = items' ∧ r = r'.
Proof.
  induction items as [|item rest IH]; intros [|item' rest'] r r'.
  - simpl. by intros [= ->].
  - rewrite json_join_cons, string_app_assoc, json_pair_unfold. discriminate.
  - rewrite json_join_cons, string_app_assoc, json_pair_unfold. discriminate.
  - rewrite !json_join_cons, !string_app_assoc. intros Heq.
    apply json_pair_inj in Heq as [-> Heq].
    destruct rest as [|x rest], rest' as [|x' rest'].
    + by injection Heq as ->.
    + discriminate Heq.
    + discriminate Heq.
    + injection Heq as Heq. destruct (IH (x' :: rest') r r' Heq) as [-> ->]. done.
Qed.

(** X13. The text that is hashed can be read back: two lists of pairs
    with the same JSON text are the same list, and two language dicts
    with the same text are the same dict. Different profiles can share a
    fingerprint only through a collision of MD5. *)
Theorem hashed_text_determines_languages :
  (∀ items items', json_dumps items = json_dumps items' → items = items') ∧
  (∀ languages languages' : gmap string Z,
     json_dumps (sorted_items languages) = json_dumps (sorted_items languages') →
     languages = languages').
Proof.
  assert (Hinj : ∀ items items', json_dumps items = json_dumps items' → items = items').
  { intros items items'. unfold json_dumps. intros Heq. injection Heq as Heq.
    by apply json_join_inj in Heq as [-> _]. }
  split; [exact Hinj|].
  intros m m' Heq. apply Hinj in Heq.
  assert (Hback : ∀ m : gmap string Z, m = list_to_map (sorted_items m)).
  { intros m0. apply list_to_map_flip. unfold sorted_items.
    symmetry. apply (sorted_pairs_Permutation (map_to_list m0)). }
  rewrite (Hback m), (Hback m'). by rewrite Heq.
Qed.

Lemma list_index_in_range {A : Type} (l : list A) (k : Z) :
  0 ≤ k < Z.of_nat (length l) → ∃ x, list_index l k = Some x ∧ x ∈ l.
Proof.
  intros Hk. unfold list_index.
  destruct (Z.leb_spec 0 k); [|lia]. destruct (Z.ltb_spec k (Z.of_nat (length l))); [|lia].
  simpl. destruct (lookup_lt_is_Some_2 l (Z.to_nat k)) as [x Hx]; [lia|].
  exists x. split; [exact Hx | by eapply list_elem_of_lookup_2].
Qed.

(** X14. The language of a rung or of a dot is always defined: the index
    is taken modulo the number of languages shown, so it never runs past
    the list, the languages repeat with that period, and without
    languages the name is "Other". *)
Theorem point_language_defined (items : list (string * Z)) (k : Z) :
  let sorted_langs := dna_sorted_langs items in
  let n := Z.of_nat (length sorted_langs) in
  (length sorted_langs ≤ 8)%nat ∧
  ∃ name, language_of_point sorted_langs k = Some name ∧
          (items = [] → name = "Other") ∧
          (items ≠ [] → name ∈ items.*1 ∧
                        language_of_point sorted_langs (k + n) = Some name).
Proof.
  cbv zeta. unfold dna_sorted_langs.
  pose proof (sort_desc_Permutation snd items) as Hperm.
  split; [rewrite length_take; lia|].
  destruct items as [|item items]; [exists "Other"; done|].
  pose proof (Permutation_length Hperm) as Hlen.
  destruct (sort_desc snd (item :: items)) as [|s0 sorted] eqn:Hs; [discriminate Hlen|].
  change (take 8 (s0 :: sorted)) with (s0 :: take 7 sorted).
  set (sl := s0 :: take 7 sorted).
  assert (Hn : 0 < Z.of_nat (length sl)) by (unfold sl; simpl length; lia).
  destruct (list_index_in_range sl (k mod Z.of_nat (length sl))) as (x & Hx & Hin);
    [by apply Z.mod_pos_bound|].
  exists x.1. unfold language_of_point. fold sl.
  change (match sl with [] => Some "Other" | _ :: _ => ?y end) with y.
  split; [by rewrite Hx|]. split; [discriminate|]. intros _. split.
  - apply list_elem_of_fmap. exists x. split; [reflexivity|].
    rewrite <- Hperm. change sl with (take 8 (s0 :: sorted)) in Hin.
    eapply elem_of_submseteq; [exact Hin | apply submseteq_take].
  - replace ((k + Z.of_nat (length sl)) mod Z.of_nat (length sl))
      with (k mod Z.of_nat (length sl)); [by rewrite Hx|].
    rewrite <- (Z.mul_1_l (Z.of_nat (length sl))) at 2.
    rewrite Z.mod_add; [reflexivity | lia].
Qed.

Section helix.
Import Binary64.
Local Open Scope Q_scope.

Lemma round_32 : round 32 = Finite 32.
Proof. vm_compute. reflexivity. Qed.
Lemma round_736 : round 736 = Finite 736.
Proof. vm_compute. reflexivity. Qed.
Lemma round_1_736 : round (1 * 736) = Finite 736.
Proof. vm_compute. reflexivity. Qed.
Lemma round_32_0 : round (32 + 0) = Finite 32.
Proof. vm_compute. reflexivity. Qed.
Lemma round_32_736 : round (32 + 736) = Finite 768.
Proof. vm_compute. reflexivity. Qed.

Lemma helix_x_Return (i : Z) (x : Q) :
  helix_x i = Return (Finite x) →
  ∃ t v, round (inject_Z i / 60) = Finite t ∧ round (t * 736) = Finite v ∧
         round (32 + v) = Finite x.
Proof.
  unfold helix_x. intros Hx. apply bind_Return in Hx as (u & Hu & Hx).
  apply Return_inj in Hx. apply truediv_Return in Hu as (_ & t & -> & Ht).
  unfold of_int, lit in Hx. change (inject_Z 32) with 32 in Hx.
  change (inject_Z 736) with 736 in Hx. rewrite round_32, round_736, fmul_Finite in Hx.
  destruct (round (t * 736)) as [v| |] eqn:Hv; try discriminate Hx.
  rewrite fadd_Finite in Hx. exists t, v. auto.
Qed.

(** X15. The sixty-one points of the helix run from left to right across
    the card: the abscissa of point 0 is 32, that of point 60 is 768, and
    a later point is never left of an earlier one. *)
Theorem helix_spans_the_card :
  helix_x 0 = Return (of_int 32) ∧ helix_x 60 = Return (of_int 768) ∧
  (∀ i, (0 ≤ i ≤ 60)%Z → ∃ x, helix_x i = Return (Finite x) ∧ 32 <= x ∧ x <= 768) ∧
  (∀ i j xi xj, (i ≤ j)%Z → helix_x i = Return (Finite xi) → helix_x j = Return (Finite xj) →
                xi <= xj).
Proof.
  split; [vm_compute; reflexivity|]. split; [vm_compute; reflexivity|]. split.
  - intros i Hi. unfold helix_x.
    destruct (round_between 0 1 (inject_Z i / inject_Z 60) 0 1 round_0 round_1)
      as (t & Ht & Ht0 & Ht1).
    { apply (Zquot_le 0 1); lia. }
    { apply (Zquot_le _ _ 1 1); lia. }
    rewrite (truediv_Finite _ _ t) by (lia || exact Ht). rewrite bind_Return_l.
    unfold of_int, lit. change (inject_Z 32) with 32. change (inject_Z 736) with 736.
    rewrite round_32, round_736, fmul_Finite.
    destruct (round_between 0 (1 * 736) (t * 736) 0 736 round_0 round_1_736)
      as (v & Hv & Hv0 & Hv1); [lra..|].
    rewrite Hv, fadd_Finite.
    destruct (round_between (32 + 0) (32 + 736) (32 + v) 32 768 round_32_0 round_32_736)
      as (x & Hx & Hx0 & Hx1); [lra..|].
    rewrite Hx. eauto.
  - intros i j xi xj Hij Hi Hj.
    apply helix_x_Return in Hi as (ti & vi & Hti & Hvi & Hxi).
    apply helix_x_Return in Hj as (tj & vj & Htj & Hvj & Hxj).
    assert (Ht : ti <= tj).
    { refine (round_le _ _ _ _ _ Hti Htj). apply (Zquot_le i 60 j 60); lia. }
    assert (Hv : vi <= vj) by (refine (round_le _ _ _ _ _ Hvi Hvj); lra).
    refine (round_le _ _ _ _ _ Hxi Hxj). lra.
Qed.

End helix.

(** ** Skill Tree *)

Lemma member_In (lang : string) (l : list string) : member lang l = true ↔ In lang l.
Proof.
  unfold member. rewrite existsb_exists. split.
  - intros (x & Hx & Heq). apply String.eqb_eq in Heq. by subst.
  - intros Hin. exists lang. split; [exact Hin | apply String.eqb_refl].
Qed.

(** No language is in two categories, and [all_categorized] holds the
    languages of the four. *)
Lemma in_one_category (lang : string) :
  let p (cat : nat) := member lang (nth cat (snd <$> categories) []) in
  (p 0%nat = true → p 1%nat = false ∧ p 2%nat = false ∧ p 3%nat = false) ∧
  (p 1%nat = true → p 2%nat = false ∧ p 3%nat = false) ∧
  (p 2%nat = true → p 3%nat = false) ∧
  member lang all_categorized = p 0%nat || p 1%nat || p 2%nat || p 3%nat.
Proof.
  cbv zeta. split; [|split; [|split]].
  - intros H0. apply member_In in H0. simpl in H0.
    repeat (destruct H0 as [<-|H0]; [vm_compute; done|]). contradiction.
  - intros H1. apply member_In in H1. simpl in H1.
    repeat (destruct H1 as [<-|H1]; [vm_compute; done|]). contradiction.
  - intros H2. apply member_In in H2. simpl in H2.
    repeat (destruct H2 as [<-|H2]; [vm_compute; done|]). contradiction.
  - change all_categorized
      with (nth 0 (snd <$> categories) [] ++ nth 1 (snd <$> categories) []
            ++ nth 2 (snd <$> categories) [] ++ nth 3 (snd <$> categories) [] ++ []).
    unfold member. rewrite !existsb_app. simpl existsb at 5.
    rewrite Bool.orb_false_r, !Bool.orb_assoc. reflexivity.
Qed.

Lemma List_filter_sublist {A : Type} (p : A → bool) (l : list A) :
  List.filter p l `sublist_of` l.
Proof.
  induction l as [|x l IH]; simpl; [constructor|].
  destruct (p x); by constructor.
Qed.

Lemma List_filter_elem {A : Type} (p : A → bool) (l : list A) (x : A) :
  x ∈ List.filter p l → p x = true.
Proof. intros Hx. apply list_elem_of_In, filter_In in Hx. tauto. Qed.

Lemma columns_Permutation (sorted_langs : list (string * Z)) :
  let col (cat : nat) :=
    List.filter (in_category (nth cat (snd <$> categories) [])) sorted_langs in
  col 0%nat ++ col 1%nat ++ col 2%nat ++ col 3%nat
  ++ List.filter uncategorized sorted_langs ≡ₚ sorted_langs.
Proof.
  cbv zeta. unfold in_category, uncategorized.
  induction sorted_langs as [|[lang b] sl IH]; [reflexivity|].
  cbn [List.filter fst].
  destruct (in_one_category lang) as (H0 & H1 & H2 & ->).
  destruct (member lang (nth 0 (snd <$> categories) [])) eqn:E0.
  { destruct (H0 eq_refl) as (-> & -> & ->). cbn [orb negb app]. by constructor. }
  destruct (member lang (nth 1 (snd <$> categories) [])) eqn:E1.
  { destruct (H1 eq_refl) as (-> & ->). cbn [orb negb app].
    rewrite <- Permutation_middle. by constructor. }
  destruct (member lang (nth 2 (snd <$> categories) [])) eqn:E2.
  { rewrite (H2 eq_refl). cbn [orb negb app].
    rewrite (app_assoc _ _ ((lang, b) :: _)), <- Permutation_middle, <- app_assoc.
    by constructor. }
  destruct (member lang (nth 3 (snd <$> categories) [])) eqn:E3; cbn [orb negb app].
  - rewrite !(app_assoc _ _ ((lang, b) :: _)), <- Permutation_middle, <- !app_assoc.
    by constructor.
  - rewrite !(app_assoc _ _ ((lang, b) :: _)), <- Permutation_middle, <- !app_assoc.
    by constructor.
Qed.

(** The columns, one after the other. *)
Lemma categorized_unfold (sorted_langs : list (string * Z)) :
  let column (name : string) (items : list (string * Z)) :=
    match items with [] => [] | _ => [(name, items)] end in
  let col (cat : nat) :=
    List.filter (in_category (nth cat (snd <$> categories) [])) sorted_langs in
  categorized sorted_langs
  = column "Frontend" (col 0%nat) ++ column "Backend" (col 1%nat)
    ++ column "Data & ML" (col 2%nat) ++ column "DevOps" (col 3%nat)
    ++ column "Other" (List.filter uncategorized sorted_langs).
Proof.
  cbv zeta. unfold categorized. cbn [categories omap list_omap fmap list_fmap nth snd].
  destruct (List.filter (in_category ["JavaScript"; "TypeScript"; "HTML"; "CSS";
                                      "SCSS"; "Vue"; "Svelte"; "Dart"]) _);
    destruct (List.filter (in_category ["Python"; "Java"; "Go"; "Rust"; "Ruby";
                                        "PHP"; "C#"; "Kotlin"; "Scala"; "Elixir";
                                        "Perl"; "C"; "C++"; "Haskell"]) _);
    destruct (List.filter (in_category ["Jupyter Notebook"; "R"; "Lua"]) _);
    destruct (List.filter (in_category ["Shell"; "Dockerfile"]) _);
    destruct (List.filter uncategorized _);
    reflexivity.
Qed.

(** X16. The Skill Tree puts every language into exactly one column: the
    column of the category that lists it, or [Other] when no category
    does. The columns keep the order of the sorted languages, none is
    empty, and they come in the order Frontend, Backend, Data & ML,
    DevOps, Other. *)
Theorem languages_partitioned_into_columns (sorted_langs : list (string * Z)) :
  let columns := categorized sorted_langs in
  concat (snd <$> columns) ≡ₚ sorted_langs ∧
  Forall (λ column, column.2 ≠ [] ∧ column.2 `sublist_of` sorted_langs) columns ∧
  Forall (λ column,
            ∀ item, item ∈ column.2 →
              (∃ cat_langs, (column.1, cat_langs) ∈ categories ∧
                            member item.1 cat_langs = true) ∨
              (column.1 = "Other" ∧ member item.1 all_categorized = false)) columns ∧
  (fst <$> columns) `sublist_of` ["Frontend"; "Backend"; "Data & ML"; "DevOps"; "Other"] ∧
  (columns = [] ↔ sorted_langs = []).
Proof.
  cbv zeta. pose proof (columns_Permutation sorted_langs) as Hperm.
  cbv beta zeta in Hperm. rewrite categorized_unfold. cbv beta zeta.
  assert (Hcol : ∀ (cat : nat) (name : string),
            (name, nth cat (snd <$> categories) []) ∈ categories →
            ∀ item, item ∈ List.filter (in_category (nth cat (snd <$> categories) []))
                                       sorted_langs →
              (∃ cat_langs, (name, cat_langs) ∈ categories ∧ member item.1 cat_langs = true) ∨
              (name = "Other" ∧ member item.1 all_categorized = false)).
  { intros cat name Hcat item Hitem. left. exists (nth cat (snd <$> categories) []).
    split; [exact Hcat | exact (List_filter_elem _ _ _ Hitem)]. }
  pose proof (Hcol 0%nat "Frontend" ltac:(apply list_elem_of_In; simpl; tauto)) as C0.
  pose proof (Hcol 1%nat "Backend" ltac:(apply list_elem_of_In; simpl; tauto)) as C1.
  pose proof (Hcol 2%nat "Data & ML" ltac:(apply list_elem_of_In; simpl; tauto)) as C2.
  pose proof (Hcol 3%nat "DevOps" ltac:(apply list_elem_of_In; simpl; tauto)) as C3.
  assert (Co : ∀ item, item ∈ List.filter uncategorized sorted_langs →
            (∃ cat_langs, ("Other", cat_langs) ∈ categories ∧ member item.1 cat_langs = true) ∨
            ("Other" = "Other" ∧ member item.1 all_categorized = false)).
  { intros item Hitem. right. split; [reflexivity|].
    apply List_filter_elem in Hitem. by apply Bool.negb_true_iff. }
  pose proof (List_filter_sublist (in_category (nth 0 (snd <$> categories) [])) sorted_langs)
    as S0.
  pose proof (List_filter_sublist (in_category (nth 1 (snd <$> categories) [])) sorted_langs)
    as S1.
  pose proof (List_filter_sublist (in_category (nth 2 (snd <$> categories) [])) sorted_langs)
    as S2.
  pose proof (List_filter_sublist (in_category (nth 3 (snd <$> categories) [])) sorted_langs)
    as S3.
  pose proof (List_filter_sublist uncategorized sorted_langs) as So.
  assert (Hempty : sorted_langs = [] →
            List.filter (in_category (nth 0 (snd <$> categories) [])) sorted_langs = [] ∧
            List.filter (in_category (nth 1 (snd <$> categories) [])) sorted_langs = [] ∧
            List.filter (in_category (nth 2 (snd <$> categories) [])) sorted_langs = [] ∧
            List.filter (in_category (nth 3 (snd <$> categories) [])) sorted_langs = [] ∧
            List.filter uncategorized sorted_langs = []) by (by intros ->).
  clear Hcol.
  revert Hperm S0 S1 S2 S3 So C0 C1 C2 C3 Co Hempty.
  generalize (List.filter (in_category (nth 0 (snd <$> categories) [])) sorted_langs)
             (List.filter (in_category (nth 1 (snd <$> categories) [])) sorted_langs)
             (List.filter (in_category (nth 2 (snd <$> categories) [])) sorted_langs)
             (List.filter (in_category (nth 3 (snd <$> categories) [])) sorted_langs)
             (List.filter uncategorized sorted_langs).
  intros c0 c1 c2 c3 co Hperm S0 S1 S2 S3 So C0 C1 C2 C3 Co Hempty.
  destruct c0 as [|x0 c0], c1 as [|x1 c1], c2 as [|x2 c2], c3 as [|x3 c3], co as [|xo co];
    cbn [fmap list_fmap snd fst concat app] in *; rewrite ?app_nil_r in *;
    cbn [app] in *;
    (split; [exact Hperm|]);
    (split; [repeat (apply Forall_cons_2; [split; [discriminate | assumption]|]);
             apply Forall_nil_2|]);
    (split; [repeat (apply Forall_cons_2; [assumption|]); apply Forall_nil_2|]);
    (split; [repeat first [apply sublist_nil_l | apply sublist_skip | apply sublist_cons]|]);
    (split; [try discriminate; intros _; by apply Permutation_nil in Hperm
            | intros Hsl; destruct (Hempty Hsl) as (? & ? & ? & ? & ?);
              try discriminate; reflexivity]).
Qed.

Lemma length_substring_0 (m : nat) (s : string) :
  String.length (substring 0 m s) = Nat.min m (String.length s).
Proof.
  revert m. induction s as [|c s IH]; intros [|m]; simpl; try reflexivity.
  by rewrite IH.
Qed.

Lemma substring_0_prefix (m : nat) (s : string) :
  ∃ rest, s = (substring 0 m s ++ rest)%string.
Proof.
  revert m. induction s as [|c s IH]; intros [|m]; simpl; eauto.
  destruct (IH m) as [rest Hrest]. exists rest.
  change (String c s = String c (substring 0 m s ++ rest)%string). by f_equal.
Qed.

Lemma length_string_app (a b : string) :
  String.length (a ++ b) = (String.length a + String.length b)%nat.
Proof.
  induction a as [|c a IH]; [reflexivity|].
  change (S (String.length (a ++ b)) = S (String.length a + String.length b)).
  by rewrite IH.
Qed.

(** X17. The name shown beside a skill is never longer than 14
    characters: a name of up to 14 characters is shown as it is, a longer
    one as its first 12 characters followed by two dots. *)
Theorem display_name_fits (lang : string) :
  (String.length (display_name lang) ≤ 14)%nat ∧
  ((String.length lang ≤ 14)%nat → display_name lang = lang) ∧
  ((14 < String.length lang)%nat →
   String.length (display_name lang) = 14%nat ∧
   ∃ head rest, String.length head = 12%nat ∧ lang = (head ++ rest)%string ∧
                display_name lang = (head ++ "..")%string).
Proof.
  unfold display_name. destruct (Nat.ltb_spec 14 (String.length lang)) as [Hlong|Hshort].
  - assert (Hlen : String.length (substring 0 12 lang) = 12%nat)
      by (rewrite length_substring_0; lia).
    rewrite length_string_app, Hlen. simpl.
    split; [lia|]. split; [lia|]. intros _. split; [reflexivity|].
    destruct (substring_0_prefix 12 lang) as [rest Hrest].
    exists (substring 0 12 lang), rest. auto.
  - split; [exact Hshort|]. split; [reflexivity | lia].
Qed.

Section skill_tree_more.
Import Binary64.
Local Open Scope Q_scope.

Lemma of_int_12 : of_int 12 = Finite 12.
Proof. vm_compute. reflexivity. Qed.

Lemma xp_width_range (cw track pct : Q) :
  fsub (Finite cw) (of_int 80) = Finite track → round (1 * track) = Finite track →
  12 <= track → 0 <= pct → pct <= 1 →
  ∃ x, xp_width (Finite pct) (Finite cw) = Finite x ∧ 12 <= x ∧ x <= track.
Proof.
  intros Htrack Hround H12 Hp0 Hp1. unfold xp_width, py_max.
  rewrite Htrack, fmul_Finite, of_int_12.
  destruct (round_between 0 (1 * track) (pct * track) 0 track round_0 Hround)
    as (v & Hv & Hv0 & Hv1); [nra | nra |].
  rewrite Hv. destruct (flt (Finite 12) (Finite v)) eqn:Hlt.
  - apply flt_Finite in Hlt. exists v. repeat split; [lra | exact Hv1].
  - exists 12. repeat split; [lra | exact H12].
Qed.

(** X18. The filled part of an experience bar is at least 12 wide and
    never wider than the track behind it, for every number of columns
    the tree can have and every proportion between 0 and 1. *)
Theorem xp_bar_within_track (num_cats : Z) (pct : Q) :
  (0 ≤ num_cats ≤ 5)%Z → 0 <= pct → pct <= 1 →
  ∃ cw track x, col_width num_cats = Return (Finite cw) ∧
                full_bar_width (Finite cw) = Finite track ∧
                xp_width (Finite pct) (Finite cw) = Finite x ∧
                12 <= x ∧ x <= track.
Proof.
  intros Hn Hp0 Hp1.
  assert (Hcases : num_cats = 0%Z ∨ num_cats = 1%Z ∨ num_cats = 2%Z ∨ num_cats = 3%Z
                   ∨ num_cats = 4%Z ∨ num_cats = 5%Z) by lia.
  destruct Hcases as [->|[->|[->|[->|[->| ->]]]]].
  all: match goal with
       | |- ∃ cw track x, col_width ?n = _ ∧ _ =>
           let r := eval vm_compute in (col_width n) in
           match r with
           | Return (Finite ?cw) =>
               let t := eval vm_compute in (full_bar_width (Finite cw)) in
               match t with
               | Finite ?track =>
                   destruct (xp_width_range cw track pct) as (x & Hx & Hx12 & Hxt);
                   [vm_compute; reflexivity | vm_compute; reflexivity
                   | vm_compute; discriminate | exact Hp0 | exact Hp1 |];
                   exists cw, track, x;
                   (split; [vm_compute; reflexivity|]);
                   (split; [vm_compute; reflexivity|]);
                   (split; [exact Hx|]); split; assumption
               end
           end
       end.
Qed.

End skill_tree_more.

Section mastery.
Import Binary64.
Local Open Scope Q_scope.

Lemma max_fold_spec (l : list (string * Z)) :
  let r := foldr (uncurry (λ (_ : string) (v : Z) (acc : option Z),
                             Some (match acc with
                                   | Some m => Z.max v m
                                   | None => v
                                   end))) None l in
  match l with
  | [] => r = None
  | _ => ∃ m, r = Some m ∧ Forall (λ kv, (kv.2 ≤ m)%Z) l ∧ ∃ kv, kv ∈ l ∧ kv.2 = m
  end.
Proof.
  cbv zeta. induction l as [|[k v] l IH]; [reflexivity|]. simpl.
  destruct l as [|kv' l'].
  - simpl. exists v. split; [reflexivity|]. split; [repeat constructor; simpl; lia|].
    exists (k, v). split; [left | reflexivity].
  - destruct IH as (m & -> & Hall & kv & Hin & Hkv).
    exists (Z.max v m). split; [reflexivity|]. split.
    + constructor; [simpl; lia|]. eapply Forall_impl; [exact Hall|]. simpl. intros; lia.
    + destruct (Z.max_spec v m) as [[_ ->]|[_ ->]].
      * exists kv. split; [by right | exact Hkv].
      * exists (k, v). split; [left | reflexivity].
Qed.

(** [max_bytes_of] of a dict that is not empty is its largest value. *)
Lemma max_bytes_of_spec (languages : gmap string Z) :
  languages ≠ ∅ →
  (∀ l v, languages !! l = Some v → (v ≤ max_bytes_of languages)%Z) ∧
  ∃ l, languages !! l = Some (max_bytes_of languages).
Proof.
  intros Hne. unfold max_bytes_of. rewrite map_fold_foldr.
  pose proof (max_fold_spec (map_to_list languages)) as Hspec. cbv zeta in Hspec.
  destruct (map_to_list languages) as [|kv rest] eqn:Hlist.
  { apply map_to_list_empty_iff in Hlist. contradiction. }
  destruct Hspec as (m & -> & Hall & [k v] & Hin & Hkv). simpl in *. subst v. split.
  - intros l v Hl. rewrite Forall_forall in Hall.
    apply (Hall (l, v)). rewrite <- Hlist. by apply elem_of_map_to_list.
  - exists k. apply elem_of_map_to_list. by rewrite Hlist.
Qed.

Lemma skill_level_Return_range (b m : Z) :
  (0 ≤ b ≤ m)%Z → (0 < m)%Z → ∃ level, skill_level b m = Return level.
Proof.
  intros Hb Hm. unfold skill_level.
  destruct (round_between 0 1 (inject_Z b / inject_Z m) 0 1 round_0 round_1)
    as (q & Hq & _ & _).
  - apply (Zquot_le 0 1 b m); lia.
  - apply (Zquot_le b m 1 1); lia.
  - rewrite (truediv_Finite b m q) by (lia || exact Hq). rewrite bind_Return_l. eauto.
Qed.

Lemma level_of_1 : level_of (Finite 1) = Master.
Proof. vm_compute. reflexivity. Qed.

Lemma skill_level_max (m : Z) : (0 < m)%Z → skill_level m m = Return Master.
Proof.
  intros Hm. unfold skill_level. rewrite (truediv_Finite m m 1).
  - rewrite bind_Return_l. by rewrite level_of_1.
  - lia.
  - rewrite <- round_1. apply round_proper. field. apply inject_Z_nonzero. lia.
Qed.

(** A column of the tree is a selection of the sorted languages that is
    not empty. *)
Lemma categorized_columns (sorted_langs : list (string * Z)) (cat : string)
    (column : list (string * Z)) :
  (cat, column) ∈ categorized sorted_langs →
  column ≠ [] ∧ ∃ p, column = List.filter p sorted_langs.
Proof.
  rewrite categorized_unfold. cbv zeta. rewrite !elem_of_app.
  intros [H|[H|[H|[H|H]]]];
    match type of H with
    | _ ∈ match ?l with _ => _ end =>
        destruct l eqn:E;
        [by apply elem_of_nil in H
        |apply list_elem_of_singleton in H; injection H as -> ->;
         split; [done | eexists; symmetry; exact E]]
    end.
Qed.

(** The first of the sorted languages is the first of its column. *)
Lemma head_column (x : string * Z) (rest : list (string * Z)) :
  ∃ cat column, (cat, x :: column) ∈ categorized (x :: rest).
Proof.
  rewrite categorized_unfold. cbv zeta. destruct x as [lang b].
  destruct (in_one_category lang) as (_ & _ & _ & Hall).
  unfold in_category, uncategorized. cbn [List.filter fst].
  rewrite Hall.
  destruct (member lang (nth 0 (snd <$> categories) [])) eqn:E0.
  { eexists _, _. rewrite elem_of_app. left. left. }
  destruct (member lang (nth 1 (snd <$> categories) [])) eqn:E1.
  { eexists _, _. rewrite !elem_of_app. right. left. left. }
  destruct (member lang (nth 2 (snd <$> categories) [])) eqn:E2.
  { eexists _, _. rewrite !elem_of_app. right. right. left. left. }
  destruct (member lang (nth 3 (snd <$> categories) [])) eqn:E3.
  { eexists _, _. rewrite !elem_of_app. right. right. right. left. left. }
  cbn [orb negb]. eexists _, _. rewrite !elem_of_app. right. right. right. right. left.
Qed.

Lemma column_skills_Return (max_bytes : Z) (column : list (string * Z)) :
  Forall (λ item, (0 ≤ item.2 ≤ max_bytes)%Z) column → (0 < max_bytes)%Z →
  ∃ skills, column_skills max_bytes column = Return skills ∧
            Forall2 (λ item skill, skill.1 = item.1 ∧
                                   skill_level item.2 max_bytes = Return skill.2)
                    (take 6 column) skills.
Proof.
  intros Hcol Hmax.
  assert (Hall : Forall (λ item, ∃ skill : string * Level,
                           skill.1 = item.1 ∧ skill_level item.2 max_bytes = Return skill.2)
                        (take 6 column)).
  { apply Forall_take. eapply Forall_impl; [exact Hcol|]. intros [l v] Hv. simpl in *.
    destruct (skill_level_Return_range v max_bytes Hv Hmax) as [level Hlevel].
    exists (l, level). split; [reflexivity | exact Hlevel]. }
  destruct (Forall2_total _ _ Hall) as (skills & Hskills).
  exists skills. split; [|exact Hskills].
  apply mapM_Return_Forall2. eapply Forall2_impl; [exact Hskills|].
  intros [l v] [l' level] [Hname Hlevel]. simpl in *. subst l'. by rewrite Hlevel.
Qed.

Lemma is_master_Return (max_bytes b : Z) :
  (0 ≤ b ≤ max_bytes)%Z → (0 < max_bytes)%Z → ∃ m, is_master max_bytes b = Return m.
Proof.
  intros Hb Hmax. unfold is_master.
  destruct (round_between 0 1 (inject_Z b / inject_Z max_bytes) 0 1 round_0 round_1)
    as (q & Hq & _ & _).
  - apply (Zquot_le 0 1 b max_bytes); lia.
  - apply (Zquot_le b max_bytes 1 1); lia.
  - rewrite (truediv_Finite b max_bytes q) by (lia || exact Hq).
    rewrite bind_Return_l. eauto.
Qed.

Lemma is_master_max (max_bytes : Z) :
  (0 < max_bytes)%Z → is_master max_bytes max_bytes = Return true.
Proof.
  intros Hmax. unfold is_master. rewrite (truediv_Finite max_bytes max_bytes 1).
  - rewrite bind_Return_l. vm_compute. reflexivity.
  - lia.
  - rewrite <- round_1. apply round_proper. field. apply inject_Z_nonzero. lia.
Qed.

(** X19. With byte counts that are not negative and not all zero the
    Skill Tree renders, in whatever order the dict lists its items: every
    column shows its first six languages, each with the level of its
    proportion of the largest count; a language with the largest count
    comes first in its column and is a Master; and the footer counts at
    least one master and at most as many as there are languages. *)
Theorem largest_language_is_master (languages : gmap string Z)
    (items : list (string * Z)) :
  map_Forall (λ _ v, (0 ≤ v)%Z) languages →
  (∃ l v, languages !! l = Some v ∧ (0 < v)%Z) →
  items ≡ₚ map_to_list languages →
  let max_bytes := max_bytes_of languages in
  ∃ columns master_count,
    skill_tree_of items max_bytes = Return (columns, master_count) ∧
    Forall2 (λ column out,
               out.1 = column.1 ∧
               Forall2 (λ item skill, skill.1 = item.1 ∧
                                      skill_level item.2 max_bytes = Return skill.2)
                       (take 6 column.2) out.2)
            (categorized (sort_desc snd items)) columns ∧
    (∃ cat l rest, (cat, (l, Master) :: rest) ∈ columns ∧
                   languages !! l = Some max_bytes) ∧
    (1 ≤ master_count ≤ Z.of_nat (size languages))%Z.
Proof.
  intros Hnonneg (l0 & v0 & Hl0 & Hv0) Hitems. cbv zeta.
  assert (Hne : languages ≠ ∅) by (intros ->; by rewrite lookup_empty in Hl0).
  destruct (max_bytes_of_spec languages Hne) as (Hmax & lmax & Hlmax).
  set (M := max_bytes_of languages) in *.
  assert (Hpos : (0 < M)%Z) by (specialize (Hmax l0 v0 Hl0); lia).
  pose proof (sort_desc_Permutation snd items) as Hperm.
  pose proof (sort_desc_sorted snd items) as Hsorted.
  set (sl := sort_desc snd items) in *.
  assert (Hin : ∀ l v, (l, v) ∈ sl ↔ languages !! l = Some v).
  { intros l v. rewrite Hperm, Hitems. apply elem_of_map_to_list. }
  assert (Hrange : Forall (λ item : string * Z, (0 ≤ item.2 ≤ M)%Z) sl).
  { apply Forall_forall. intros [l v] Hlv. apply Hin in Hlv. simpl.
    split; [exact (Hnonneg l v Hlv) | exact (Hmax l v Hlv)]. }
  (* the columns *)
  set (P := λ (column : string * list (string * Z)) (out : string * list (string * Level)),
              out.1 = column.1 ∧
              Forall2 (λ item skill, skill.1 = item.1 ∧
                                     skill_level item.2 M = Return skill.2)
                      (take 6 column.2) out.2 ∧
              column_skills M column.2 = Return out.2).
  assert (Hcols : Forall (λ column, ∃ out, P column out) (categorized sl)).
  { apply Forall_forall. intros [cat column] Hcol.
    apply categorized_columns in Hcol as (_ & p & ->).
    destruct (column_skills_Return M (List.filter p sl)) as (skills & Hrun & Hskills).
    - eapply Forall_forall. intros item Hitem. rewrite Forall_forall in Hrange.
      apply Hrange. apply list_elem_of_In, filter_In in Hitem as [Hitem _].
      by apply list_elem_of_In.
    - exact Hpos.
    - exists (cat, skills). split; [reflexivity|]. split; [exact Hskills | exact Hrun]. }
  destruct (Forall2_total _ _ Hcols) as (columns & Hcolumns).
  assert (Hrun_cols : mapM (λ '(cat, column),
                              skills ← column_skills M column; Return (cat, skills))
                           (categorized sl) = Return columns).
  { apply mapM_Return_Forall2. eapply Forall2_impl; [exact Hcolumns|].
    intros [cat column] [cat' skills] (Hname & _ & Hrun). simpl in *. subst cat'.
    by rewrite Hrun. }
  (* the footer *)
  assert (Hms : Forall (λ item : string * Z, ∃ m, is_master M item.2 = Return m) sl).
  { eapply Forall_impl; [exact Hrange|]. intros [l v] Hv. simpl in *.
    by apply is_master_Return. }
  destruct (Forall2_total _ _ Hms) as (masters & Hmasters).
  assert (Hrun_ms : mapM (λ '(_, b), is_master M b) sl = Return masters).
  { apply mapM_Return_Forall2. eapply Forall2_impl; [exact Hmasters|].
    intros [l v] m Hm. exact Hm. }
  (* the largest language comes first *)
  assert (Hhead : ∃ l rest, sl = (l, M) :: rest).
  { destruct sl as [|[l v] rest] eqn:Hsl.
    - exfalso. assert (Hx : (lmax, M) ∈ @nil (string * Z)) by (by apply Hin).
      by apply elem_of_nil in Hx.
    - exists l, rest. f_equal. f_equal.
      assert (Hv : (v ≤ M)%Z) by (apply (Hmax l), Hin; left).
      assert (Hm : (lmax, M) ∈ (l, v) :: rest) by (by apply Hin).
      apply elem_of_cons in Hm as [Hm|Hm]; [by injection Hm|].
      apply StronglySorted_inv in Hsorted as [_ Hall].
      rewrite Forall_forall in Hall. specialize (Hall _ Hm). unfold desc in Hall.
      simpl in Hall. lia. }
  destruct Hhead as (l & rest & Hsl).
  exists columns, (Z.of_nat (length (List.filter id masters))).
  split.
  { unfold skill_tree_of. fold sl. rewrite Hrun_cols, bind_Return_l, Hrun_ms, bind_Return_l.
    reflexivity. }
  split.
  { eapply Forall2_impl; [exact Hcolumns|]. intros column out (H1 & H2 & _). by split. }
  split.
  { destruct (head_column (l, M) rest) as (cat & column & Hcol). rewrite <- Hsl in Hcol.
    apply list_elem_of_lookup in Hcol as [i Hi].
    destruct (Forall2_lookup_l _ _ _ _ _ Hcolumns Hi) as ([cat' skills] & Hout & Hname & Hsk & _).
    simpl in *. subst cat'.
    inversion Hsk as [|item [l' level] items' skills' [Hl Hlevel] Hrest]; subst.
    simpl in *. subst l'. rewrite (skill_level_max M Hpos) in Hlevel.
    apply Return_inj in Hlevel. subst level.
    exists cat, l, skills'. split; [by eapply list_elem_of_lookup_2|].
    apply Hin. rewrite Hsl. left. }
  split.
  - rewrite Hsl in Hmasters.
    inversion Hmasters as [|item m items' ms Hm Hrest]; subst. simpl in Hm.
    rewrite (is_master_max M Hpos) in Hm. apply Return_inj in Hm. subst m.
    simpl. lia.
  - pose proof (List.filter_length_le id masters) as Hle.
    assert (Hsize : length masters = size languages).
    { rewrite <- (Forall2_length _ _ _ Hmasters).
      rewrite (Permutation_length Hperm), (Permutation_length Hitems).
      apply length_map_to_list. }
    lia.
Qed.

End mastery.

(** ** Code Weather *)

(** X20. The temperature of a count that is not negative lies between 0
    and 99 and is 0 only without activity; it is 12, 10, 8 and 6 degrees
    per event in the four bands, capped at 99, so that it falls where a
    band ends: five events give 50 degrees and six give 48. *)
Theorem temperature_range (count : Z) :
  0 ≤ count →
  0 ≤ temp_of count ≤ 99 ∧
  (temp_of count = 0 ↔ count = 0) ∧
  (1 ≤ count ≤ 2 → temp_of count = 12 * count) ∧
  (3 ≤ count ≤ 5 → temp_of count = 10 * count) ∧
  (6 ≤ count ≤ 10 → temp_of count = 8 * count) ∧
  (11 ≤ count ≤ 16 → temp_of count = 6 * count) ∧
  (17 ≤ count → temp_of count = 99) ∧
  temp_of 6 < temp_of 5 ∧ temp_of 11 < temp_of 10.
Proof.
  intros Hc. unfold temp_of.
  destruct (Z.eqb_spec count 0); [subst; repeat split; intros; try lia; reflexivity|].
  destruct (Z.leb_spec count 2); [repeat split; intros; try lia; reflexivity|].
  destruct (Z.leb_spec count 5); [repeat split; intros; try lia; reflexivity|].
  destruct (Z.leb_spec count 10); repeat split; intros; try lia; reflexivity.
Qed.

Section weather_more.
Import Binary64.
Local Open Scope Q_scope.

Lemma of_int_2 : of_int 2 = Finite 2.
Proof. vm_compute. reflexivity. Qed.
Lemma lit_60 : lit 60 = Finite 60.
Proof. vm_compute. reflexivity. Qed.
Lemma round_1_60 : round (1 * 60) = Finite 60.
Proof. vm_compute. reflexivity. Qed.
Lemma round_0_60 : round (0 * 60) = Finite 0.
Proof. vm_compute. reflexivity. Qed.

(** The height of the bar of a count between 0 and the largest. *)
Lemma bar_height_range (last_30 : list Z) (val : Z) :
  (0 ≤ val ≤ max_val_of last_30)%Z →
  ∃ h, bar_height last_30 val = Return (Finite h) ∧ 2 <= h ∧ h <= 60 ∧
       (val = 0%Z → h == 2) ∧ (val = max_val_of last_30 → h == 60).
Proof.
  intros Hval. unfold bar_height. pose proof (max_val_of_pos last_30) as Hpos.
  destruct (round_between 0 1 (inject_Z val / inject_Z (max_val_of last_30)) 0 1
              round_0 round_1) as (u & Hu & Hu0 & Hu1).
  { apply (Zquot_le 0 1); lia. }
  { apply (Zquot_le _ _ 1 1); lia. }
  rewrite (truediv_Finite _ _ u) by (lia || exact Hu).
  rewrite bind_Return_l, lit_60, fmul_Finite.
  change (lit 2) with (of_int 2). rewrite of_int_2.
  destruct (round_between (0 * 60) (1 * 60) (u * 60) 0 60 round_0_60 round_1_60)
    as (v & Hv & Hv0 & Hv1); [lra..|].
  rewrite Hv.
  assert (Hzero : val = 0%Z → v == 0).
  { intros ->. assert (Hu' : inject_Z 0 / inject_Z (max_val_of last_30) == 0).
    { unfold Qdiv. change (inject_Z 0) with 0. ring. }
    rewrite (round_proper _ _ Hu'), round_0 in Hu. injection Hu as <-.
    rewrite round_0_60 in Hv. by injection Hv as <-. }
  assert (Hfull : val = max_val_of last_30 → v == 60).
  { intros Heq. assert (Hu' : inject_Z val / inject_Z (max_val_of last_30) == 1).
    { rewrite Heq. field. apply inject_Z_nonzero. lia. }
    rewrite (round_proper _ _ Hu'), round_1 in Hu. injection Hu as <-.
    rewrite round_1_60 in Hv. by injection Hv as <-. }
  destruct (flt (Finite 2) (Finite v)) eqn:Hlt.
  - apply flt_Finite in Hlt. exists v. repeat split; try lra; try assumption.
    intros H0. apply Hzero in H0. lra.
  - assert (Hle : v <= 2).
    { destruct (Qlt_le_dec 2 v) as [H|H]; [|exact H].
      apply flt_Finite in H. congruence. }
    exists 2. repeat split; try lra.
    intros Hf. apply Hfull in Hf. lra.
Qed.

(** X21. For daily counts between 0 and [2 ^ 1000] the Weather card
    renders with thirty bars, one per day and each between 2 and 60 high:
    2 for a day without activity, 60 for the day with the most. Today's
    band and temperature are those of the count of the first day. *)
Theorem activity_bars_range (day_key : nat → string) (daily : gmap string Z) :
  (∀ day, (0 ≤ get0 daily day ≤ 2 ^ 1000)%Z) →
  let last_30 := last_30_of day_key daily in
  ∃ f, generate_code_weather day_key daily = Return f ∧
       Forall2 (λ count h, ∃ q, h = Finite q ∧ 2 <= q ∧ q <= 60 ∧
                                (count = 0%Z → q == 2) ∧
                                (count = max_val_of last_30 → q == 60))
               last_30 (bars f) ∧
       length (bars f) = 30%nat ∧
       today_count f = get0 daily (day_key 0%nat) ∧
       weather f = weather_of (today_count f) ∧
       temp f = temp_of (today_count f).
Proof.
  intros Hdaily. cbv zeta.
  assert (H0 : Forall (λ x, (0 ≤ x)%Z) (last_30_of day_key daily))
    by (apply last_30_nonneg; intros day; apply Hdaily).
  assert (HB : Forall (λ x, (x ≤ 2 ^ 1000)%Z) (last_30_of day_key daily))
    by (apply last_30_bounded; intros day; apply Hdaily).
  pose proof (sum_Z_nonneg _ H0) as Hs30.
  pose proof (sum_Z_le _ _ HB) as Hs30'. rewrite length_last_30 in Hs30'.
  assert (H0' : Forall (λ x, (0 ≤ x)%Z) (last_7_of day_key daily))
    by (apply Forall_take, H0).
  assert (HB' : Forall (λ x, (x ≤ 2 ^ 1000)%Z) (last_7_of day_key daily))
    by (apply Forall_take, HB).
  pose proof (sum_Z_nonneg _ H0') as Hs7.
  pose proof (sum_Z_le _ _ HB') as Hs7'. rewrite length_last_7 in Hs7'.
  destruct (truediv_average (sum_Z (last_7_of day_key daily)) 7) as (q7 & H7 & _);
    [lia | lia |].
  destruct (truediv_average (sum_Z (last_30_of day_key daily)) 30) as (q30 & H30 & _);
    [lia | lia |].
  set (P := λ (count : Z) (h : float),
              ∃ q, h = Finite q ∧ 2 <= q ∧ q <= 60 ∧ (count = 0%Z → q == 2) ∧
                   (count = max_val_of (last_30_of day_key daily) → q == 60) ∧
                   bar_height (last_30_of day_key daily) count = Return (Finite q)).
  assert (Hall : Forall (λ count, ∃ h, P count h) (last_30_of day_key daily)).
  { pose proof (max_val_of_ge (last_30_of day_key daily)) as Hmax.
    rewrite Forall_forall in H0, Hmax. apply Forall_forall. intros x Hx.
    destruct (bar_height_range (last_30_of day_key daily) x) as (h & Hh & H2 & H60 & Hz & Hf).
    - split; [apply H0, Hx | apply Hmax, Hx].
    - exists (Finite h), h. repeat split; assumption. }
  destruct (Forall2_total _ _ Hall) as (hs & Hhs).
  assert (Hrun : mapM (bar_height (last_30_of day_key daily)) (last_30_of day_key daily)
                 = Return hs).
  { apply mapM_Return_Forall2. eapply Forall2_impl; [exact Hhs|].
    intros count h (q & -> & _ & _ & _ & _ & Hq). exact Hq. }
  eexists. split.
  { unfold generate_code_weather. rewrite length_last_7, length_last_30.
    change (Z.max (Z.of_nat 7) 1) with 7%Z. change (Z.max (Z.of_nat 30) 1) with 30%Z.
    rewrite H7, bind_Return_l, H30, bind_Return_l, Hrun, bind_Return_l. reflexivity. }
  cbn [bars today_count weather temp].
  split.
  { eapply Forall2_impl; [exact Hhs|].
    intros count h (q & -> & ? & ? & ? & ? & _). exists q. repeat split; assumption. }
  split; [rewrite <- (Forall2_length _ _ _ Hhs); apply length_last_30|].
  repeat split.
Qed.

(** X22. A history without activity in the thirty days gives one card,
    whatever older entries the dict holds: Cloudy, 0 degrees, both
    averages 0, a steady trend and thirty bars of height 2. *)
Theorem quiet_history (day_key : nat → string) (daily : gmap string Z) :
  (∀ i, (i < 30)%nat → get0 daily (day_key i) = 0%Z) →
  generate_code_weather day_key daily
  = Return {| today_count := 0; weather := Cloudy; temp := 0;
              avg_7 := Finite 0; avg_30 := Finite 0; trend := Steady;
              bars := replicate 30 (of_int 2) |}.
Proof.
  intros Hquiet.
  assert (Hlast : last_30_of day_key daily = replicate 30 0%Z).
  { unfold last_30_of.
    assert (Hgen : ∀ n start, (start + n ≤ 30)%nat →
              (λ i, get0 daily (day_key i)) <$> seq start n = replicate n 0%Z).
    { induction n as [|n IH]; intros start Hn; [reflexivity|].
      simpl. rewrite Hquiet by lia. f_equal. apply IH. lia. }
    apply Hgen. lia. }
  unfold generate_code_weather, last_7_of. rewrite Hlast.
  vm_compute. reflexivity.
Qed.

End weather_more.

(** X23. The seven columns of the forecast are labelled from a list that
    starts with Sunday while [weekday()] numbers the days from Monday:
    every day gets a label, never the question mark, and the label is the
    name of the day before it. 2024-03-06, a Wednesday, is labelled Tue. *)
Theorem forecast_day_labels (y m d : Z) :
  let w := weekday y m d in
  0 ≤ w ≤ 6 ∧
  (∃ name, day_name w = Some name ∧ name ≠ "?" ∧
           list_index weekday_names ((w + 6) mod 7) = Some name) ∧
  weekday 2024 3 6 = 2 ∧
  list_index weekday_names 2 = Some "Wed" ∧
  day_name (weekday 2024 3 6) = Some "Tue".
Proof.
  cbv zeta.
  assert (Hw : 0 ≤ weekday y m d < 7) by (unfold weekday; apply Z.mod_pos_bound; lia).
  split; [lia|]. split; [|repeat split].
  assert (Hcases : weekday y m d = 0 ∨ weekday y m d = 1 ∨ weekday y m d = 2
                   ∨ weekday y m d = 3 ∨ weekday y m d = 4 ∨ weekday y m d = 5
                   ∨ weekday y m d = 6) by lia.
  destruct Hcases as [->|[->|[->|[->|[->|[->| ->]]]]]];
    eexists; (split; [reflexivity|]); split; (discriminate || reflexivity).
Qed.

(** ** Colours *)

(** X24. Whatever the language name, the colour it is drawn in is a
    well-formed [#RRGGBB] value: the one of the table, or the default
    grey for a name the table does not have. *)
Theorem language_colour_well_formed (lang : string) :
  is_hex_colour (get_lang_color lang) = true ∧
  (LANG_COLORS !! lang = None → get_lang_color lang = DEFAULT_LANG_COLOR).
Proof.
  unfold get_lang_color. split; [|by intros ->].
  destruct (LANG_COLORS !! lang) as [colour|] eqn:Hl; [|reflexivity]. simpl.
  assert (Hall : map_Forall (λ _ c, is_hex_colour c = true) LANG_COLORS).
  { apply (bool_decide_unpack _). vm_compute. reflexivity. }
  exact (Hall lang colour Hl).
Qed.

(** ** From the aggregator to the Weather card *)

Lemma total_delete (d : gmap string Z) (k : string) :
  total (delete k d) = total d - get0 d k.
Proof.
  unfold get0. destruct (d !! k) as [v|] eqn:Hk; simpl.
  - rewrite <- (insert_delete_id d k v Hk) at 2.
    rewrite total_insert_fresh by apply lookup_delete_eq. lia.
  - rewrite delete_id by exact Hk. lia.
Qed.

(** The counts found under distinct keys add up to at most the total. *)
Lemma sum_distinct_keys (ks : list string) : ∀ d : gmap string Z,
  map_Forall (λ _ v, 0 ≤ v) d → NoDup ks → sum_Z ((λ k, get0 d k) <$> ks) ≤ total d.
Proof.
  induction ks as [|k ks IH]; intros d Hd Hnd.
  - pose proof (total_nonneg_get0 d Hd ""). simpl. lia.
  - rewrite fmap_cons.
    change (get0 d k + sum_Z ((λ k0, get0 d k0) <$> ks) ≤ total d).
    apply NoDup_cons in Hnd as [Hk Hnd].
    assert (Hd' : map_Forall (λ _ v, 0 ≤ v) (delete k d)).
    { intros i v Hi. apply lookup_delete_Some in Hi as [_ Hi]. exact (Hd i v Hi). }
    specialize (IH (delete k d) Hd' Hnd). rewrite total_delete in IH.
    assert (Heq : (λ k0, get0 (delete k d) k0) <$> ks = (λ k0, get0 d k0) <$> ks).
    { apply list_fmap_ext. intros i k' Hk'. unfold get0.
      rewrite lookup_delete_ne; [reflexivity|].
      intros ->. apply Hk. by eapply list_elem_of_lookup_2. }
    rewrite Heq in IH. lia.
Qed.

Section pipeline.
Import Binary64.

Variable fromisoformat : string → option datetime.

Lemma event_loop_daily_bounds (events : list Event) :
  map_Forall (λ _ v, 0 ≤ v) (act_daily (event_loop fromisoformat events)) ∧
  total (act_daily (event_loop fromisoformat events)) ≤ Z.of_nat (length events).
Proof.
  unfold event_loop.
  set (init := {| act_daily := ∅; act_hourly := ∅; act_types := ∅ |}).
  destruct (fold_event_step_positive fromisoformat events init) as (Pd & _ & _);
    [apply map_Forall_empty..|].
  destruct (fold_event_step_totals fromisoformat events init) as (Hd & _ & _).
  split.
  - intros k v Hk. specialize (Pd k v Hk). simpl in Pd. lia.
  - rewrite Hd. simpl. pose proof (total_empty (K:=string)) as Ht.
    pose proof (List.filter_length_le (timestamp_ok fromisoformat) events). lia.
Qed.

(** X25. One page of events, as the aggregator reads it, always gives a
    Weather card: for a profile aggregated from at most 100 events and
    thirty distinct day keys the renderer returns, the thirty counts add
    up to at most the number of events, and the trend is the one of the
    exact averages. *)
Theorem aggregated_history_renders (up : Upstream) (d : ProfileStats)
    (day_key : nat → string) :
  fetch_user_data fromisoformat up = Return d →
  (length (body_or (up_events up) []) ≤ 100)%nat →
  NoDup (day_key <$> seq 0 30) →
  let last_7 := last_7_of day_key (daily_activity d) in
  let last_30 := last_30_of day_key (daily_activity d) in
  ∃ f, generate_code_weather day_key (daily_activity d) = Return f ∧
       Forall (λ count, 0 ≤ count) last_30 ∧
       sum_Z last_7 ≤ sum_Z last_30 ∧
       sum_Z last_30 ≤ Z.of_nat (length (body_or (up_events up) [])) ∧
       trend f = exact_trend (sum_Z last_7) (sum_Z last_30).
Proof.
  intros Hd Hpage Hdays. cbv zeta.
  apply fetch_user_data_Return in Hd as (_ & _ & _ & Hdaily & _).
  cbv zeta in Hdaily. rewrite Hdaily.
  set (events := body_or (up_events up) []) in *.
  destruct (event_loop_daily_bounds events) as [Hnonneg Htotal].
  set (daily := act_daily (event_loop fromisoformat events)) in *.
  assert (Hcount : ∀ day, 0 ≤ get0 daily day ≤ 2 ^ 1000).
  { intros day. pose proof (total_nonneg_get0 daily Hnonneg day) as Hday.
    assert (Hbig : 100 ≤ 2 ^ 1000) by (vm_compute; discriminate). lia. }
  assert (H0 : Forall (λ x, 0 ≤ x) (last_30_of day_key daily))
    by (apply last_30_nonneg; intros day; apply Hcount).
  assert (HB : Forall (λ x, x ≤ 2 ^ 1000) (last_30_of day_key daily))
    by (apply last_30_bounded; intros day; apply Hcount).
  assert (Hsum : sum_Z (last_30_of day_key daily) ≤ Z.of_nat (length events)).
  { unfold last_30_of. rewrite (list_fmap_compose day_key (λ k, get0 daily k)).
    pose proof (sum_distinct_keys (day_key <$> seq 0 30) daily Hnonneg Hdays). lia. }
  pose proof (sum_Z_nonneg _ H0) as Hs30.
  assert (H0' : Forall (λ x, 0 ≤ x) (last_7_of day_key daily)) by (apply Forall_take, H0).
  pose proof (sum_Z_nonneg _ H0') as Hs7.
  pose proof (sum_Z_take 7 _ H0) as Hs7s30. fold (last_7_of day_key daily) in Hs7s30.
  assert (Hbig : 100 ≤ 2 ^ 1000) by (vm_compute; discriminate).
  destruct (truediv_average (sum_Z (last_7_of day_key daily)) 7) as (q7 & H7 & _);
    [lia | lia |].
  destruct (truediv_average (sum_Z (last_30_of day_key daily)) 30) as (q30 & H30 & _);
    [lia | lia |].
  destruct (mapM_Return (bar_height (last_30_of day_key daily)) (last_30_of day_key daily))
    as (hs & Hhs).
  { pose proof (max_val_of_ge (last_30_of day_key daily)) as Hmax.
    rewrite Forall_forall in H0, Hmax. apply Forall_forall. intros x Hx.
    apply bar_height_Return. split; [apply H0, Hx | apply Hmax, Hx]. }
  eexists. split.
  { unfold generate_code_weather. rewrite length_last_7, length_last_30.
    change (Z.max (Z.of_nat 7) 1) with 7. change (Z.max (Z.of_nat 30) 1) with 30.
    rewrite H7, bind_Return_l, H30, bind_Return_l, Hhs, bind_Return_l. reflexivity. }
  cbn [trend]. split; [exact H0|]. split; [exact Hs7s30|]. split; [exact Hsum|].
  apply trend_exact; (lia || assumption).
Qed.

End pipeline.

(** * The further properties on the sample inputs *)

(** The language query of the fork is never issued: the run is the same
    when it would time out. *)
Lemma languages_queried_for_own_repositories_witness :
  fetch_user_data fromisoformat_github sample_upstream_fork_down
  = fetch_user_data fromisoformat_github sample_upstream
  ∧ fetch_user_data fromisoformat_github sample_upstream_fork_down = Return sample_stats.
Proof.
  split; [|vm_compute; reflexivity].
  apply languages_queried_for_own_repositories; try reflexivity.
  intros r Hr. vm_compute in Hr.
  repeat (apply elem_of_cons in Hr as [-> | Hr]; [vm_compute; reflexivity|]).
  by apply elem_of_nil in Hr.
Defined.

Lemma languages_keys_witness :
  is_Some (languages sample_stats !! "Go")
  ↔ ∃ r, r ∈ included sample_repos ∧ is_Some (languages_of sample_upstream r !! "Go").
Proof.
  apply (languages_keys fromisoformat_github sample_upstream sample_stats).
  vm_compute. reflexivity.
Defined.

Lemma repository_order_irrelevant_witness :
  ∃ d', fetch_user_data fromisoformat_github
          (with_repos sample_upstream (reverse sample_repos)) = Return d' ∧
        languages d' = languages sample_stats ∧
        total_repos d' = 2 ∧ total_stars d' = 7 ∧
        repos d' ≡ₚ repos sample_stats.
Proof.
  destruct (repository_order_irrelevant fromisoformat_github sample_upstream
              sample_repos (reverse sample_repos) sample_stats)
    as (d' & Hd' & Hlangs & Hrepos & Hstars & Hsummaries & _).
  - symmetry. apply reverse_Permutation.
  - vm_compute. reflexivity.
  - exists d'. repeat split; assumption.
Defined.

Lemma event_order_irrelevant_witness :
  event_loop fromisoformat_github (reverse sample_events)
  = event_loop fromisoformat_github sample_events.
Proof.
  apply event_order_irrelevant. apply reverse_Permutation.
Defined.

Import Binary64.

Lemma skyline_heights_witness :
  ∃ hs, generate_repo_skyline (repos sample_stats) = Return hs ∧
        Forall (λ h, fle (of_int 25) h = true ∧ fle h (of_int 170) = true) hs ∧
        head hs = Some (of_int 170).
Proof.
  destruct (skyline_heights (repos sample_stats)) as (hs & Hhs & _ & Hrange & _ & Hfirst).
  - intros r Hr.
    repeat (apply elem_of_cons in Hr as [-> | Hr]; [vm_compute; discriminate|]).
    by apply elem_of_nil in Hr.
  - exists hs. split; [exact Hhs|]. split; [exact Hrange|].
    apply (Hfirst (summarize (mk_repo false "api" "Python" 3 120) {[ "Python" := 100 ]}));
      vm_compute; reflexivity.
Defined.

Lemma sample_languages_nonneg : map_Forall (λ _ v, 0 ≤ v) (languages sample_stats).
Proof. apply (bool_decide_unpack _). vm_compute. reflexivity. Qed.

Lemma legend_percentage_range_witness :
  ∃ pct, dna_share (languages sample_stats) 150 = Return (Finite pct) ∧
         (0 <= pct)%Q ∧ (pct <= 100)%Q.
Proof.
  destruct (legend_percentage_range (languages sample_stats) sample_languages_nonneg
              "Python" 150) as (pct & Hpct & H0 & H100 & _).
  - vm_compute. reflexivity.
  - exists pct. repeat split; assumption.
Defined.

Lemma fingerprint_ignores_insertion_order_witness :
  data_hash_of_items [("Python", 150); ("Go", 20)]
  = data_hash_of_items [("Go", 20); ("Python", 150)]
  ∧ data_hash_of_items [("Python", 150); ("Go", 20)] = data_hash (languages sample_stats).
Proof.
  destruct (fingerprint_ignores_insertion_order
              [("Python", 150); ("Go", 20)] [("Go", 20); ("Python", 150)])
    as [Hsame Hdict].
  - apply (bool_decide_unpack _). vm_compute. reflexivity.
  - apply perm_swap.
  - split; [exact Hsame | exact Hdict].
Defined.

Lemma xp_bar_within_track_witness :
  ∃ cw track x, col_width 3 = Return (Finite cw) ∧
                full_bar_width (Finite cw) = Finite track ∧
                xp_width (Finite (1 # 2)) (Finite cw) = Finite x ∧
                (12 <= x)%Q ∧ (x <= track)%Q.
Proof.
  apply xp_bar_within_track; [lia | vm_compute; discriminate | vm_compute; discriminate].
Defined.

Lemma largest_language_is_master_witness :
  ∃ columns master_count,
    generate_skill_tree (languages sample_stats) = Return (columns, master_count) ∧
    (∃ cat l rest, (cat, (l, Master) :: rest) ∈ columns ∧
                   languages sample_stats !! l = Some (max_bytes_of (languages sample_stats))) ∧
    1 ≤ master_count ≤ Z.of_nat (size (languages sample_stats)).
Proof.
  destruct (largest_language_is_master (languages sample_stats)
              (map_to_list (languages sample_stats)) sample_languages_nonneg)
    as (columns & master_count & Hrun & _ & Hmaster & Hcount).
  - exists "Python", 150. split; [vm_compute; reflexivity | lia].
  - reflexivity.
  - exists columns, master_count. split; [exact Hrun|]. split; [exact Hmaster | exact Hcount].
Defined.

Lemma temperature_range_witness :
  0 ≤ temp_of 5 ≤ 99 ∧ temp_of 5 = 10 * 5.
Proof.
  destruct (temperature_range 5) as (Hrange & _ & _ & Hband & _); [lia|].
  split; [exact Hrange | apply Hband; lia].
Defined.

Lemma activity_bars_range_witness :
  ∃ f, generate_code_weather sample_day_key (daily_activity sample_stats) = Return f ∧
       length (bars f) = 30%nat ∧
       today_count f = get0 (daily_activity sample_stats) (sample_day_key 0%nat).
Proof.
  destruct (activity_bars_range sample_day_key (daily_activity sample_stats)
              sample_daily_bounded) as (f & Hf & _ & Hlen & Htoday & _).
  exists f. repeat split; assumption.
Defined.

Lemma quiet_history_witness :
  generate_code_weather quiet_day_key {[ "2023-12-31" := 5 ]}
  = Return {| today_count := 0; weather := Cloudy; temp := 0;
              avg_7 := Finite 0; avg_30 := Finite 0; trend := Steady;
              bars := replicate 30 (of_int 2) |}.
Proof.
  apply quiet_history. intros i Hi.
  do 30 (destruct i as [|i]; [vm_compute; reflexivity|]). lia.
Defined.

Lemma aggregated_history_renders_witness :
  ∃ f, generate_code_weather sample_day_key (daily_activity sample_stats) = Return f ∧
       sum_Z (last_30_of sample_day_key (daily_activity sample_stats)) ≤ 10 ∧
       trend f = exact_trend (sum_Z (last_7_of sample_day_key (daily_activity sample_stats)))
                             (sum_Z (last_30_of sample_day_key (daily_activity sample_stats))).
Proof.
  destruct (aggregated_history_renders fromisoformat_github sample_upstream sample_stats
              sample_day_key) as (f & Hf & _ & _ & Hsum & Htrend).
  - vm_compute. reflexivity.
  - vm_compute. lia.
  - apply (bool_decide_unpack _). vm_compute. reflexivity.
  - exists f. split; [exact Hf|]. split; [exact Hsum | exact Htrend].
Defined.
